(** * brew-updater: the check-and-reconcile engine

    A shallow embedding of the version comparator, the reconciliation
    engine ([check.Run] and its helpers), the process lock, the
    normalization of the configuration and the commands [set],
    [upgrade] and [check] of samzong/brew-updater, with the properties
    of its design document stated and settled against the embedded
    code.

    Go strings are byte strings ([string]); Go [int] values are [Z];
    Go maps are [gmap string _]; a Go [error] is its message, with
    [None] for [nil]. *)

From Stdlib Require Import ZArith Ascii String List Permutation Lia.
From stdpp Require Import gmap strings list fin_maps pretty.

Open Scope string_scope.
Open Scope Z_scope.

(** ** Go's [strings] and [strconv] functions used by the program *)

Module GoStrings.

Definition code (c : ascii) : N := N_of_ascii c.

(** [asciiSpace] of package strings: tab, newline, vertical tab, form
    feed, carriage return and space. *)
Definition asciiSpace (c : ascii) : bool :=
  ((9 <=? code c) && (code c <=? 13) || (code c =? 32))%N.

(** Number of leading bytes of [s] that encode one white-space rune
    ([unicode.IsSpace]), 0 when [s] does not start with one.  The
    non-ASCII white space is U+0085, U+00A0, U+1680, U+2000..U+200A,
    U+2028, U+2029, U+202F, U+205F and U+3000 in UTF-8. *)
Definition spaceWidth (s : string) : nat :=
  match List.map code (list_ascii_of_string s) with
  | c :: rest =>
      if ((9 <=? c) && (c <=? 13) || (c =? 32))%N then 1%nat
      else match c, rest with
           | 194%N, b :: _ => if ((b =? 133) || (b =? 160))%N then 2%nat else 0%nat
           | 225%N, 154%N :: 128%N :: _ => 3%nat
           | 226%N, 128%N :: b :: _ =>
               if ((128 <=? b) && (b <=? 138) || (b =? 168) || (b =? 169) || (b =? 175))%N
               then 3%nat else 0%nat
           | 226%N, 129%N :: 159%N :: _ => 3%nat
           | 227%N, 128%N :: 128%N :: _ => 3%nat
           | _, _ => 0%nat
           end
  | [] => 0%nat
  end.

(** The same for the last rune of a string, read on the reversed bytes
    (what [utf8.DecodeLastRuneInString] sees from the end). *)
Definition spaceWidthRev (s : string) : nat :=
  match List.map code (list_ascii_of_string s) with
  | c :: rest =>
      if ((9 <=? c) && (c <=? 13) || (c =? 32))%N then 1%nat
      else match c, rest with
           | 133%N, 194%N :: _ => 2%nat
           | 160%N, 194%N :: _ => 2%nat
           | 128%N, 154%N :: 225%N :: _ => 3%nat
           | 159%N, 129%N :: 226%N :: _ => 3%nat
           | 128%N, 128%N :: 227%N :: _ => 3%nat
           | b, 128%N :: 226%N :: _ =>
               if ((128 <=? b) && (b <=? 138) || (b =? 168) || (b =? 169) || (b =? 175))%N
               then 3%nat else 0%nat
           | _, _ => 0%nat
           end
  | [] => 0%nat
  end.

(** Drop leading white-space runes; [skip] counts the bytes of the
    current rune still to drop. *)
Fixpoint trimLeftWith (width : string -> nat) (s : string) (skip : nat) : string :=
  match s with
  | EmptyString => EmptyString
  | String _ r =>
      match skip with
      | S k => trimLeftWith width r k
      | O => match width s with
             | O => s
             | S k => trimLeftWith width r k
             end
      end
  end.

Definition string_rev (s : string) : string :=
  string_of_list_ascii (List.rev (list_ascii_of_string s)).

(** [strings.TrimSpace]. *)
Definition TrimSpace (s : string) : string :=
  string_rev (trimLeftWith spaceWidthRev (string_rev (trimLeftWith spaceWidth s 0)) 0).

(** [strings.HasPrefix]. *)
Fixpoint HasPrefix (s prefix : string) : bool :=
  match prefix with
  | EmptyString => true
  | String p prefix' =>
      match s with
      | String c s' => Ascii.eqb c p && HasPrefix s' prefix'
      | EmptyString => false
      end
  end.

(** [s[n:]]. *)
Fixpoint dropBytes (n : nat) (s : string) : string :=
  match n, s with
  | S k, String _ r => dropBytes k r
  | _, _ => s
  end.

(** [strings.TrimPrefix]. *)
Definition TrimPrefix (s prefix : string) : string :=
  if HasPrefix s prefix then dropBytes (String.length prefix) s else s.

(** [strings.ReplaceAll] for one-byte [old] and [new]. *)
Fixpoint ReplaceAll (s : string) (old new : ascii) : string :=
  match s with
  | EmptyString => EmptyString
  | String c r => String (if Ascii.eqb c old then new else c) (ReplaceAll r old new)
  end.

Definition isUpper (c : ascii) : bool := ((65 <=? code c) && (code c <=? 90))%N.
Definition isLower (c : ascii) : bool := ((97 <=? code c) && (code c <=? 122))%N.

Definition swapCase (c : ascii) : ascii :=
  if isUpper c then ascii_of_N (code c + 32)
  else if isLower c then ascii_of_N (code c - 32)
  else c.

(** UTF-8 of U+017F (long s) and of U+212A (Kelvin sign). *)
Definition longS : string := String (ascii_of_N 197) (String (ascii_of_N 191) "").
Definition kelvin : string :=
  String (ascii_of_N 226) (String (ascii_of_N 132) (String (ascii_of_N 170) "")).

(** The first rune of [s] equals the ASCII character [t] under simple
    Unicode case folding; returns what follows that rune.  Beside the
    two ASCII cases, U+017F folds to [s] and U+212A to [k]. *)
Definition foldRune (t : ascii) (s : string) : option string :=
  match s with
  | EmptyString => None
  | String c r =>
      if Ascii.eqb c t || (Ascii.eqb c (swapCase t) && (isUpper t || isLower t)) then Some r
      else if ((code t =? 115) || (code t =? 83))%N && HasPrefix s longS
      then Some (dropBytes 2 s)
      else if ((code t =? 107) || (code t =? 75))%N && HasPrefix s kelvin
      then Some (dropBytes 3 s)
      else None
  end.

(** [strings.EqualFold s t] for an ASCII [t] (the program only folds
    against a literal). *)
Fixpoint EqualFold (s t : string) : bool :=
  match t with
  | EmptyString => match s with EmptyString => true | _ => false end
  | String c t' =>
      match foldRune c s with
      | Some r => EqualFold r t'
      | None => false
      end
  end.

(** [strings.Split s sep] for a one-byte separator. *)
Fixpoint splitAux (s : string) (sep : ascii) (cur : list ascii) : list string :=
  match s with
  | EmptyString => [string_of_list_ascii (List.rev cur)]
  | String c r =>
      if Ascii.eqb c sep
      then string_of_list_ascii (List.rev cur) :: splitAux r sep []
      else splitAux r sep (c :: cur)
  end.

Definition Split (s : string) (sep : ascii) : list string := splitAux s sep [].

Definition flush (cur : list ascii) (acc : list string) : list string :=
  match cur with
  | [] => acc
  | _ => string_of_list_ascii (List.rev cur) :: acc
  end.

Fixpoint fieldsAux (s : string) (skip : nat) (cur : list ascii) (acc : list string)
  : list string :=
  match s with
  | EmptyString => List.rev (flush cur acc)
  | String c r =>
      match skip with
      | S k => fieldsAux r k cur acc
      | O => match spaceWidth s with
             | O => fieldsAux r 0 (c :: cur) acc
             | S k => fieldsAux r k [] (flush cur acc)
             end
      end
  end.

(** [strings.Fields]. *)
Definition Fields (s : string) : list string := fieldsAux s 0 [] [].

(** [strings.Join]. *)
Fixpoint Join (l : list string) (sep : string) : string :=
  match l with
  | [] => ""
  | [x] => x
  | x :: r => x +:+ sep +:+ Join r sep
  end.

Definition isDigit (c : ascii) : bool := ((48 <=? code c) && (code c <=? 57))%N.

Fixpoint digits (s : string) (acc : Z) : option Z :=
  match s with
  | EmptyString => Some acc
  | String c r =>
      if isDigit c then digits r (10 * acc + Z.of_N (code c) - 48) else None
  end.

Definition unsignedDigits (s : string) : option Z :=
  match s with
  | EmptyString => None
  | _ => digits s 0
  end.

(** [strconv.ParseInt s 10 64]: an optional sign, then decimal digits,
    within the range of int64. *)
Definition ParseInt (s : string) : option Z :=
  let signed :=
    match s with
    | String "+" r => unsignedDigits r
    | String "-" r => Z.opp <$> unsignedDigits r
    | _ => unsignedDigits s
    end in
  match signed with
  | Some n => if (- 2 ^ 63 <=? n) && (n <=? 2 ^ 63 - 1) then Some n else None
  | None => None
  end.

(** The verb [%d] of package fmt. *)
Definition Itoa (n : Z) : string := pretty n.

End GoStrings.

(** ** The structured-version library (github.com/Masterminds/semver/v3)

    The comparator only needs a parser and an ordering; both belong to
    a library outside the repository, so the engine is embedded over
    this interface. *)

Module semver.

Record Lib := {
  Version : Type;
  NewVersion : string -> option Version;
  GreaterThan : Version -> Version -> bool   (* [GreaterThan a b]: a.GreaterThan(b) *)
}.

(** What the comparator relies on: a string that parses starts with a
    digit, or with the letter v. *)
Definition startsNumeric (s : string) : bool :=
  match s with
  | String c _ => GoStrings.isDigit c || Ascii.eqb c "v"
  | EmptyString => false
  end.

Definition wellFormed (L : Lib) : Prop :=
  forall s v, NewVersion L s = Some v -> startsNumeric s = true.

(** *** A reference instance *)

Record V := { Major : Z; Minor : Z; Patch : Z; Pre : string; Metadata : string }.

Fixpoint span (p : ascii -> bool) (s : string) : string * string :=
  match s with
  | EmptyString => (EmptyString, EmptyString)
  | String c r =>
      if p c then let '(a, b) := span p r in (String c a, b)
      else (EmptyString, s)
  end.

(** A run of digits that fits an unsigned 64-bit integer. *)
Definition number (s : string) : option (Z * string) :=
  let '(d, r) := span GoStrings.isDigit s in
  match GoStrings.unsignedDigits d with
  | Some n => if n <? 2 ^ 64 then Some (n, r) else None
  | None => None
  end.

Definition dotNumber (s : string) : option (Z * string) :=
  match s with
  | String "." r => number r
  | _ => None
  end.

Definition identChar (c : ascii) : bool :=
  GoStrings.isDigit c || GoStrings.isUpper c || GoStrings.isLower c || Ascii.eqb c "-".

Definition allChars (p : ascii -> bool) (s : string) : bool :=
  forallb p (list_ascii_of_string s).

Definition isNumeric (s : string) : bool :=
  allChars GoStrings.isDigit s && negb (String.eqb s "").

Definition validIdent (strict : bool) (s : string) : bool :=
  negb (String.eqb s "") && allChars identChar s &&
  negb (strict && isNumeric s && (1 <? String.length s)%nat && GoStrings.HasPrefix s "0").

Definition validIdents (strict : bool) (s : string) : bool :=
  forallb (validIdent strict) (GoStrings.Split s ".").

(** Modelled from the spec: the parser of the structured-version
    library, which is not part of the repository.  The spec asks for
    "major.minor.patch-style, semantic-versioning rules": an optional
    v, one to three dot-separated numbers, an optional -prerelease and
    an optional +metadata, each a dot-separated list of identifiers. *)
Definition parse (s : string) : option V :=
  match number (GoStrings.TrimPrefix s "v") with
  | None => None
  | Some (major, r1) =>
      let '(minor, r2) := match dotNumber r1 with Some x => x | None => (0, r1) end in
      let '(patch, r3) := match dotNumber r2 with Some x => x | None => (0, r2) end in
      let '(pre, r4) :=
        match r3 with
        | String "-" r => span (fun c => negb (Ascii.eqb c "+")) r
        | _ => (EmptyString, r3)
        end in
      let hasPre := match r3 with String "-" _ => true | _ => false end in
      let meta := match r4 with String "+" r => r | _ => EmptyString end in
      let hasMeta := match r4 with String "+" _ => true | _ => false end in
      let rest := match r4 with String "+" _ => EmptyString | _ => r4 end in
      if String.eqb rest "" && (negb hasPre || validIdents true pre)
         && (negb hasMeta || validIdents false meta)
      then Some {| Major := major; Minor := minor; Patch := patch;
                   Pre := pre; Metadata := meta |}
      else None
  end.

Definition thenCmp (a b : comparison) : comparison :=
  match a with Eq => b | _ => a end.

Definition compareIdent (a b : string) : comparison :=
  match isNumeric a, isNumeric b with
  | true, true =>
      match GoStrings.unsignedDigits a, GoStrings.unsignedDigits b with
      | Some x, Some y => Z.compare x y
      | _, _ => Eq
      end
  | true, false => Lt
  | false, true => Gt
  | false, false => String.compare a b
  end.

Fixpoint compareIdents (a b : list string) : comparison :=
  match a, b with
  | [], [] => Eq
  | [], _ :: _ => Lt
  | _ :: _, [] => Gt
  | x :: a', y :: b' => thenCmp (compareIdent x y) (compareIdents a' b')
  end.

(** A version without prerelease is above the same version with one. *)
Definition comparePre (a b : string) : comparison :=
  match String.eqb a "", String.eqb b "" with
  | true, true => Eq
  | true, false => Gt
  | false, true => Lt
  | false, false => compareIdents (GoStrings.Split a ".") (GoStrings.Split b ".")
  end.

Definition compare (a b : V) : comparison :=
  thenCmp (Z.compare (Major a) (Major b))
    (thenCmp (Z.compare (Minor a) (Minor b))
       (thenCmp (Z.compare (Patch a) (Patch b))
          (comparePre (Pre a) (Pre b)))).

Definition greater (a b : V) : bool :=
  match compare a b with Gt => true | _ => false end.

Definition reference : Lib :=
  {| Version := V; NewVersion := parse; GreaterThan := greater |}.

End semver.

(** ** Package config *)

Module config.

Definition DefaultIntervalMin : Z := 5.
Definition MinIntervalMin : Z := 1.
Definition MaxIntervalMin : Z := 1440.

(** [Typ] is the field [Type] of the source; instants ([time.Time])
    are nanoseconds since the Unix epoch. *)
Record WatchItem := {
  Name : string;
  Typ : string;
  Policy : string;
  IntervalMin : Z;
  AddedAt : Z
}.

Record Config := {
  Version : Z;
  TickIntervalSec : Z;
  DefaultPolicy : string;
  NotifyMethod : string;
  IncludeAutoUpdateCask : bool;
  Watchlist : list WatchItem
}.

Record State := {
  LastCheckAt : option Z;
  LastUpdateAt : option Z;
  LastVersions : gmap string string;
  LastSchemes : gmap string Z;
  ETagCache : gmap string string;
  LastErrors : list string;
  NextCheckAt : gmap string string
}.

Definition DefaultState : State :=
  {| LastCheckAt := None; LastUpdateAt := None; LastVersions := ∅;
     LastSchemes := ∅; ETagCache := ∅; LastErrors := []; NextCheckAt := ∅ |}.

Definition WatchKey (name typ : string) : string :=
  if String.eqb typ "" then name else typ +:+ ":" +:+ name.

(** [None] is a nil error, [Some] the error [ErrInvalidInterval]. *)
Definition ValidateInterval (min : Z) : option string :=
  if (min <? MinIntervalMin) || (MaxIntervalMin <? min)
  then Some "invalid interval" else None.

End config.

(** ** Package brew: the package-manager wrapper

    The brew executable is the outside world: [command] gives, for an
    argument list, what the subprocess prints and how it exits. *)

Module brew.

Record CmdResult := {
  stdout : string;
  stderr : string;
  exitErr : option string      (* the error of [cmd.Run], [None] on exit 0 *)
}.

Record Host := {
  brewPath : option string;    (* [exec.LookPath "brew"] *)
  command : list string -> CmdResult
}.

Definition newline : ascii := "010".

Definition run (h : Host) (args : list string) (verbose : bool) : string * option string :=
  match brewPath h with
  | None => ("", Some "brew not found")
  | Some _ =>
      let r := command h args in
      match exitErr r with
      | Some e =>
          (stdout r,
           Some ("brew " +:+ GoStrings.Join args " " +:+ " failed: " +:+ e +:+ ": "
                 +:+ GoStrings.TrimSpace (stderr r)))
      | None =>
          if verbose && negb (String.eqb (stderr r) "")
          then (stdout r +:+ String newline "" +:+ stderr r, None)
          else (stdout r, None)
      end
  end.

Definition parseOutdated (out : string) : list string :=
  let lines := GoStrings.Split (GoStrings.TrimSpace out) newline in
  List.fold_left
    (fun (result : list string) line =>
       let line := GoStrings.TrimSpace line in
       if String.eqb line "" then result
       else match GoStrings.Fields line with
            | [] => result
            | f :: _ => (result ++ [f])%list
            end)
    lines [].

Definition listVersions (h : Host) (args : list string) : gmap string string + string :=
  match run h args false with
  | (_, Some e) => inr e
  | (out, None) =>
      let lines := GoStrings.Split (GoStrings.TrimSpace out) newline in
      inl (List.fold_left
             (fun (result : gmap string string) line =>
                let line := GoStrings.TrimSpace line in
                if String.eqb line "" then result
                else match GoStrings.Fields line with
                     | name :: version :: _ => <[name := version]> result
                     | _ => result
                     end)
             lines ∅)
  end.

Definition ListInstalled (h : Host)
  : (gmap string string * gmap string string) + string :=
  match listVersions h ["list"; "--versions"] with
  | inr e => inr e
  | inl formulae =>
      match listVersions h ["list"; "--cask"; "--versions"] with
      | inr e => inr e
      | inl casks => inl (formulae, casks)
      end
  end.

Definition Update (h : Host) (verbose : bool) : option string :=
  snd (run h ["update"] verbose).

Definition UpgradeFormula (h : Host) (names : list string) (verbose : bool)
  : option string :=
  match names with
  | [] => None
  | _ => snd (run h ("upgrade" :: names) verbose)
  end.

Definition UpgradeCask (h : Host) (names : list string)
    (includeAutoUpdate verbose : bool) : option string :=
  match names with
  | [] => None
  | _ =>
      let args := ["upgrade"; "--cask"] in
      let args := if includeAutoUpdate then (args ++ ["--greedy"])%list else args in
      snd (run h (args ++ names)%list verbose)
  end.

Definition OutdatedFormula (h : Host) (names : list string) : list string + string :=
  match names with
  | [] => inl []
  | _ =>
      match run h (["outdated"; "--quiet"; "--formula"] ++ names)%list false with
      | (_, Some e) => inr e
      | (out, None) => inl (parseOutdated out)
      end
  end.

Definition OutdatedCask (h : Host) (names : list string) (includeAutoUpdate : bool)
  : list string + string :=
  match names with
  | [] => inl []
  | _ =>
      let args := ["outdated"; "--quiet"; "--cask"] in
      let args := if includeAutoUpdate then (args ++ ["--greedy"])%list else args in
      match run h (args ++ names)%list false with
      | (_, Some e) => inr e
      | (out, None) => inl (parseOutdated out)
      end
  end.

End brew.

(** ** Package api: the metadata fetcher, seen from the engine *)

Module api.
Import config.

Definition baseURL : string := "https://formulae.brew.sh/api".

Record Latest := { LatestVersion : string; Scheme : Z }.

(** What [Client.FetchLatest] returns: the metadata, the new freshness
    token, the not-modified flag and the error. *)
Record Fetched := {
  latest : Latest;
  newETag : string;
  notModified : bool;
  fetchErr : option string
}.

Definition buildURL (item : WatchItem) : string :=
  if String.eqb (Typ item) "cask"
  then baseURL +:+ "/cask/" +:+ Name item +:+ ".json"
  else baseURL +:+ "/formula/" +:+ Name item +:+ ".json".

Definition URLFor (item : WatchItem) : string := buildURL item.

End api.

(** ** Package time: what the engine uses of it

    Instants are nanoseconds since the Unix epoch; the RFC 3339 layout
    is the library's and stays a parameter. *)

Module gotime.

Record Layout := {
  Format : Z -> string;          (* [t.Format(time.RFC3339)] *)
  Parse : string -> option Z     (* [time.Parse(time.RFC3339, s)], [None] on error *)
}.

Definition Second : Z := 1000000000.
Definition Minute : Z := 60 * Second.

(** Two's-complement wrap-around of int64 arithmetic. *)
Definition wrap64 (z : Z) : Z := (z + 2 ^ 63) mod 2 ^ 64 - 2 ^ 63.

Definition maxDuration : Z := 2 ^ 63 - 1.
Definition minDuration : Z := - 2 ^ 63.

(** [t.Sub(u)]: the difference, saturated to the range of Duration. *)
Definition Sub (t u : Z) : Z := Z.max minDuration (Z.min maxDuration (t - u)).

Definition Before (t u : Z) : bool := t <? u.

Definition Unix (sec : Z) : Z := sec * Second.

Definition toUnix (t : Z) : Z := t / Second.

(** A layout of second resolution, like RFC 3339 without fractional
    seconds, that writes an instant as its Unix seconds in decimal;
    it serves to evaluate runs on concrete inputs. *)
Definition unixLayout : Layout :=
  {| Format := fun t => GoStrings.Itoa (toUnix t);
     Parse := fun s => Unix <$> GoStrings.ParseInt s |}.

End gotime.

(** ** Package check: the comparator and the reconciliation engine *)

Module check.
Import config.

Definition normalizeVersion (v : string) : string :=
  let v := GoStrings.TrimSpace v in
  let v := GoStrings.TrimPrefix v "v" in
  let v := GoStrings.ReplaceAll v "_" "." in
  let v := GoStrings.ReplaceAll v "," "." in
  v.

Definition isLatest (v : string) : bool :=
  GoStrings.EqualFold (GoStrings.TrimSpace v) "latest".

Definition isOutdated (sv : semver.Lib) (installed latest : string)
    (scheme prevScheme : Z) : bool :=
  if String.eqb installed "" || String.eqb latest "" then false
  else if isLatest installed || isLatest latest then false
  else if (prevScheme <? scheme) && negb (String.eqb installed latest) then true
  else
    let inst := normalizeVersion installed in
    let lat := normalizeVersion latest in
    match semver.NewVersion sv inst, semver.NewVersion sv lat with
    | Some iv, Some lv => semver.GreaterThan sv lv iv
    | _, _ => negb (String.eqb installed latest)
    end.

Record Options := {
  DryRun : bool;
  ForceUpdate : bool;
  NotifyOnly : bool;
  Verbose : bool
}.

Record OutdatedItem := {
  Item : WatchItem;
  Installed : string;
  Latest : string
}.

Record Result := {
  Checked : Z;
  CheckedNames : list string;
  Outdated : list OutdatedItem;
  Removed : list WatchItem;
  Errors : list string
}.

Record fetchResult := {
  item : WatchItem;
  latest : string;
  scheme : Z;
  etag : string;
  notModified : bool;
  err : option string
}.

(** Calls that leave the engine, in program order, with what came back.
    [EvNotify] is a call of [Notifier.Notify] on a notifier of the
    given method. *)
Inductive Event :=
| EvUpdate (e : option string)
| EvOutdatedFormula (names : list string) (r : list string + string)
| EvOutdatedCask (names : list string) (greedy : bool) (r : list string + string)
| EvUpgradeFormula (names : list string) (e : option string)
| EvUpgradeCask (names : list string) (greedy : bool) (e : option string)
| EvNotify (method title message execute : string).

(** The world of one run: the brew executable, the metadata API as
    [Client.FetchLatest], the order in which the workers of
    [fetchLatest] hand in their results, and the clock readings. *)
Record Env := {
  host : brew.Host;
  fetch : WatchItem -> string -> api.Fetched;
  arrival : list nat;
  now : Z;
  nowUpdate : Z;
  nowCheck : Z
}.

(** What [Run] returns, and the calls it made. *)
Record Outcome := {
  oRes : Result;
  oCfg : Config;
  oSt : State;
  oErr : option string;
  oTrace : list Event
}.

(** *** Field updates *)

Definition withTyp (it : WatchItem) (typ : string) : WatchItem :=
  {| Name := Name it; Typ := typ; Policy := Policy it;
     IntervalMin := IntervalMin it; AddedAt := AddedAt it |}.

Definition withIntervalMin (it : WatchItem) (n : Z) : WatchItem :=
  {| Name := Name it; Typ := Typ it; Policy := Policy it;
     IntervalMin := n; AddedAt := AddedAt it |}.

Definition withWatchlist (cfg : Config) (l : list WatchItem) : Config :=
  {| Version := Version cfg; TickIntervalSec := TickIntervalSec cfg;
     DefaultPolicy := DefaultPolicy cfg; NotifyMethod := NotifyMethod cfg;
     IncludeAutoUpdateCask := IncludeAutoUpdateCask cfg; Watchlist := l |}.

Definition onNextCheckAt (f : gmap string string -> gmap string string) (st : State) : State :=
  {| LastCheckAt := LastCheckAt st; LastUpdateAt := LastUpdateAt st;
     LastVersions := LastVersions st; LastSchemes := LastSchemes st;
     ETagCache := ETagCache st; LastErrors := LastErrors st;
     NextCheckAt := f (NextCheckAt st) |}.

Definition onLastVersions (f : gmap string string -> gmap string string) (st : State) : State :=
  {| LastCheckAt := LastCheckAt st; LastUpdateAt := LastUpdateAt st;
     LastVersions := f (LastVersions st); LastSchemes := LastSchemes st;
     ETagCache := ETagCache st; LastErrors := LastErrors st;
     NextCheckAt := NextCheckAt st |}.

Definition onLastSchemes (f : gmap string Z -> gmap string Z) (st : State) : State :=
  {| LastCheckAt := LastCheckAt st; LastUpdateAt := LastUpdateAt st;
     LastVersions := LastVersions st; LastSchemes := f (LastSchemes st);
     ETagCache := ETagCache st; LastErrors := LastErrors st;
     NextCheckAt := NextCheckAt st |}.

Definition onETagCache (f : gmap string string -> gmap string string) (st : State) : State :=
  {| LastCheckAt := LastCheckAt st; LastUpdateAt := LastUpdateAt st;
     LastVersions := LastVersions st; LastSchemes := LastSchemes st;
     ETagCache := f (ETagCache st); LastErrors := LastErrors st;
     NextCheckAt := NextCheckAt st |}.

Definition withLastErrors (st : State) (l : list string) : State :=
  {| LastCheckAt := LastCheckAt st; LastUpdateAt := LastUpdateAt st;
     LastVersions := LastVersions st; LastSchemes := LastSchemes st;
     ETagCache := ETagCache st; LastErrors := l;
     NextCheckAt := NextCheckAt st |}.

Definition withLastCheckAt (st : State) (t : Z) : State :=
  {| LastCheckAt := Some t; LastUpdateAt := LastUpdateAt st;
     LastVersions := LastVersions st; LastSchemes := LastSchemes st;
     ETagCache := ETagCache st; LastErrors := LastErrors st;
     NextCheckAt := NextCheckAt st |}.

Definition withLastUpdateAt (st : State) (t : Z) : State :=
  {| LastCheckAt := LastCheckAt st; LastUpdateAt := Some t;
     LastVersions := LastVersions st; LastSchemes := LastSchemes st;
     ETagCache := ETagCache st; LastErrors := LastErrors st;
     NextCheckAt := NextCheckAt st |}.

Definition withOutdated (res : Result) (l : list OutdatedItem) : Result :=
  {| Checked := Checked res; CheckedNames := CheckedNames res; Outdated := l;
     Removed := Removed res; Errors := Errors res |}.

(** *** Helpers of [Run] *)

Definition keyOf (it : WatchItem) : string := WatchKey (Name it) (Typ it).

(** [sort.Strings]: ascending byte-wise order. *)
Fixpoint insertSorted (x : string) (l : list string) : list string :=
  match l with
  | [] => [x]
  | y :: r => if String.leb x y then x :: l else y :: insertSorted x r
  end.

Definition sortStrings (l : list string) : list string :=
  List.fold_right insertSorted [] l.

Definition appendError (st : State) (msg : string) : State :=
  let errs := (LastErrors st ++ [msg])%list in
  withLastErrors st
    (if (20 <? length errs)%nat then drop (length errs - 20) errs else errs).

Definition namesFromItems (items : list WatchItem) : list string :=
  sortStrings (List.map Name items).

Definition installedVersion (formulae casks : gmap string string) (it : WatchItem)
  : string * string * bool :=
  if String.eqb (Typ it) "cask"
  then (default "" (casks !! Name it), "cask", bool_decide (is_Some (casks !! Name it)))
  else if String.eqb (Typ it) "formula"
  then (default "" (formulae !! Name it), "formula", bool_decide (is_Some (formulae !! Name it)))
  else match formulae !! Name it with
       | Some v => (v, "formula", true)
       | None =>
           match casks !! Name it with
           | Some v => (v, "cask", true)
           | None => ("", "", false)
           end
       end.

(** One map of [normalizeStateKeys]: file the bare-name entry under the
    composite key unless that key is taken. *)
Definition copyForward {V : Type} (name key : string) (m : gmap string V) : gmap string V :=
  match m !! name with
  | Some v => match m !! key with
              | Some _ => m
              | None => <[key := v]> m
              end
  | None => m
  end.

Definition normalizeItem (st : State) (it : WatchItem) : State :=
  let key := keyOf it in
  if String.eqb key (Name it) then st
  else
    let st := onNextCheckAt (copyForward (Name it) key) st in
    let st := onLastVersions (copyForward (Name it) key) st in
    let st := onLastSchemes (copyForward (Name it) key) st in
    st.

Definition normalizeStateKeys (cfg : Config) (st : State) : State :=
  List.fold_left normalizeItem (Watchlist cfg) st.

(** The set [watched] of [cleanupStateKeys]. *)
Definition watchedKeys (l : list WatchItem) : gset string :=
  List.fold_left (fun (w : gset string) it => {[Name it]} ∪ ({[keyOf it]} ∪ w)) l ∅.

Definition keepWatched {V : Type} (watched : gset string) (m : gmap string V)
  : gmap string V :=
  filter (fun kv => kv.1 ∈ watched) m.

Definition cleanupStateKeys (cfg : Config) (st : State) : State :=
  let watched := watchedKeys (Watchlist cfg) in
  let st := onNextCheckAt (keepWatched watched) st in
  let st := onLastVersions (keepWatched watched) st in
  let st := onLastSchemes (keepWatched watched) st in
  st.

(** The loop "remove missing" of [Run]; the accumulator holds
    [res.Removed], the state, the map [installed] and [filtered]. *)
Definition pruneStep (formulae casks : gmap string string)
    (acc : list WatchItem * State * gmap string string * list WatchItem)
    (it : WatchItem)
  : list WatchItem * State * gmap string string * list WatchItem :=
  let '(removed, st, installed, filtered) := acc in
  let '(version, typ, ok) := installedVersion formulae casks it in
  if negb ok then
    let st := onNextCheckAt (delete (keyOf it)) st in
    let st := onLastVersions (delete (keyOf it)) st in
    let st := onNextCheckAt (delete (Name it)) st in
    let st := onLastVersions (delete (Name it)) st in
    ((removed ++ [it])%list, st, installed, filtered)
  else
    let it := withTyp it typ in
    (removed, st, <[keyOf it := version]> installed, (filtered ++ [it])%list).

Section WithLayout.
Context (tf : gotime.Layout).

(** The item as the loop of [dueItems] holds it. *)
Definition dueCopy (it : WatchItem) : WatchItem :=
  if IntervalMin it =? 0 then withIntervalMin it DefaultIntervalMin else it.

Definition nextCheckOf (st : State) (it : WatchItem) : option string :=
  match NextCheckAt st !! keyOf it with
  | Some s => Some s
  | None =>
      if negb (String.eqb (keyOf it) (Name it)) then NextCheckAt st !! Name it else None
  end.

Definition isDue (st : State) (now : Z) (it : WatchItem) : bool :=
  match nextCheckOf st it with
  | None => true
  | Some nextStr =>
      if String.eqb nextStr "" then true
      else match gotime.Parse tf nextStr with
           | None => true
           | Some nextTime => negb (gotime.Before now nextTime)
           end
  end.

Definition dueItems (cfg : Config) (st : State) (now : Z) : list WatchItem :=
  List.filter (isDue st now) (List.map dueCopy (Watchlist cfg)).

(** One result of the fetch phase: what a worker of [fetchLatest]
    sends for [it]. *)
Definition fetchOne (env : Env) (st : State) (it : WatchItem) : fetchResult :=
  let url := api.URLFor it in
  let tag := default "" (ETagCache st !! url) in
  let f := fetch env it tag in
  {| item := it;
     latest := api.LatestVersion (api.latest f);
     scheme := api.Scheme (api.latest f);
     etag := api.newETag f;
     notModified := api.notModified f;
     err := api.fetchErr f |}.

(** The results reach the collector in any order: each pick takes
    one of the results not yet handed in. *)
Fixpoint deliver {A : Type} (picks : list nat) (l : list A) : list A :=
  match picks with
  | [] => l
  | p :: ps =>
      match l !! (p mod length l)%nat with
      | Some x => x :: deliver ps (delete (p mod length l)%nat l)
      | None => l
      end
  end.

Definition fetchLatest (env : Env) (items : list WatchItem) (st : State)
  : list fetchResult :=
  deliver (arrival env) (List.map (fetchOne env st) items).

Definition nextCheckString (now : Z) (it : WatchItem) : string :=
  gotime.Format tf (now + gotime.wrap64 (IntervalMin it * gotime.Minute)).

(** The body of the loop over the fetch results. *)
Definition reconcileStep (sv : semver.Lib) (now : Z) (installed : gmap string string)
    (acc : State * list OutdatedItem) (r : fetchResult)
  : State * list OutdatedItem :=
  let '(st, outdated) := acc in
  match err r with
  | Some e => (appendError st (Name (item r) +:+ ": " +:+ e), outdated)
  | None =>
      let url := api.URLFor (item r) in
      let key := keyOf (item r) in
      let bare := Name (item r) in
      let prevScheme := default 0 (LastSchemes st !! key) in
      let '(st, rlatest, rscheme) :=
        if notModified r then
          let l := match LastVersions st !! key with
                   | Some last => last
                   | None => default (latest r) (LastVersions st !! bare)
                   end in
          let s := match LastSchemes st !! key with
                   | Some sc => sc
                   | None => default (scheme r) (LastSchemes st !! bare)
                   end in
          (st, l, s)
        else
          let st := if negb (String.eqb (etag r) "")
                    then onETagCache <[url := etag r]> st else st in
          let st := if negb (String.eqb (latest r) "")
                    then
                      let st := onLastVersions <[key := latest r]> st in
                      if negb (String.eqb key bare)
                      then onLastVersions (delete bare) st else st
                    else st in
          let st := onLastSchemes <[key := scheme r]> st in
          let st := if negb (String.eqb key bare)
                    then onLastSchemes (delete bare) st else st in
          (st, latest r, scheme r) in
      let installedVersion := default "" (installed !! key) in
      let outdated :=
        if isOutdated sv installedVersion rlatest rscheme prevScheme
        then (outdated ++ [{| Item := item r; Installed := installedVersion;
                              Latest := rlatest |}])%list
        else outdated in
      let st := onNextCheckAt <[key := nextCheckString now (item r)]> st in
      let st := if negb (String.eqb key bare)
                then onNextCheckAt (delete bare) st else st in
      (st, outdated)
  end.

Definition effectivePolicy (cfg : Config) (it : WatchItem) : string :=
  if String.eqb (Policy it) "" then DefaultPolicy cfg else Policy it.

Definition splitByType (outdated : list OutdatedItem) (cfg : Config)
  : list string * list string :=
  let '(formulae, casks) :=
    List.fold_left
      (fun (acc : list string * list string) o =>
         let '(formulae, casks) := acc in
         if negb (String.eqb (effectivePolicy cfg (Item o)) "auto") then acc
         else if String.eqb (Typ (Item o)) "cask"
              then (formulae, (casks ++ [Name (Item o)])%list)
              else ((formulae ++ [Name (Item o)])%list, casks))
      outdated ([], []) in
  (sortStrings formulae, sortStrings casks).

(** The call of [n.Notify] in the loop of [notifyUpdates]. *)
Definition notice (cfg : Config) (o : OutdatedItem) : Event :=
  EvNotify (NotifyMethod cfg) "brew-updater"
    (Name (Item o) +:+ " " +:+ Installed o +:+ " → " +:+ Latest o)
    ("brew-updater upgrade " +:+ Name (Item o)).

Definition notifyUpdates (cfg : Config) (items : list OutdatedItem)
    (action : string) (forceAll : bool) : list Event :=
  List.fold_left
    (fun (tr : list Event) o =>
       if forceAll || String.eqb (effectivePolicy cfg (Item o)) "notify"
          || String.eqb action "Updated"
       then (tr ++ [notice cfg o])%list
       else tr)
    items [].

Definition notifyFailure (cfg : Config) (title e : string) : Event :=
  EvNotify (NotifyMethod cfg) "brew-updater failed"
    (title +:+ ": " +:+ GoStrings.TrimSpace e) "brew-updater status".

Definition filterOutdated (items : list OutdatedItem) (formulas casks : list string)
  : list OutdatedItem :=
  match items with
  | [] => items
  | _ =>
      let allowed : gset string :=
        List.fold_left (fun (a : gset string) name => {["formula:" +:+ name]} ∪ a)
          formulas ∅ in
      let allowed : gset string :=
        List.fold_left (fun (a : gset string) name => {["cask:" +:+ name]} ∪ a)
          casks allowed in
      List.filter (fun o => bool_decide (keyOf (Item o) ∈ allowed)) items
  end.

(** [st.LastCheckAt = ptrTime(now); return res, cfg, st, nil]. *)
Definition stamped (res : Result) (cfg : Config) (st : State) (now : Z)
    (tr : list Event) : Outcome :=
  Build_Outcome res cfg (withLastCheckAt st now) None tr.

(** The block taken when [brew.Update] fails, at either of its two
    places. *)
Definition updateFailed (res : Result) (cfg : Config) (st : State) (now : Z)
    (tr : list Event) (e : string) : Outcome :=
  let st := appendError st ("brew update failed: " +:+ e) in
  let tr := (tr ++ [EvUpdate (Some e); notifyFailure cfg "brew update failed" e])%list in
  stamped res cfg st now tr.

(** Re-verification of the formula names against [brew outdated]. *)
Definition verifyFormula (h : brew.Host) (toUpgradeFormula : list string)
    (st : State) (tr : list Event) : list string * State * list Event :=
  match toUpgradeFormula with
  | [] => (toUpgradeFormula, st, tr)
  | _ =>
      let r := brew.OutdatedFormula h toUpgradeFormula in
      let tr := (tr ++ [EvOutdatedFormula toUpgradeFormula r])%list in
      match r with
      | inl names => (names, st, tr)
      | inr e =>
          (toUpgradeFormula, appendError st ("brew outdated formula failed: " +:+ e), tr)
      end
  end.

Definition verifyCask (h : brew.Host) (toUpgradeCask : list string) (greedy : bool)
    (st : State) (tr : list Event) : list string * State * list Event :=
  match toUpgradeCask with
  | [] => (toUpgradeCask, st, tr)
  | _ =>
      let r := brew.OutdatedCask h toUpgradeCask greedy in
      let tr := (tr ++ [EvOutdatedCask toUpgradeCask greedy r])%list in
      match r with
      | inl names => (names, st, tr)
      | inr e =>
          (toUpgradeCask, appendError st ("brew outdated cask failed: " +:+ e), tr)
      end
  end.

(** The two upgrade calls, the stamps and the final notifications. *)
Definition upgrade (env : Env) (cfg : Config) (st : State) (opts : Options)
    (res : Result) (outdated : list OutdatedItem)
    (toUpgradeFormula toUpgradeCask : list string) (tr : list Event) : Outcome :=
  let h := host env in
  let greedy := IncludeAutoUpdateCask cfg in
  let res := withOutdated res (filterOutdated outdated toUpgradeFormula toUpgradeCask) in
  let e1 := brew.UpgradeFormula h toUpgradeFormula (Verbose opts) in
  let tr := (tr ++ [EvUpgradeFormula toUpgradeFormula e1])%list in
  let '(st, tr) :=
    match e1 with
    | Some e =>
        (appendError st ("formula upgrade failed: " +:+ e),
         (tr ++ [notifyFailure cfg "formula upgrade failed" e])%list)
    | None => (st, tr)
    end in
  let e2 := brew.UpgradeCask h toUpgradeCask greedy (Verbose opts) in
  let tr := (tr ++ [EvUpgradeCask toUpgradeCask greedy e2])%list in
  let '(st, tr) :=
    match e2 with
    | Some e =>
        (appendError st ("cask upgrade failed: " +:+ e),
         (tr ++ [notifyFailure cfg "cask upgrade failed" e])%list)
    | None => (st, tr)
    end in
  let st := withLastUpdateAt st (nowUpdate env) in
  let st := withLastCheckAt st (nowCheck env) in
  let tr := (tr ++ notifyUpdates cfg outdated "Updated" false)%list in
  Build_Outcome res cfg st None tr.

(** From the second [brew.Update] on: refresh unless done, split by
    policy and kind, re-verify, upgrade. *)
Definition refreshAndUpgrade (env : Env) (cfg : Config) (st : State) (opts : Options)
    (res : Result) (outdated : list OutdatedItem) (updated : bool)
    (tr : list Event) : Outcome :=
  let h := host env in
  match (if negb updated then brew.Update h (Verbose opts) else None) with
  | Some e => updateFailed res cfg st (now env) tr e
  | None =>
      let tr := if negb updated then (tr ++ [EvUpdate None])%list else tr in
      let '(toUpgradeFormula, toUpgradeCask) := splitByType outdated cfg in
      let '(toUpgradeFormula, st, tr) := verifyFormula h toUpgradeFormula st tr in
      let '(toUpgradeCask, st, tr) :=
        verifyCask h toUpgradeCask (IncludeAutoUpdateCask cfg) st tr in
      match toUpgradeFormula, toUpgradeCask with
      | [], [] => stamped res cfg st (now env) tr
      | _, _ => upgrade env cfg st opts res outdated toUpgradeFormula toUpgradeCask tr
      end
  end.

(** The tail of [Run] after the fetch results are reconciled: the
    action dispatch. *)
Definition dispatch (env : Env) (cfg : Config) (st : State) (opts : Options)
    (res : Result) (outdated : list OutdatedItem) : Outcome :=
  let forced := ForceUpdate opts && negb (DryRun opts) && negb (NotifyOnly opts) in
  match (if forced then brew.Update (host env) (Verbose opts) else None) with
  | Some e => updateFailed res cfg st (now env) [] e
  | None =>
      let updated := forced in
      let tr := if forced then [EvUpdate None] else [] in
      match outdated with
      | [] => stamped res cfg st (now env) tr
      | _ =>
          if DryRun opts || NotifyOnly opts then
            stamped res cfg st (now env)
              (tr ++ notifyUpdates cfg outdated "Update available" true)%list
          else refreshAndUpgrade env cfg st opts res outdated updated tr
      end
  end.

Definition emptyResult : Result :=
  {| Checked := 0; CheckedNames := []; Outdated := []; Removed := []; Errors := [] |}.

(** The state and the watchlist once the installed snapshot is taken:
    key migration, pruning of missing packages, orphan collection. *)
Definition prepare (formulae casks : gmap string string) (cfg : Config) (st : State)
  : list WatchItem * Config * State * gmap string string :=
  let st := normalizeStateKeys cfg st in
  let '(removed, st, installed, filtered) :=
    List.fold_left (pruneStep formulae casks) (Watchlist cfg) ([], st, ∅, []) in
  let cfg := withWatchlist cfg filtered in
  let st := cleanupStateKeys cfg st in
  (removed, cfg, st, installed).

(** The list [outdated] that [Run] has built when it reaches the
    action dispatch (empty when it returns before). *)
Definition runOutdated (sv : semver.Lib) (env : Env) (cfg : Config) (st : State)
  : list OutdatedItem :=
  match brew.ListInstalled (host env) with
  | inr _ => []
  | inl (formulae, casks) =>
      let '(_, cfg, st, installed) := prepare formulae casks cfg st in
      let due := dueItems cfg st (now env) in
      snd (List.fold_left (reconcileStep sv (now env) installed)
             (fetchLatest env due st) (st, []))
  end.

Definition Run (sv : semver.Lib) (env : Env) (cfg : Config) (st : State) (opts : Options)
  : Outcome :=
  match brew.ListInstalled (host env) with
  | inr e => Build_Outcome emptyResult cfg st (Some e) []
  | inl (formulae, casks) =>
      let '(removed, cfg, st, installed) := prepare formulae casks cfg st in
      let now := now env in
      let due := dueItems cfg st now in
      let res := {| Checked := Z.of_nat (length due);
                    CheckedNames := namesFromItems due;
                    Outdated := []; Removed := removed; Errors := [] |} in
      match due with
      | [] => Build_Outcome res cfg (withLastCheckAt st now) None []
      | _ =>
          let results := fetchLatest env due st in
          let '(st, outdated) :=
            List.fold_left (reconcileStep sv now installed) results (st, []) in
          let res := withOutdated res outdated in
          dispatch env cfg st opts res outdated
      end
  end.

End WithLayout.

(** *** Vocabulary of the properties *)

Definition isNotify (ev : Event) : bool :=
  match ev with EvNotify _ _ _ _ => true | _ => false end.

Definition isUpgrade (ev : Event) : bool :=
  match ev with
  | EvUpgradeFormula _ _ | EvUpgradeCask _ _ _ => true
  | _ => false
  end.

(** The outdated items [splitByType] files under a kind. *)
Definition autoItem (cfg : Config) (cask : bool) (o : OutdatedItem) : bool :=
  String.eqb (effectivePolicy cfg (Item o)) "auto"
  && Bool.eqb (String.eqb (Typ (Item o)) "cask") cask.

(** The per-item maps of two states agree. *)
Definition sameMaps (st st' : State) : Prop :=
  NextCheckAt st' = NextCheckAt st /\ LastVersions st' = LastVersions st
  /\ LastSchemes st' = LastSchemes st.

(** Every key of the per-item maps belongs to the set. *)
Definition tracked (w : gset string) (st : State) : Prop :=
  forall k : string,
    is_Some (NextCheckAt st !! k) \/ is_Some (LastVersions st !! k)
    \/ is_Some (LastSchemes st !! k) ->
    k ∈ w.

(** The due list of a run, and what its fetch phase returns for an item
    (the values of [due] and of the worker's result in [Run]). *)
Definition runDue (tf : gotime.Layout) (env : Env) (cfg : Config) (st : State)
  : list WatchItem :=
  match brew.ListInstalled (host env) with
  | inr _ => []
  | inl (formulae, casks) =>
      let '(_, cfg, st, _) := prepare formulae casks cfg st in
      dueItems tf cfg st (now env)
  end.

Definition runFetch (env : Env) (cfg : Config) (st : State) (it : WatchItem)
  : option fetchResult :=
  match brew.ListInstalled (host env) with
  | inr _ => None
  | inl (formulae, casks) =>
      let '(_, _, st, _) := prepare formulae casks cfg st in
      Some (fetchOne env st it)
  end.

(** [msg] is among the last [k] entries of the error ring. *)
Definition recent (k : nat) (msg : string) (st : State) : Prop :=
  exists pre suf, LastErrors st = (pre ++ msg :: suf)%list /\ (length suf < k)%nat.

(** What the engine asks of [brew outdated]: it reports no name it
    was not asked about. *)
Definition reportsAsked (h : brew.Host) : Prop :=
  forall names : list string,
    (forall r, brew.OutdatedFormula h names = inl r -> incl r names)
    /\ (forall greedy r, brew.OutdatedCask h names greedy = inl r -> incl r names).

End check.

(** ** Package lock: the process lock *)

Module lock.

(** The lock file as [Acquire] can find it: missing, present with some
    content, present but unreadable, or in a place where it cannot be
    created. *)
Inductive LockFile :=
| Absent
| Present (data : string)
| Unreadable (e : string)
| Uncreatable (e : string).

(** The process and its surroundings: its id, which process ids are
    alive ([pidAlive]), and the clock, read once per use. *)
Record Sys := {
  pid : Z;
  alive : Z -> bool;
  clock : nat -> Z
}.

(** The file and the number of clock readings made so far. *)
Record World := {
  file : LockFile;
  ticks : nat
}.

Record Lock := { path : string }.

(** [isStale] up to the clock: the recorded owner and creation time,
    [None] for malformed content. *)
Definition parseLock (data : string) : option (Z * Z) :=
  match GoStrings.Split data "|" with
  | [p0; p1] =>
      match GoStrings.ParseInt (GoStrings.TrimSpace p0) with
      | None => None
      | Some owner =>
          match GoStrings.ParseInt (GoStrings.TrimSpace p1) with
          | None => None
          | Some ts => Some (owner, ts)
          end
      end
  | _ => None
  end.

(** [time.Since(time.Unix(ts, 0))] when the clock shows [t]. *)
Definition Since (t ts : Z) : Z := gotime.Sub t (gotime.Unix ts).

Definition isStale (sys : Sys) (w : World) (timeout : Z) : (bool + string) * World :=
  match file w with
  | Present data =>
      match parseLock data with
      | None => (inl true, w)
      | Some (owner, ts) =>
          if negb (alive sys owner) then (inl true, w)
          else (inl (timeout <? Since (clock sys (ticks w)) ts),
                {| file := file w; ticks := S (ticks w) |})
      end
  | Unreadable e => (inr e, w)
  | Absent => (inr "no such file or directory", w)
  | Uncreatable e => (inr e, w)
  end.

Definition freshContent (sys : Sys) (t : Z) : string :=
  GoStrings.Itoa (pid sys) +:+ "|" +:+ GoStrings.Itoa (gotime.toUnix t).

(** [Acquire]; [fuel] bounds the iterations of its loop, [None] means
    the bound was reached. *)
Fixpoint Acquire (fuel : nat) (sys : Sys) (p : string) (timeout : Z) (w : World)
  : option ((Lock + string) * World) :=
  match fuel with
  | O => None
  | S fuel =>
      match file w with
      | Absent =>
          Some (inl {| path := p |},
                {| file := Present (freshContent sys (clock sys (ticks w)));
                   ticks := S (ticks w) |})
      | Uncreatable e => Some (inr e, w)
      | _ =>
          match isStale sys w timeout with
          | (inr e, w) => Some (inr e, w)
          | (inl true, w) =>
              Acquire fuel sys p timeout {| file := Absent; ticks := ticks w |}
          | (inl false, w) => Some (inr "lock already held", w)
          end
      end
  end.

Definition Release (l : Lock) (w : World) : option string * World :=
  match file w with
  | Absent => (Some "no such file or directory", w)
  | Uncreatable e => (Some e, w)
  | _ => (None, {| file := Absent; ticks := ticks w |})
  end.

End lock.

(** ** Sample runs

    Three watched packages, all installed at 1.0.0 while the API serves
    1.1.0: the formula [a] with the default policy, the formula [b]
    with policy notify and the cask [c] with policy auto. *)

Module Sample.
Import config check.

Definition watch (name typ policy : string) (interval : Z) : WatchItem :=
  {| Name := name; Typ := typ; Policy := policy; IntervalMin := interval; AddedAt := 0 |}.

Definition cfg : Config :=
  {| Version := 1; TickIntervalSec := 60; DefaultPolicy := "auto";
     NotifyMethod := "terminal-notifier"; IncludeAutoUpdateCask := true;
     Watchlist := [watch "a" "formula" "" 5; watch "b" "formula" "notify" 10;
                   watch "c" "cask" "auto" 15] |}.

Definition prints (s : string) : brew.CmdResult :=
  {| brew.stdout := s; brew.stderr := ""; brew.exitErr := None |}.

Definition fails (e : string) : brew.CmdResult :=
  {| brew.stdout := ""; brew.stderr := ""; brew.exitErr := Some e |}.

Definition installedList : string :=
  "a 1.0.0" +:+ String brew.newline "b 1.0.0".

(** A brew that confirms the formula [a] and the cask [c] as outdated. *)
Definition goodHost : brew.Host :=
  {| brew.brewPath := Some "/opt/homebrew/bin/brew";
     brew.command := fun args =>
       if decide (args = ["list"; "--versions"]) then prints installedList
       else if decide (args = ["list"; "--cask"; "--versions"]) then prints "c 1.0.0"
       else if decide (args = ["outdated"; "--quiet"; "--formula"; "a"]) then prints "a"
       else if decide (args = ["outdated"; "--quiet"; "--cask"; "--greedy"; "c"])
            then prints "c"
       else prints "" |}.

(** A brew whose outdated query for formulae fails. *)
Definition brokenHost : brew.Host :=
  {| brew.brewPath := Some "/opt/homebrew/bin/brew";
     brew.command := fun args =>
       if decide (args = ["list"; "--versions"]) then prints installedList
       else if decide (args = ["list"; "--cask"; "--versions"]) then prints "c 1.0.0"
       else if decide (args = ["outdated"; "--quiet"; "--formula"; "a"])
            then fails "exit status 1"
       else if decide (args = ["outdated"; "--quiet"; "--cask"; "--greedy"; "c"])
            then prints "c"
       else prints "" |}.

Definition served : api.Fetched :=
  {| api.latest := {| api.LatestVersion := "1.1.0"; api.Scheme := 0 |};
     api.newETag := "W/1"; api.notModified := false; api.fetchErr := None |}.

Definition envWith (h : brew.Host) : Env :=
  {| host := h; fetch := fun _ _ => served; arrival := [1%nat];
     now := 1000 * gotime.Second;
     nowUpdate := 1001 * gotime.Second;
     nowCheck := 1002 * gotime.Second |}.

Definition env : Env := envWith goodHost.
Definition brokenEnv : Env := envWith brokenHost.

Definition opts : Options :=
  {| DryRun := false; ForceUpdate := false; NotifyOnly := false; Verbose := false |}.

(** A state from before kinds were tracked: [a] is filed under its bare
    name and is not due before second 5000; [gone] is an orphan. *)
Definition legacy : State :=
  {| LastCheckAt := None; LastUpdateAt := None;
     LastVersions := {["a" := "1.0.0"; "gone" := "0.1"]};
     LastSchemes := {["a" := 0; "gone" := 0]};
     ETagCache := ∅; LastErrors := [];
     NextCheckAt := {["a" := "5000"; "gone" := "1"]} |}.

(** The package [a] watched twice: once without kind and with policy
    "notify", once as a formula with policy "auto". *)
Definition twice : Config :=
  withWatchlist cfg [watch "a" "" "notify" 5; watch "a" "formula" "auto" 5].

(** A run that starts 0.7 s after second 1000. *)
Definition fractionEnv : Env :=
  {| host := goodHost; fetch := fun _ _ => served; arrival := [1%nat];
     now := 1000 * gotime.Second + 700000000;
     nowUpdate := 1001 * gotime.Second;
     nowCheck := 1002 * gotime.Second |}.

(** A metadata API that fails for the item [b]. *)
Definition unreachable : api.Fetched :=
  {| api.latest := {| api.LatestVersion := ""; api.Scheme := 0 |};
     api.newETag := ""; api.notModified := false;
     api.fetchErr := Some "unexpected status: 503" |}.

Definition flakyEnv : Env :=
  {| host := goodHost;
     fetch := fun it _ => if String.eqb (Name it) "b" then unreachable else served;
     arrival := [2%nat];
     now := 1000 * gotime.Second;
     nowUpdate := 1001 * gotime.Second;
     nowCheck := 1002 * gotime.Second |}.

(** A state from before kinds were tracked that knows the version and
    the scheme of [b] under its bare name and holds no next-check time,
    so that no time string is read in a run from it. *)
Definition bareVersions : State :=
  {| LastCheckAt := None; LastUpdateAt := None;
     LastVersions := {["b" := "1.0.0"]};
     LastSchemes := {["b" := 0]};
     ETagCache := ∅; LastErrors := [];
     NextCheckAt := ∅ |}.

Definition run : Outcome := Run gotime.unixLayout semver.reference env cfg DefaultState opts.
Definition brokenRun : Outcome :=
  Run gotime.unixLayout semver.reference brokenEnv cfg DefaultState opts.
Definition legacyRun : Outcome :=
  Run gotime.unixLayout semver.reference env cfg legacy opts.
Definition twiceRun : Outcome :=
  Run gotime.unixLayout semver.reference env twice DefaultState opts.
Definition fractionRun : Outcome :=
  Run gotime.unixLayout semver.reference fractionEnv cfg DefaultState opts.
Definition flakyRun : Outcome :=
  Run gotime.unixLayout semver.reference flakyEnv cfg bareVersions opts.

End Sample.

(** ** Package config: normalization at load time *)

Module configLoad.
Import config.

Definition DefaultTickInterval : Z := 60.
(** The constants [DefaultPolicy] and [DefaultNotifyMethod] of the
    source (the record fields hold these names here). *)
Definition DefaultPolicyName : string := "auto".
Definition DefaultNotifyMethodName : string := "terminal-notifier".

(** The zero [time.Time]: January 1 of year 1, 00:00 UTC. *)
Definition zeroTime : Z := -62135596800 * gotime.Second.

Definition IsZero (t : Z) : bool := t =? zeroTime.

Definition withAddedAt (it : WatchItem) (t : Z) : WatchItem :=
  {| Name := Name it; Typ := Typ it; Policy := Policy it;
     IntervalMin := IntervalMin it; AddedAt := t |}.

Definition withInterval (it : WatchItem) (n : Z) : WatchItem :=
  {| Name := Name it; Typ := Typ it; Policy := Policy it;
     IntervalMin := n; AddedAt := AddedAt it |}.

(** The loop of [NormalizeConfig] over the watchlist, with its two
    accumulators; [inr] is the early return with the error.  An index
    recorded in [seen] is always within [deduped] (see
    [normalizeItems_step]), so that [deduped[idx]] never panics and the
    branch for a missing element is never taken. *)
Fixpoint normalizeItems (now : Z) (items deduped : list WatchItem) (seen : gmap string nat)
  : list WatchItem + string :=
  match items with
  | [] => inl deduped
  | item :: rest =>
      let item := if IntervalMin item =? 0 then withInterval item DefaultIntervalMin
                  else item in
      match ValidateInterval (IntervalMin item) with
      | Some e => inr ("invalid interval for " +:+ Name item +:+ ": " +:+ e)
      | None =>
          let item := if IsZero (AddedAt item) then withAddedAt item now else item in
          let key := WatchKey (Name item) (Typ item) in
          match seen !! key with
          | Some idx =>
              let item :=
                match deduped !! idx with
                | Some old =>
                    if negb (IsZero (AddedAt old))
                       && gotime.Before (AddedAt old) (AddedAt item)
                    then withAddedAt item (AddedAt old) else item
                | None => item
                end in
              normalizeItems now rest (<[idx := item]> deduped) seen
          | None =>
              normalizeItems now rest (deduped ++ [item])
                (<[key := length deduped]> seen)
          end
      end
  end.

(** [NormalizeConfig]; [now] is the reading of the clock it takes. *)
Definition NormalizeConfig (now : Z) (cfg : Config) : Config * option string :=
  let cfg :=
    {| Version := Version cfg; TickIntervalSec := DefaultTickInterval;
       DefaultPolicy := if String.eqb (DefaultPolicy cfg) "" then DefaultPolicyName
                        else DefaultPolicy cfg;
       NotifyMethod := if String.eqb (NotifyMethod cfg) "" then DefaultNotifyMethodName
                       else NotifyMethod cfg;
       IncludeAutoUpdateCask := IncludeAutoUpdateCask cfg;
       Watchlist := Watchlist cfg |} in
  match normalizeItems now (Watchlist cfg) [] ∅ with
  | inr e => (cfg, Some e)
  | inl deduped => (check.withWatchlist cfg deduped, None)
  end.

(** What [NormalizeConfig] establishes. *)
Definition normalized (cfg : Config) : Prop :=
  TickIntervalSec cfg = DefaultTickInterval
  /\ DefaultPolicy cfg <> "" /\ NotifyMethod cfg <> ""
  /\ NoDup (List.map check.keyOf (Watchlist cfg))
  /\ (forall it, In it (Watchlist cfg) ->
                 ValidateInterval (IntervalMin it) = None /\ IsZero (AddedAt it) = false).

(** The item as the loop stores it: interval defaulted, zero time
    replaced. *)
Definition stored (now : Z) (item : WatchItem) : WatchItem :=
  let item := if IntervalMin item =? 0 then withInterval item DefaultIntervalMin else item in
  if IsZero (AddedAt item) then withAddedAt item now else item.

Definition loopInv (deduped : list WatchItem) (seen : gmap string nat) : Prop :=
  (forall k i, seen !! k = Some i -> List.map check.keyOf deduped !! i = Some k)
  /\ (forall k, In k (List.map check.keyOf deduped) -> is_Some (seen !! k))
  /\ NoDup (List.map check.keyOf deduped).

(** An interval the loader accepts: 0 stands for the default. *)
Definition acceptable (it : WatchItem) : Prop :=
  IntervalMin it = 0 \/ (MinIntervalMin <= IntervalMin it <= MaxIntervalMin).

(** A configuration as a file may hold it: no default policy, the item
    [a] twice, an interval left at 0 and dates left at the zero time. *)
Definition sampleFile : Config :=
  {| Version := 1; TickIntervalSec := 0; DefaultPolicy := ""; NotifyMethod := "";
     IncludeAutoUpdateCask := false;
     Watchlist :=
       [ {| Name := "a"; Typ := "formula"; Policy := "notify"; IntervalMin := 0;
            AddedAt := zeroTime |};
         {| Name := "c"; Typ := "cask"; Policy := ""; IntervalMin := 30;
            AddedAt := 50 * gotime.Second |};
         {| Name := "a"; Typ := "formula"; Policy := "auto"; IntervalMin := 10;
            AddedAt := 200 * gotime.Second |} ] |}.

Definition sampleNow : Z := 100 * gotime.Second.

End configLoad.

(** ** Further vocabulary of the properties *)

Module engine.
Import config check.

(** Whether the installed snapshot holds the item, and the item with
    its kind set from the snapshot, as the pruning loop of [Run] reads
    them off [installedVersion]. *)
Definition isInstalled (formulae casks : gmap string string) (it : WatchItem) : bool :=
  let '(_, _, ok) := installedVersion formulae casks it in ok.

Definition synced (formulae casks : gmap string string) (it : WatchItem) : WatchItem :=
  let '(_, typ, _) := installedVersion formulae casks it in withTyp it typ.

(** The fields of the state outside the per-item maps agree. *)
Definition sameStamps (st st' : State) : Prop :=
  LastCheckAt st' = LastCheckAt st /\ LastUpdateAt st' = LastUpdateAt st
  /\ ETagCache st' = ETagCache st.

(** The error ring holds at most 20 entries, or no more than [n]. *)
Definition ringWithin (n : nat) (st : State) : Prop :=
  (length (LastErrors st) <= Nat.max 20 n)%nat.

(** What the loop over the fetch results puts on the outdated list:
    the item of a result that came without error, with the version of
    the map [installed] under the item's key, and such that the
    comparator answered yes. *)
Definition reported (sv : semver.Lib) (installed : gmap string string)
    (results : list fetchResult) (o : OutdatedItem) : Prop :=
  (exists r, In r results /\ err r = None /\ Item o = item r)
  /\ Installed o = default "" (installed !! keyOf (Item o))
  /\ exists scheme prevScheme,
       isOutdated sv (Installed o) (Latest o) scheme prevScheme = true.

(** What the pruning loop keeps true of the map [installed] and of the
    list [filtered]. *)
Definition snapshotOK (formulae casks installed : gmap string string)
    (filtered : list WatchItem) : Prop :=
  (forall k v, installed !! k = Some v ->
     exists it, In it filtered /\ k = keyOf it
                /\ ((Typ it = "formula" /\ formulae !! Name it = Some v)
                    \/ (Typ it = "cask" /\ casks !! Name it = Some v)))
  /\ (forall it, In it filtered ->
        is_Some (installed !! keyOf it) /\ (Typ it = "formula" \/ Typ it = "cask")).

(** Ascending order of [sort.Strings]. *)
Fixpoint sorted (l : list string) : bool :=
  match l with
  | [] => true
  | x :: r => match r with
              | [] => true
              | y :: _ => String.leb x y && sorted r
              end
  end.

End engine.

(** ** Further sample runs *)

Module Scenario.
Import config check.

(** A machine without brew on the search path. *)
Definition noBrew : brew.Host :=
  {| brew.brewPath := None; brew.command := fun _ => Sample.prints "" |}.

Definition noBrewEnv : Env := Sample.envWith noBrew.

(** A watchlist with an item that is not installed and an item
    without kind, and a snapshot that holds the latter as a cask. *)
Definition mixedCfg : Config :=
  withWatchlist Sample.cfg
    [Sample.watch "a" "formula" "" 5; Sample.watch "c" "" "notify" 5].

Definition caskOnly : gmap string string := {[ "c" := "1.0" ]}.

Definition dryOpts : Options :=
  {| DryRun := true; ForceUpdate := true; NotifyOnly := false; Verbose := false |}.

End Scenario.

(** ** Vocabulary of the lock file *)

Module lockfile.

(** The range of int64. *)
Definition int64 (z : Z) : Prop := - 2 ^ 63 <= z <= 2 ^ 63 - 1.

(** The characters of a decimal numeral. *)
Definition plain (c : ascii) : bool := GoStrings.isDigit c || Ascii.eqb c "-".

Definition plainString (s : string) : bool := forallb plain (list_ascii_of_string s).

(** A second process that sees the first one alive. *)
Definition owner : lock.Sys :=
  {| lock.pid := 77; lock.alive := fun q => q =? 77;
     lock.clock := fun k => (2000 + Z.of_nat k) * gotime.Second |}.

Definition rival : lock.Sys :=
  {| lock.pid := 78; lock.alive := fun q => q =? 77;
     lock.clock := fun k => (2000 + Z.of_nat k) * gotime.Second |}.

End lockfile.

(** ** Package main: the commands [set], [upgrade] and [check]

    The bodies of the commands, without what they print; the loading
    and saving of the configuration and state files are the outside
    world. *)

Module cmd.
Import config check.

Definition validatePolicy (policy : string) : option string :=
  if String.eqb policy "" then None
  else if negb (String.eqb policy "auto") && negb (String.eqb policy "notify")
       then Some ("invalid policy: " +:+ policy)
       else None.

Definition validateType (typ : string) : option string :=
  let typ := if String.eqb typ "" then "all" else typ in
  if negb (String.eqb typ "formula") && negb (String.eqb typ "cask")
     && negb (String.eqb typ "all")
  then Some ("invalid type: " +:+ typ)
  else None.

Definition joinNames (names : list string) : string :=
  match names with
  | [] => "-"
  | _ => GoStrings.Join names ", "
  end.

Definition splitTargets (items : list WatchItem) (typ : string)
  : list string * list string :=
  List.fold_left
    (fun (acc : list string * list string) item =>
       let '(formulae, casks) := acc in
       if negb (String.eqb typ "all") && negb (String.eqb (Typ item) typ) then acc
       else if String.eqb (Typ item) "cask"
            then (formulae, (casks ++ [Name item])%list)
            else ((formulae ++ [Name item])%list, casks))
    items ([], []).

(** [m[n]] for the set [m] built from the arguments. *)
Definition named (args : list string) (n : string) : bool :=
  existsb (String.eqb n) args.

Definition withPolicy (it : WatchItem) (policy : string) : WatchItem :=
  {| Name := Name it; Typ := Typ it; Policy := policy;
     IntervalMin := IntervalMin it; AddedAt := AddedAt it |}.

(** The body of the loop of [setCmd] over the watchlist. *)
Definition setItem (args : list string) (policy : string) (interval : Z)
    (it : WatchItem) : WatchItem :=
  if negb (named args (Name it)) then it
  else
    let it := if negb (String.eqb policy "") then withPolicy it policy else it in
    if 0 <? interval then withIntervalMin it interval else it.

(** [setCmd]: [load] is what [loadConfigState] gives, [save] the error
    of [config.SaveConfig]; returns the configuration handed to
    [SaveConfig], if it is called, and the error of the command. *)
Definition setCmd (args : list string) (policy : string) (interval : Z)
    (load : Config + string) (save : Config -> option string)
  : option Config * option string :=
  match args with
  | [] => (None, Some "name required")
  | _ =>
      match validatePolicy policy with
      | Some e => (None, Some e)
      | None =>
          if negb (interval =? 0)
             && ((interval <? MinIntervalMin) || (MaxIntervalMin <? interval))
          then (None, Some "interval-min must be 1-1440")
          else
            match load with
            | inr e => (None, Some e)
            | inl cfg =>
                let cfg :=
                  withWatchlist cfg
                    (List.map (setItem args policy interval) (Watchlist cfg)) in
                (Some cfg, save cfg)
            end
      end
  end.

(** The targets of [upgradeCmd]. *)
Definition selectTargets (all : bool) (args : list string) (cfg : Config)
  : list WatchItem :=
  if all || (length args =? 0)%nat then Watchlist cfg
  else List.filter (fun w => named args (Name w)) (Watchlist cfg).

(** [upgradeCmd] from the index refresh on, for the sorted name lists;
    returns the error of the command and the calls it made. *)
Definition upgradeSteps (h : brew.Host) (verbose greedy : bool)
    (formulae casks : list string) : option string * list Event :=
  match brew.Update h verbose with
  | Some e => (Some e, [EvUpdate (Some e)])
  | None =>
      let tr := [EvUpdate None] in
      let rf := match formulae with
                | [] => inl formulae
                | _ => brew.OutdatedFormula h formulae
                end in
      let tr := match formulae with
                | [] => tr
                | _ => (tr ++ [EvOutdatedFormula formulae rf])%list
                end in
      match rf with
      | inr e => (Some e, tr)
      | inl formulae =>
          let rc := match casks with
                    | [] => inl casks
                    | _ => brew.OutdatedCask h casks greedy
                    end in
          let tr := match casks with
                    | [] => tr
                    | _ => (tr ++ [EvOutdatedCask casks greedy rc])%list
                    end in
          match rc with
          | inr e => (Some e, tr)
          | inl casks =>
              match formulae, casks with
              | [], [] => (None, tr)
              | _, _ =>
                  let e1 := brew.UpgradeFormula h formulae verbose in
                  let tr := (tr ++ [EvUpgradeFormula formulae e1])%list in
                  match e1 with
                  | Some e => (Some e, tr)
                  | None =>
                      let e2 := brew.UpgradeCask h casks greedy verbose in
                      (e2, (tr ++ [EvUpgradeCask casks greedy e2])%list)
                  end
              end
          end
      end
  end.

(** [upgradeCmd]. *)
Definition upgradeCmd (h : brew.Host) (typ : string) (all verbose : bool)
    (args : list string) (load : Config + string) : option string * list Event :=
  match load with
  | inr e => (Some e, [])
  | inl cfg =>
      match validateType typ with
      | Some e => (Some e, [])
      | None =>
          match selectTargets all args cfg with
          | [] => (None, [])
          | targets =>
              let '(formulae, casks) := splitTargets targets typ in
              match formulae, casks with
              | [], [] => (None, [])
              | _, _ =>
                  upgradeSteps h verbose (IncludeAutoUpdateCask cfg)
                    (sortStrings formulae) (sortStrings casks)
              end
          end
      end
  end.

(** What [checkCmd] leaves behind: its error, the lock file, what it
    handed to [SaveConfig] and to [SaveState] (if it called them), and
    the calls the engine made. *)
Record Checked := {
  cErr : option string;
  cLock : lock.World;
  cSavedCfg : option Config;
  cSavedSt : option State;
  cCalls : list Event
}.

(** [checkCmd]: [load] is what [loadConfigState] gives, [running] what
    [brew.HasRunningBrew] gives, [saveCfg] and [saveSt] the errors of
    [config.SaveConfig] and [config.SaveState]; [fuel] bounds the loop
    of [lock.Acquire].  The deferred [l.Release()] runs on every path
    after the lock is taken; its error is dropped. *)
Definition checkCmd (tf : gotime.Layout) (sv : semver.Lib) (fuel : nat) (sys : lock.Sys)
    (lockPath : string) (env : Env) (opts : Options)
    (load : (Config * State) + string) (running : bool + string)
    (saveCfg : Config -> option string) (saveSt : State -> option string)
    (w : lock.World) : option Checked :=
  match load with
  | inr e => Some (Build_Checked (Some e) w None None [])
  | inl (cfg, st) =>
      match lock.Acquire fuel sys lockPath (10 * gotime.Minute) w with
      | None => None
      | Some (inr _, w) => Some (Build_Checked None w None None [])
      | Some (inl l, w) =>
          let released := (lock.Release l w).2 in
          match running with
          | inl true => Some (Build_Checked None released None None [])
          | _ =>
              let out := Run tf sv env cfg st opts in
              match oErr out with
              | Some e => Some (Build_Checked (Some e) released None None (oTrace out))
              | None =>
                  match saveCfg (oCfg out) with
                  | Some e =>
                      Some (Build_Checked (Some e) released (Some (oCfg out)) None
                              (oTrace out))
                  | None =>
                      Some (Build_Checked (saveSt (oSt out)) released (Some (oCfg out))
                              (Some (oSt out)) (oTrace out))
                  end
              end
          end
      end
  end.

(** The items [splitTargets] files under a kind. *)
Definition chosen (typ : string) (cask : bool) (item : WatchItem) : bool :=
  (String.eqb typ "all" || String.eqb (Typ item) typ)
  && Bool.eqb (String.eqb (Typ item) "cask") cask.

End cmd.

(** * Properties *)

(** ** The comparator *)

Section Comparator.
Import check.

Lemma foldRune_l (s r : string) :
  GoStrings.foldRune "l" s = Some r -> s = String "l" r \/ s = String "L" r.
Proof.
  destruct s as [|c s']; [discriminate|].
  unfold GoStrings.foldRune.
  change (GoStrings.swapCase "l") with "L"%char.
  change (GoStrings.isUpper "l" || GoStrings.isLower "l") with true.
  change (((GoStrings.code "l" =? 115) || (GoStrings.code "l" =? 83))%N) with false.
  change (((GoStrings.code "l" =? 107) || (GoStrings.code "l" =? 75))%N) with false.
  rewrite andb_true_r. cbn [andb].
  destruct (Ascii.eqb c "l") eqn:E1; cbn [orb].
  - apply Ascii.eqb_eq in E1. subst c. intros [= ->]. now left.
  - destruct (Ascii.eqb c "L") eqn:E2; [|discriminate].
    apply Ascii.eqb_eq in E2. subst c. intros [= ->]. now right.
Qed.

Lemma ReplaceAll_head (c : ascii) (r : string) (old new : ascii) :
  Ascii.eqb c old = false ->
  GoStrings.ReplaceAll (String c r) old new = String c (GoStrings.ReplaceAll r old new).
Proof. intros E. cbn. now rewrite E. Qed.

(** A string the sentinel test accepts does not look like a version. *)
Lemma isLatest_not_numeric (s : string) :
  isLatest s = true -> semver.startsNumeric (normalizeVersion s) = false.
Proof.
  unfold isLatest, normalizeVersion.
  destruct (GoStrings.TrimSpace s) as [|c t] eqn:Et; [discriminate|].
  cbn [GoStrings.EqualFold].
  destruct (GoStrings.foldRune "l" (String c t)) as [r|] eqn:Ef; [|discriminate].
  intros _. apply foldRune_l in Ef.
  destruct Ef as [[= -> ->]|[= -> ->]]; reflexivity.
Qed.

Lemma empty_not_numeric : semver.startsNumeric (normalizeVersion "") = false.
Proof. reflexivity. Qed.

Lemma parsed_not_sentinel (sv : semver.Lib) (s : string) v :
  semver.wellFormed sv ->
  semver.NewVersion sv (normalizeVersion s) = Some v ->
  String.eqb s "" = false /\ isLatest s = false.
Proof.
  intros Hwf Hp. apply Hwf in Hp. split.
  - destruct (String.eqb s "") eqn:E; [|reflexivity].
    apply String.eqb_eq in E. subst s. now rewrite empty_not_numeric in Hp.
  - destruct (isLatest s) eqn:E; [|reflexivity].
    apply isLatest_not_numeric in E. congruence.
Qed.

Lemma reference_wellFormed : semver.wellFormed semver.reference.
Proof.
  intros s v. cbn [semver.NewVersion semver.reference].
  destruct s as [|c r]; [discriminate|].
  unfold semver.startsNumeric.
  destruct (Ascii.eqb c "v") eqn:Ev; [now rewrite orb_true_r|].
  rewrite orb_false_r. unfold semver.parse, GoStrings.TrimPrefix.
  cbn [GoStrings.HasPrefix]. rewrite Ev. cbn [andb]. unfold semver.number. cbn [semver.span].
  destruct (GoStrings.isDigit c); [reflexivity|]. discriminate.
Qed.

(** The comparator on two strings that parse, for any library. *)
Lemma isOutdated_parsed (sv : semver.Lib) (installed latest : string)
    (scheme prevScheme : Z) iv lv :
  semver.wellFormed sv ->
  semver.NewVersion sv (normalizeVersion installed) = Some iv ->
  semver.NewVersion sv (normalizeVersion latest) = Some lv ->
  isOutdated sv installed latest scheme prevScheme
  = ((prevScheme <? scheme) && negb (String.eqb installed latest))
    || semver.GreaterThan sv lv iv.
Proof.
  intros Hwf Hi Hl. unfold isOutdated.
  destruct (parsed_not_sentinel sv installed iv Hwf Hi) as [-> ->].
  destruct (parsed_not_sentinel sv latest lv Hwf Hl) as [-> ->].
  cbn [orb]. rewrite Hi, Hl.
  now destruct ((prevScheme <? scheme) && negb (String.eqb installed latest)).
Qed.

(** The comparator past its two guards, for any library. *)
Lemma isOutdated_guarded (sv : semver.Lib) (installed latest : string)
    (scheme prevScheme : Z) :
  installed <> "" -> latest <> "" ->
  isLatest installed = false -> isLatest latest = false ->
  isOutdated sv installed latest scheme prevScheme
  = if (prevScheme <? scheme) && negb (String.eqb installed latest) then true
    else match semver.NewVersion sv (normalizeVersion installed),
               semver.NewVersion sv (normalizeVersion latest) with
         | Some iv, Some lv => semver.GreaterThan sv lv iv
         | _, _ => negb (String.eqb installed latest)
         end.
Proof.
  intros Hi Hl Si Sl. unfold isOutdated.
  apply String.eqb_neq in Hi, Hl. now rewrite Hi, Hl, Si, Sl.
Qed.

End Comparator.

(** C2, as stated, fails: with a higher scheme identifier and different
    strings the comparator answers true although the latest version is
    the smaller one. *)
Lemma isOutdated_structured_counterexample :
  ~ (forall (installed latest : string) (scheme prevScheme : Z) iv lv,
        semver.parse (check.normalizeVersion installed) = Some iv ->
        semver.parse (check.normalizeVersion latest) = Some lv ->
        (check.isOutdated semver.reference installed latest scheme prevScheme = true
         <-> semver.greater lv iv = true)).
Proof.
  intros H.
  destruct (H "1.3.0" "1.2.0" 1 0 _ _ eq_refl eq_refl) as [H1 _].
  specialize (H1 eq_refl). vm_compute in H1. discriminate.
Qed.

(** C2, amended: when the normalized forms of both strings parse, the
    comparator answers true exactly when the latest parsed version is
    greater than the installed one, or the scheme identifier increased
    and the raw strings differ; with equal schemes "1.2.0" / "1.3.0"
    gives true and "1.3.0" / "1.2.0" gives false. *)
Theorem isOutdated_structured :
  (forall (sv : semver.Lib) (installed latest : string) (scheme prevScheme : Z) iv lv,
      semver.wellFormed sv ->
      semver.NewVersion sv (check.normalizeVersion installed) = Some iv ->
      semver.NewVersion sv (check.normalizeVersion latest) = Some lv ->
      (check.isOutdated sv installed latest scheme prevScheme = true
       <-> (semver.GreaterThan sv lv iv = true
            \/ (prevScheme < scheme /\ installed <> latest))))
  /\ (forall scheme, check.isOutdated semver.reference "1.2.0" "1.3.0" scheme scheme = true)
  /\ (forall scheme, check.isOutdated semver.reference "1.3.0" "1.2.0" scheme scheme = false).
Proof.
  split; [|split].
  - intros sv installed latest scheme prevScheme iv lv Hwf Hi Hl.
    rewrite (isOutdated_parsed sv installed latest scheme prevScheme iv lv Hwf Hi Hl).
    rewrite orb_true_iff, andb_true_iff, Z.ltb_lt, negb_true_iff, String.eqb_neq.
    tauto.
  - intros scheme.
    rewrite (isOutdated_parsed semver.reference "1.2.0" "1.3.0" scheme scheme
               _ _ reference_wellFormed eq_refl eq_refl).
    now rewrite Z.ltb_irrefl.
  - intros scheme.
    rewrite (isOutdated_parsed semver.reference "1.3.0" "1.2.0" scheme scheme
               _ _ reference_wellFormed eq_refl eq_refl).
    now rewrite Z.ltb_irrefl.
Qed.

Lemma isOutdated_structured_witness :
  check.isOutdated semver.reference "1.0.0" "v1.1" 0 0 = true
  <-> (semver.GreaterThan semver.reference
         {| semver.Major := 1; semver.Minor := 1; semver.Patch := 0;
            semver.Pre := ""; semver.Metadata := "" |}
         {| semver.Major := 1; semver.Minor := 0; semver.Patch := 0;
            semver.Pre := ""; semver.Metadata := "" |} = true
       \/ (0 < 0 /\ "1.0.0" <> "v1.1")).
Proof.
  apply (proj1 isOutdated_structured semver.reference "1.0.0" "v1.1" 0 0).
  - exact reference_wellFormed.
  - vm_compute. reflexivity.
  - vm_compute. reflexivity.
Defined.

(** C8, as stated, fails: a string that is the sentinel up to
    surrounding white space does not equal "latest" case-insensitively,
    yet the comparator treats it as the sentinel and answers false. *)
Lemma isOutdated_scheme_bump_counterexample :
  ~ (forall (installed latest : string) (scheme prevScheme : Z),
        installed <> "" -> latest <> "" ->
        GoStrings.EqualFold installed "latest" = false ->
        GoStrings.EqualFold latest "latest" = false ->
        prevScheme < scheme -> installed <> latest ->
        check.isOutdated semver.reference installed latest scheme prevScheme = true).
Proof.
  intros H.
  specialize (H " latest" "1.0" 1 0).
  vm_compute in H.
  assert (false = true) as E; [|discriminate E].
  apply H; (reflexivity || discriminate).
Qed.

(** C8, amended: for two non-empty version strings neither of which,
    once surrounding white space is trimmed, equals "latest"
    case-insensitively, a scheme identifier above the recorded one and
    any difference between the strings makes the comparator answer
    true, whatever the version library says; so it does for "2021a" and
    "2021b" with schemes 1 and 0, neither of which parses. *)
Theorem isOutdated_scheme_bump :
  (forall (sv : semver.Lib) (installed latest : string) (scheme prevScheme : Z),
      installed <> "" -> latest <> "" ->
      check.isLatest installed = false -> check.isLatest latest = false ->
      prevScheme < scheme -> installed <> latest ->
      check.isOutdated sv installed latest scheme prevScheme = true)
  /\ check.isOutdated semver.reference "2021a" "2021b" 1 0 = true
  /\ semver.parse (check.normalizeVersion "2021a") = None
  /\ semver.parse (check.normalizeVersion "2021b") = None.
Proof.
  split; [|repeat split; vm_compute; reflexivity].
  intros sv installed latest scheme prevScheme Hi Hl Si Sl Hlt Hne.
  rewrite isOutdated_guarded by assumption.
  apply Z.ltb_lt in Hlt. apply String.eqb_neq in Hne.
  now rewrite Hlt, Hne.
Qed.

Lemma isOutdated_scheme_bump_witness :
  check.isOutdated semver.reference "2021a" "2021b" 1 0 = true.
Proof.
  apply (proj1 isOutdated_scheme_bump semver.reference "2021a" "2021b" 1 0);
    try discriminate; try reflexivity.
Defined.

(** C10, as stated, fails: " latest" is not empty, does not equal
    "latest" (not even case-insensitively) and does not parse, yet the
    comparator treats it as the sentinel and answers false for it and
    "1.0", two strings that differ. *)
Lemma isOutdated_fallback_counterexample :
  ~ (forall (installed latest : string) (scheme prevScheme : Z),
        installed <> "" -> latest <> "" ->
        GoStrings.EqualFold installed "latest" = false ->
        GoStrings.EqualFold latest "latest" = false ->
        scheme <= prevScheme ->
        (semver.NewVersion semver.reference (check.normalizeVersion installed) = None
         \/ semver.NewVersion semver.reference (check.normalizeVersion latest) = None) ->
        check.isOutdated semver.reference installed latest scheme prevScheme
        = negb (String.eqb installed latest)).
Proof.
  intros H.
  specialize (H " latest" "1.0" 0 0).
  vm_compute in H.
  assert (false = true) as E; [|discriminate E].
  apply H; try reflexivity; try discriminate. now left.
Qed.

(** C10, amended: for two non-empty strings neither of which, once
    surrounding white space is trimmed, equals "latest"
    case-insensitively, without an increase of the scheme identifier,
    when the normalized form of at least one of them does not parse,
    the comparator answers the inequality of the raw strings; the
    answer is the same with the two strings exchanged, and strings that
    differ only before normalization, such as "1.2.3.4" and "v1.2.3.4",
    are outdated. *)
Theorem isOutdated_fallback :
  (forall (sv : semver.Lib) (installed latest : string) (scheme prevScheme : Z),
      installed <> "" -> latest <> "" ->
      check.isLatest installed = false -> check.isLatest latest = false ->
      scheme <= prevScheme ->
      (semver.NewVersion sv (check.normalizeVersion installed) = None
       \/ semver.NewVersion sv (check.normalizeVersion latest) = None) ->
      check.isOutdated sv installed latest scheme prevScheme
      = negb (String.eqb installed latest)
      /\ check.isOutdated sv latest installed scheme prevScheme
         = check.isOutdated sv installed latest scheme prevScheme
      /\ (installed <> latest ->
          check.isOutdated sv installed latest scheme prevScheme = true))
  /\ (check.normalizeVersion "1.2.3.4" = check.normalizeVersion "v1.2.3.4"
      /\ forall scheme prevScheme, scheme <= prevScheme ->
           check.isOutdated semver.reference "1.2.3.4" "v1.2.3.4" scheme prevScheme = true).
Proof.
  assert (fallback : forall sv installed latest scheme prevScheme,
             installed <> "" -> latest <> "" ->
             check.isLatest installed = false -> check.isLatest latest = false ->
             scheme <= prevScheme ->
             (semver.NewVersion sv (check.normalizeVersion installed) = None
              \/ semver.NewVersion sv (check.normalizeVersion latest) = None) ->
             check.isOutdated sv installed latest scheme prevScheme
             = negb (String.eqb installed latest)).
  { intros sv installed latest scheme prevScheme Hi Hl Si Sl Hle Hp.
    rewrite isOutdated_guarded by assumption.
    apply Z.ltb_ge in Hle. rewrite Hle. cbn [andb].
    destruct Hp as [-> | Hp]; [reflexivity|].
    rewrite Hp. now destruct (semver.NewVersion sv (check.normalizeVersion installed)). }
  split.
  - intros sv installed latest scheme prevScheme Hi Hl Si Sl Hle Hp.
    rewrite (fallback sv installed latest) by assumption.
    rewrite (fallback sv latest installed) by tauto.
    repeat split.
    + now rewrite String.eqb_sym.
    + intros Hne. apply String.eqb_neq in Hne. now rewrite Hne.
  - split; [vm_compute; reflexivity|].
    intros scheme prevScheme Hle.
    rewrite fallback; try assumption; try discriminate; try reflexivity.
    left. vm_compute. reflexivity.
Qed.

Lemma isOutdated_fallback_witness :
  check.isOutdated semver.reference "2021a" "2021b" 0 0
  = negb (String.eqb "2021a" "2021b").
Proof.
  apply (proj1 isOutdated_fallback semver.reference "2021a" "2021b" 0 0);
    try discriminate; try reflexivity; try lia.
  left. vm_compute. reflexivity.
Defined.

(** ** The reconciliation engine *)

Section Engine.
Import config check.
Context (tf : gotime.Layout).

Lemma In_insertSorted (x y : string) (l : list string) :
  In y (insertSorted x l) <-> y = x \/ In y l.
Proof.
  induction l as [|z l IH]; cbn.
  - intuition.
  - destruct (String.leb x z); cbn; rewrite ?IH; intuition.
Qed.

Lemma In_sortStrings (y : string) (l : list string) :
  In y (sortStrings l) <-> In y l.
Proof.
  induction l as [|x l IH]; cbn; [tauto|].
  rewrite In_insertSorted, IH. intuition.
Qed.

Lemma notifyUpdates_fold (cfg : Config) (items : list OutdatedItem) (action : string)
    (forceAll : bool) (acc : list Event) :
  List.fold_left
    (fun (tr : list Event) o =>
       if forceAll || String.eqb (effectivePolicy cfg (Item o)) "notify"
          || String.eqb action "Updated"
       then (tr ++ [notice cfg o])%list else tr)
    items acc
  = (acc ++ List.map (notice cfg)
       (List.filter (fun o => forceAll || String.eqb (effectivePolicy cfg (Item o)) "notify"
                              || String.eqb action "Updated") items))%list.
Proof.
  revert acc. induction items as [|o items IH]; intros acc; cbn.
  - now rewrite app_nil_r.
  - rewrite IH.
    destruct (forceAll || String.eqb (effectivePolicy cfg (Item o)) "notify"
              || String.eqb action "Updated"); cbn; [|reflexivity].
    now rewrite <- app_assoc.
Qed.

Lemma filter_all {A : Type} (f : A -> bool) (l : list A) :
  (forall x, f x = true) -> List.filter f l = l.
Proof.
  intros H. induction l as [|x l IH]; cbn; [reflexivity|]. now rewrite H, IH.
Qed.

Lemma notifyUpdates_Updated (cfg : Config) (items : list OutdatedItem) :
  notifyUpdates cfg items "Updated" false = List.map (notice cfg) items.
Proof.
  unfold notifyUpdates. rewrite (notifyUpdates_fold cfg items "Updated" false []).
  cbn [app]. f_equal. apply filter_all. intros o. apply orb_true_r.
Qed.

Lemma notifyUpdates_forced (cfg : Config) (items : list OutdatedItem) (action : string) :
  notifyUpdates cfg items action true = List.map (notice cfg) items.
Proof.
  unfold notifyUpdates. rewrite (notifyUpdates_fold cfg items action true []).
  cbn [app]. f_equal. apply filter_all. intros o. reflexivity.
Qed.

Lemma notifyUpdates_isNotify cfg items action forceAll ev :
  In ev (notifyUpdates cfg items action forceAll) -> isNotify ev = true.
Proof.
  unfold notifyUpdates. rewrite (notifyUpdates_fold cfg items action forceAll []).
  cbn [app]. rewrite in_map_iff. intros (o & <- & _). reflexivity.
Qed.

Lemma splitByType_fold (cfg : Config) (outdated : list OutdatedItem)
    (fs cs : list string) :
  List.fold_left
    (fun (acc : list string * list string) o =>
       let '(formulae, casks) := acc in
       if negb (String.eqb (effectivePolicy cfg (Item o)) "auto") then acc
       else if String.eqb (Typ (Item o)) "cask"
            then (formulae, (casks ++ [Name (Item o)])%list)
            else ((formulae ++ [Name (Item o)])%list, casks))
    outdated (fs, cs)
  = ((fs ++ List.map (fun o => Name (Item o)) (List.filter (autoItem cfg false) outdated))%list,
     (cs ++ List.map (fun o => Name (Item o)) (List.filter (autoItem cfg true) outdated))%list).
Proof.
  unfold autoItem.
  revert fs cs. induction outdated as [|o l IH]; intros fs cs; cbn [List.fold_left].
  - cbn. now rewrite !app_nil_r.
  - cbn [List.filter].
    destruct (String.eqb (effectivePolicy cfg (Item o)) "auto"); cbn [negb andb].
    + destruct (String.eqb (Typ (Item o)) "cask"); cbn [Bool.eqb]; rewrite IH;
        cbn [List.map]; rewrite <- ?app_assoc; reflexivity.
    + now rewrite IH.
Qed.

Lemma splitByType_names (cfg : Config) (outdated : list OutdatedItem) (n : string) :
  (In n (fst (splitByType outdated cfg))
   <-> exists o, In o outdated /\ Name (Item o) = n
                 /\ effectivePolicy cfg (Item o) = "auto"
                 /\ Typ (Item o) <> "cask")
  /\ (In n (snd (splitByType outdated cfg))
      <-> exists o, In o outdated /\ Name (Item o) = n
                    /\ effectivePolicy cfg (Item o) = "auto"
                    /\ Typ (Item o) = "cask").
Proof.
  unfold splitByType. rewrite splitByType_fold. cbn [fst snd app].
  rewrite !In_sortStrings, !in_map_iff.
  split; split.
  - intros (o & <- & Ho). apply filter_In in Ho. destruct Ho as [Ho Ha].
    unfold autoItem in Ha. apply andb_true_iff in Ha. destruct Ha as [Ha Hc].
    exists o. repeat split; [assumption|now apply String.eqb_eq|].
    apply String.eqb_neq. now destruct (String.eqb (Typ (Item o)) "cask").
  - intros (o & Ho & <- & Ha & Hc). exists o. split; [reflexivity|].
    apply filter_In. split; [assumption|]. unfold autoItem.
    apply String.eqb_eq in Ha. apply String.eqb_neq in Hc. now rewrite Ha, Hc.
  - intros (o & <- & Ho). apply filter_In in Ho. destruct Ho as [Ho Ha].
    unfold autoItem in Ha. apply andb_true_iff in Ha. destruct Ha as [Ha Hc].
    exists o. repeat split; [assumption|now apply String.eqb_eq|].
    apply String.eqb_eq. now destruct (String.eqb (Typ (Item o)) "cask").
  - intros (o & Ho & <- & Ha & Hc). exists o. split; [reflexivity|].
    apply filter_In. split; [assumption|]. unfold autoItem.
    apply String.eqb_eq in Ha. apply String.eqb_eq in Hc. now rewrite Ha, Hc.
Qed.


Lemma verifyFormula_names (h : brew.Host) (F : list string) (st : State)
    (tr : list Event) :
  reportsAsked h -> incl (verifyFormula h F st tr).1.1 F.
Proof.
  intros Hc. unfold verifyFormula. destruct F as [|x F]; [easy|].
  destruct (brew.OutdatedFormula h (x :: F)) as [r|e] eqn:E; cbn [fst].
  - now apply (Hc (x :: F)).
  - apply incl_refl.
Qed.

Lemma verifyCask_names (h : brew.Host) (C : list string) (greedy : bool) (st : State)
    (tr : list Event) :
  reportsAsked h -> incl (verifyCask h C greedy st tr).1.1 C.
Proof.
  intros Hc. unfold verifyCask. destruct C as [|x C]; [easy|].
  destruct (brew.OutdatedCask h (x :: C) greedy) as [r|e] eqn:E; cbn [fst].
  - now apply (proj2 (Hc (x :: C)) greedy).
  - apply incl_refl.
Qed.

Lemma verifyFormula_trace (h : brew.Host) (F : list string) (st : State)
    (tr : list Event) ev :
  In ev (verifyFormula h F st tr).2 -> In ev tr \/ isUpgrade ev = false /\ isNotify ev = false.
Proof.
  unfold verifyFormula. destruct F as [|x F]; [now left|].
  destruct (brew.OutdatedFormula h (x :: F)); cbn [snd];
    rewrite in_app_iff; cbn [In]; intros [H|[<-|[]]]; auto.
Qed.

Lemma verifyCask_trace (h : brew.Host) (C : list string) (greedy : bool) (st : State)
    (tr : list Event) ev :
  In ev (verifyCask h C greedy st tr).2 -> In ev tr \/ isUpgrade ev = false /\ isNotify ev = false.
Proof.
  unfold verifyCask. destruct C as [|x C]; [now left|].
  destruct (brew.OutdatedCask h (x :: C) greedy); cbn [snd];
    rewrite in_app_iff; cbn [In]; intros [H|[<-|[]]]; auto.
Qed.

(** The upgrade calls of [upgrade] carry the lists it was given. *)
Lemma upgrade_calls (env : Env) (cfg : Config) (st : State) (opts : Options)
    (res : Result) (outdated : list OutdatedItem) (F C : list string)
    (tr : list Event) ev :
  In ev (oTrace (upgrade env cfg st opts res outdated F C tr)) ->
  isUpgrade ev = true ->
  In ev tr \/ (exists e, ev = EvUpgradeFormula F e)
  \/ (exists e, ev = EvUpgradeCask C (IncludeAutoUpdateCask cfg) e).
Proof.
  unfold upgrade.
  destruct (brew.UpgradeFormula (host env) F (Verbose opts)) as [e1|];
    destruct (brew.UpgradeCask (host env) C (IncludeAutoUpdateCask cfg) (Verbose opts))
      as [e2|];
    cbn [oTrace]; rewrite !in_app_iff; cbn [In];
    intros H Hu;
    repeat match type of H with
      | _ \/ _ => destruct H as [H|H]
      | False => destruct H
      end;
    try (apply notifyUpdates_isNotify in H; destruct ev; discriminate);
    try (subst ev; discriminate);
    try (now left);
    try (right; left; eexists; symmetry; eassumption);
    try (right; right; eexists; symmetry; eassumption).
Qed.

Lemma dispatch_upgrade_calls (env : Env) (cfg : Config) (st : State) (opts : Options)
    (res : Result) (outdated : list OutdatedItem) ev :
  reportsAsked (host env) ->
  In ev (oTrace (dispatch env cfg st opts res outdated)) ->
  (forall names e, ev = EvUpgradeFormula names e ->
                   incl names (fst (splitByType outdated cfg)))
  /\ (forall names greedy e, ev = EvUpgradeCask names greedy e ->
                             incl names (snd (splitByType outdated cfg))).
Proof.
  intros Hc. unfold dispatch, refreshAndUpgrade, updateFailed, stamped.
  set (forced := ForceUpdate opts && negb (DryRun opts) && negb (NotifyOnly opts)).
  assert (Hsmall : forall tr : list Event,
             (forall ev', In ev' tr -> isUpgrade ev' = false) ->
             In ev tr ->
             (forall names e, ev = EvUpgradeFormula names e ->
                              incl names (fst (splitByType outdated cfg)))
             /\ (forall names greedy e, ev = EvUpgradeCask names greedy e ->
                                        incl names (snd (splitByType outdated cfg)))).
  { intros tr Htr Hin. apply Htr in Hin. split; intros; subst ev; discriminate. }
  destruct (if forced then brew.Update (host env) (Verbose opts) else None) as [e|] eqn:E1.
  { cbn [oTrace app]. apply Hsmall. cbn [In]. intros ev' [<-|[<-|[]]]; reflexivity. }
  set (tr0 := if forced then [EvUpdate None] else []).
  assert (Htr0 : forall ev', In ev' tr0 -> isUpgrade ev' = false).
  { intros ev'. subst tr0. destruct forced; cbn [In]; [intros [<-|[]]; reflexivity|easy]. }
  destruct outdated as [|o outdated'] eqn:Eo; [cbn [oTrace]; now apply Hsmall|].
  rewrite <- Eo in *. clear Eo.
  destruct (DryRun opts || NotifyOnly opts).
  { cbn [oTrace]. apply Hsmall. intros ev'. rewrite in_app_iff. intros [H|H]; [auto|].
    apply notifyUpdates_isNotify in H. now destruct ev'. }
  destruct (if negb forced then brew.Update (host env) (Verbose opts) else None) as [e|].
  { cbn [oTrace]. apply Hsmall. intros ev'. rewrite in_app_iff. cbn [In].
    intros [H|[<-|[<-|[]]]]; auto. }
  set (tr1 := if negb forced then (tr0 ++ [EvUpdate None])%list else tr0).
  assert (Htr1 : forall ev', In ev' tr1 -> isUpgrade ev' = false).
  { intros ev'. subst tr1. destruct (negb forced); [|auto].
    rewrite in_app_iff. cbn [In]. intros [H|[<-|[]]]; auto. }
  destruct (splitByType outdated cfg) as [F C] eqn:Es. cbn [fst snd].
  pose proof (verifyFormula_names (host env) F st tr1 Hc) as HF.
  pose proof (verifyFormula_trace (host env) F st tr1) as HFt.
  destruct (verifyFormula (host env) F st tr1) as [[F' st1] tr2]. cbn [fst snd] in HF, HFt.
  pose proof (verifyCask_names (host env) C (IncludeAutoUpdateCask cfg) st1 tr2 Hc) as HC.
  pose proof (verifyCask_trace (host env) C (IncludeAutoUpdateCask cfg) st1 tr2) as HCt.
  destruct (verifyCask (host env) C (IncludeAutoUpdateCask cfg) st1 tr2) as [[C' st2] tr3].
  cbn [fst snd] in HC, HCt.
  assert (Htr3 : forall ev', In ev' tr3 -> isUpgrade ev' = false).
  { intros ev' H. apply HCt in H. destruct H as [H|[H _]]; [|assumption].
    apply HFt in H. destruct H as [H|[H _]]; auto. }
  assert (Hup : In ev (oTrace (upgrade env cfg st2 opts res outdated F' C' tr3)) ->
                (forall names e, ev = EvUpgradeFormula names e -> incl names F)
                /\ (forall names greedy e, ev = EvUpgradeCask names greedy e -> incl names C)).
  { intros Hin. split.
    - intros names e ->. apply upgrade_calls in Hin; [|reflexivity].
      destruct Hin as [H|[[e' H]|[e' H]]]; [apply Htr3 in H; discriminate| |discriminate].
      now injection H as -> _.
    - intros names greedy e ->. apply upgrade_calls in Hin; [|reflexivity].
      destruct Hin as [H|[[e' H]|[e' H]]]; [apply Htr3 in H; discriminate|discriminate|].
      now injection H as -> _ _. }
  destruct F' as [|f F']; [destruct C' as [|c C']|]; try exact Hup.
  cbn [oTrace]. intros Hin. apply Htr3 in Hin. split; intros; subst ev; discriminate.
Qed.


Lemma prepare_cfg (formulae casks : gmap string string) (cfg : Config) (st : State)
    removed cfg1 st1 installed :
  prepare formulae casks cfg st = (removed, cfg1, st1, installed) ->
  cfg1 = withWatchlist cfg (Watchlist cfg1).
Proof.
  unfold prepare.
  destruct (List.fold_left _ _ _) as [[[r s] i] f].
  intros [= <- <- <- <-]. reflexivity.
Qed.

Lemma effectivePolicy_withWatchlist (cfg : Config) (l : list WatchItem) (it : WatchItem) :
  effectivePolicy (withWatchlist cfg l) it = effectivePolicy cfg it.
Proof. reflexivity. Qed.

Lemma sameMaps_refl (st : State) : sameMaps st st.
Proof. repeat split. Qed.

Lemma sameMaps_trans (a b c : State) : sameMaps a b -> sameMaps b c -> sameMaps a c.
Proof. unfold sameMaps. intros (-> & -> & ->) (-> & -> & ->). auto. Qed.

Lemma sameMaps_appendError (st : State) (msg : string) : sameMaps st (appendError st msg).
Proof. repeat split. Qed.

Lemma sameMaps_withLastCheckAt (st : State) (t : Z) : sameMaps st (withLastCheckAt st t).
Proof. repeat split. Qed.

Lemma sameMaps_withLastUpdateAt (st : State) (t : Z) : sameMaps st (withLastUpdateAt st t).
Proof. repeat split. Qed.

Lemma verifyFormula_state (h : brew.Host) (F : list string) (st : State) (tr : list Event) :
  sameMaps st (verifyFormula h F st tr).1.2.
Proof.
  unfold verifyFormula. destruct F; [apply sameMaps_refl|].
  destruct (brew.OutdatedFormula h _); cbn; [apply sameMaps_refl|apply sameMaps_appendError].
Qed.

Lemma verifyCask_state (h : brew.Host) (C : list string) (g : bool) (st : State)
    (tr : list Event) :
  sameMaps st (verifyCask h C g st tr).1.2.
Proof.
  unfold verifyCask. destruct C; [apply sameMaps_refl|].
  destruct (brew.OutdatedCask h _ _); cbn; [apply sameMaps_refl|apply sameMaps_appendError].
Qed.

Lemma upgrade_state (env : Env) (cfg : Config) (st : State) (opts : Options) (res : Result)
    (outdated : list OutdatedItem) (F C : list string) (tr : list Event) :
  let out := upgrade env cfg st opts res outdated F C tr in
  sameMaps st (oSt out) /\ oCfg out = cfg /\ oErr out = None.
Proof.
  unfold upgrade.
  destruct (brew.UpgradeFormula _ _ _); destruct (brew.UpgradeCask _ _ _ _);
    cbn; repeat split.
Qed.

Lemma refreshAndUpgrade_state (env : Env) (cfg : Config) (st : State) (opts : Options)
    (res : Result) (outdated : list OutdatedItem) (updated : bool) (tr : list Event) :
  let out := refreshAndUpgrade env cfg st opts res outdated updated tr in
  sameMaps st (oSt out) /\ oCfg out = cfg /\ oErr out = None.
Proof.
  unfold refreshAndUpgrade, updateFailed, stamped.
  set (second := if negb updated then brew.Update (host env) (Verbose opts) else None).
  destruct second as [e|]; [cbn; repeat split|].
  set (tr1 := if negb updated then (tr ++ [EvUpdate None])%list else tr).
  destruct (splitByType outdated cfg) as [F C].
  pose proof (verifyFormula_state (host env) F st tr1) as HF.
  destruct (verifyFormula (host env) F st tr1) as [[F' st1] tr2]. cbn [fst snd] in HF.
  pose proof (verifyCask_state (host env) C (IncludeAutoUpdateCask cfg) st1 tr2) as HC.
  destruct (verifyCask (host env) C (IncludeAutoUpdateCask cfg) st1 tr2) as [[C' st2] tr3].
  cbn [fst snd] in HC.
  pose proof (sameMaps_trans _ _ _ HF HC) as H2.
  pose proof (upgrade_state env cfg st2 opts res outdated F' C' tr3) as HU.
  cbn zeta in HU. destruct HU as (HU & HUc & HUe).
  destruct F' as [|f F']; [destruct C' as [|c C']|].
  - cbn. split; [|auto]. eapply sameMaps_trans; [exact H2|apply sameMaps_withLastCheckAt].
  - split; [|auto]. eapply sameMaps_trans; eassumption.
  - split; [|auto]. eapply sameMaps_trans; eassumption.
Qed.

(** The action dispatch leaves the per-item maps and the watchlist as
    they are and never returns an error. *)
Lemma dispatch_state (env : Env) (cfg : Config) (st : State) (opts : Options) (res : Result)
    (outdated : list OutdatedItem) :
  let out := dispatch env cfg st opts res outdated in
  sameMaps st (oSt out) /\ oCfg out = cfg /\ oErr out = None.
Proof.
  unfold dispatch, updateFailed, stamped.
  set (forced := ForceUpdate opts && negb (DryRun opts) && negb (NotifyOnly opts)).
  set (first := if forced then brew.Update (host env) (Verbose opts) else None).
  destruct first as [e|]; [cbn; repeat split|].
  destruct outdated as [|o l]; [cbn; repeat split|].
  destruct (DryRun opts || NotifyOnly opts); [cbn; repeat split|].
  apply refreshAndUpgrade_state.
Qed.

Lemma watchedKeys_fold (l : list WatchItem) (w : gset string) (k : string) :
  k ∈ List.fold_left (fun (w : gset string) it => {[Name it]} ∪ ({[keyOf it]} ∪ w)) l w
  <-> k ∈ w \/ exists it, In it l /\ (k = Name it \/ k = keyOf it).
Proof.
  revert w. induction l as [|x l IH]; intros w; cbn [List.fold_left].
  - split; [auto|]. intros [H|(it & [] & _)]. exact H.
  - rewrite IH. rewrite !elem_of_union, !elem_of_singleton. split.
    + intros [[H|[H|H]]|(it & Hin & H)].
      * right. exists x. split; [now left|auto].
      * right. exists x. split; [now left|auto].
      * now left.
      * right. exists it. split; [now right|auto].
    + intros [H|(it & [<-|Hin] & H)]; [auto| |].
      * left. destruct H; auto.
      * right. exists it. auto.
Qed.

Lemma elem_of_watchedKeys (l : list WatchItem) (k : string) :
  k ∈ watchedKeys l <-> exists it, In it l /\ (k = Name it \/ k = keyOf it).
Proof.
  unfold watchedKeys. rewrite watchedKeys_fold. split; [|auto].
  intros [H|H]; [|exact H]. now apply not_elem_of_empty in H.
Qed.

Lemma keepWatched_Some {V : Type} (w : gset string) (m : gmap string V) (k : string) :
  is_Some (keepWatched w m !! k) -> k ∈ w.
Proof.
  unfold keepWatched. intros [v Hv].
  apply map_lookup_filter_Some in Hv. now destruct Hv.
Qed.

Lemma cleanupStateKeys_tracked (cfg : Config) (st : State) :
  tracked (watchedKeys (Watchlist cfg)) (cleanupStateKeys cfg st).
Proof.
  intros k. unfold cleanupStateKeys. cbn.
  intros [H|[H|H]]; now apply keepWatched_Some in H.
Qed.

Lemma prepare_tracked (formulae casks : gmap string string) (cfg : Config) (st : State)
    removed cfg1 st1 installed :
  prepare formulae casks cfg st = (removed, cfg1, st1, installed) ->
  tracked (watchedKeys (Watchlist cfg1)) st1.
Proof.
  unfold prepare. destruct (List.fold_left _ _ _) as [[[r s] i] f].
  intros [= <- <- <- <-]. apply cleanupStateKeys_tracked.
Qed.

Lemma deliver_Permutation {A : Type} (picks : list nat) (l : list A) :
  Permutation (deliver picks l) l.
Proof.
  revert l. induction picks as [|p ps IH]; intros l; cbn [deliver]; [reflexivity|].
  destruct (l !! (p mod length l)%nat) as [x|] eqn:E; [|reflexivity].
  rewrite IH. symmetry. now apply delete_Permutation.
Qed.

Lemma In_fetchLatest (env : Env) (due : list WatchItem) (st : State) (r : fetchResult) :
  In r (fetchLatest env due st) <-> exists it, In it due /\ r = fetchOne env st it.
Proof.
  unfold fetchLatest. split.
  - intros H. eapply Permutation_in in H; [|apply deliver_Permutation].
    apply in_map_iff in H. destruct H as (it & <- & H). eauto.
  - intros (it & H & ->). eapply Permutation_in; [symmetry; apply deliver_Permutation|].
    now apply in_map.
Qed.

Lemma dueCopy_same (it : WatchItem) :
  Name (dueCopy it) = Name it /\ Typ (dueCopy it) = Typ it /\ keyOf (dueCopy it) = keyOf it
  /\ Policy (dueCopy it) = Policy it.
Proof. unfold dueCopy. destruct (IntervalMin it =? 0); repeat split. Qed.

Lemma In_dueItems (cfg : Config) (st : State) (now : Z) (d : WatchItem) :
  In d (dueItems tf cfg st now)
  <-> isDue tf st now d = true /\ exists w, In w (Watchlist cfg) /\ d = dueCopy w.
Proof.
  unfold dueItems. rewrite filter_In, in_map_iff. split.
  - intros [(w & <- & H) Hd]. eauto.
  - intros [Hd (w & H & ->)]. eauto.
Qed.


(** The next-check map after one step of the loop over the results. *)
Lemma reconcileStep_next (sv : semver.Lib) (now : Z) (installed : gmap string string)
    (st : State) (outdated : list OutdatedItem) (r : fetchResult) :
  NextCheckAt (reconcileStep tf sv now installed (st, outdated) r).1
  = match err r with
    | Some _ => NextCheckAt st
    | None =>
        let m := <[keyOf (item r) := nextCheckString tf now (item r)]> (NextCheckAt st) in
        if negb (String.eqb (keyOf (item r)) (Name (item r)))
        then delete (Name (item r)) m else m
    end.
Proof.
  unfold reconcileStep. destruct (err r); [reflexivity|].
  destruct (notModified r); destruct (negb (String.eqb (etag r) ""));
    destruct (negb (String.eqb (latest r) ""));
    destruct (negb (String.eqb (keyOf (item r)) (Name (item r))));
    destruct (isOutdated _ _ _ _ _); reflexivity.
Qed.

Lemma reconcileStep_keys (sv : semver.Lib) (now : Z) (installed : gmap string string)
    (st : State) (outdated : list OutdatedItem) (r : fetchResult) (w : gset string) :
  keyOf (item r) ∈ w -> tracked w st ->
  tracked w (reconcileStep tf sv now installed (st, outdated) r).1.
Proof.
  intros Hk Ht k. unfold reconcileStep. destruct (err r); [apply Ht|].
  assert (Hins : forall (V : Type) (m : gmap string V) (v : V) (b : bool),
             is_Some ((if b then delete (Name (item r)) (<[keyOf (item r) := v]> m)
                       else <[keyOf (item r) := v]> m) !! k) ->
             k = keyOf (item r) \/ is_Some (m !! k)).
  { intros V m v b. destruct (decide (k = keyOf (item r))) as [->|Hne]; [auto|].
    destruct b.
    - destruct (decide (k = Name (item r))) as [->|Hnb].
      + rewrite lookup_delete_eq. intros [? [=]].
      + rewrite lookup_delete_ne, lookup_insert_ne by auto. auto.
    - rewrite lookup_insert_ne by auto. auto. }
  destruct (notModified r); destruct (negb (String.eqb (etag r) ""));
    destruct (negb (String.eqb (latest r) ""));
    destruct (negb (String.eqb (keyOf (item r)) (Name (item r)))) eqn:Eb;
    destruct (isOutdated _ _ _ _ _); cbn;
    intros [H|[H|H]];
    try (apply (Hins _ _ _ true) in H);
    try (apply (Hins _ _ _ false) in H);
    try (destruct H as [->|H]); try assumption; apply Ht; auto.
Qed.

Lemma reconcile_keys (sv : semver.Lib) (now : Z) (installed : gmap string string)
    (results : list fetchResult) (st : State) (outdated : list OutdatedItem)
    (w : gset string) :
  (forall r, In r results -> keyOf (item r) ∈ w) -> tracked w st ->
  tracked w (List.fold_left (reconcileStep tf sv now installed) results (st, outdated)).1.
Proof.
  revert st outdated. induction results as [|r l IH]; intros st outdated Hr Ht; [exact Ht|].
  cbn [List.fold_left].
  destruct (reconcileStep tf sv now installed (st, outdated) r) as [st' out'] eqn:E.
  apply IH; [intros r' H'; apply Hr; now right|].
  change st' with ((st', out').1). rewrite <- E.
  apply reconcileStep_keys; [apply Hr; now left|exact Ht].
Qed.



Lemma reconcile_next (sv : semver.Lib) (now : Z) (installed : gmap string string)
    (key v : string) (results : list fetchResult) (st : State)
    (outdated : list OutdatedItem) :
  (forall r, In r results -> err r = None -> keyOf (item r) = key ->
             nextCheckString tf now (item r) = v) ->
  (forall r, In r results -> Name (item r) = key -> keyOf (item r) = key) ->
  NextCheckAt st !! key = Some v
  \/ (exists r, In r results /\ err r = None /\ keyOf (item r) = key) ->
  NextCheckAt (List.fold_left (reconcileStep tf sv now installed) results (st, outdated)).1
    !! key = Some v.
Proof.
  revert st outdated. induction results as [|r l IH]; intros st outdated Hv Hb Hs.
  - destruct Hs as [Hs|(r & [] & _)]. exact Hs.
  - cbn [List.fold_left].
    destruct (reconcileStep tf sv now installed (st, outdated) r) as [st' out'] eqn:E.
    apply IH; [intros; apply Hv; auto; now right|intros; apply Hb; auto; now right|].
    assert (Hn := reconcileStep_next sv now installed st outdated r).
    rewrite E in Hn. cbn [fst] in Hn.
    destruct (err r) as [e|] eqn:Ee.
    + rewrite Hn. destruct Hs as [Hs|(r' & [<-|Hr'] & He & Hk)]; [auto|congruence|].
      right. eauto.
    + destruct (decide (keyOf (item r) = key)) as [Hk|Hk].
      * left. rewrite Hn. cbn zeta.
        rewrite <- (Hv r (or_introl eq_refl) Ee Hk). subst key.
        destruct (String.eqb (keyOf (item r)) (Name (item r))) eqn:Eb; cbn [negb].
        -- apply lookup_insert_eq.
        -- apply String.eqb_neq in Eb. rewrite lookup_delete_ne by congruence.
           apply lookup_insert_eq.
      * destruct Hs as [Hs|(r' & [<-|Hr'] & He & Hk')]; [|congruence|right; eauto].
        left. rewrite Hn. cbn zeta.
        assert (Hname : Name (item r) <> key).
        { intros H. apply Hk. apply Hb; [now left|exact H]. }
        destruct (negb (String.eqb (keyOf (item r)) (Name (item r)))).
        -- rewrite lookup_delete_ne, lookup_insert_ne by congruence. exact Hs.
        -- rewrite lookup_insert_ne by congruence. exact Hs.
Qed.

Lemma minutes_valid (n : Z) :
  ValidateInterval n = None -> gotime.wrap64 (n * gotime.Minute) = n * gotime.Minute.
Proof.
  unfold ValidateInterval, MinIntervalMin, MaxIntervalMin.
  destruct (n <? 1) eqn:E1; [discriminate|]. destruct (1440 <? n) eqn:E2; [discriminate|].
  intros _. apply Z.ltb_ge in E1, E2.
  unfold gotime.wrap64, gotime.Minute, gotime.Second.
  rewrite Z.mod_small; lia.
Qed.

Lemma dueCopy_valid (it : WatchItem) : ValidateInterval (IntervalMin it) = None -> dueCopy it = it.
Proof.
  unfold ValidateInterval, MinIntervalMin, dueCopy.
  destruct (IntervalMin it <? 1) eqn:E1; [discriminate|]. intros _.
  apply Z.ltb_ge in E1. destruct (IntervalMin it =? 0) eqn:E0; [|reflexivity].
  apply Z.eqb_eq in E0. lia.
Qed.

Lemma isDue_dueCopy (st : State) (now : Z) (it : WatchItem) :
  isDue tf st now (dueCopy it) = isDue tf st now it.
Proof. unfold dueCopy. now destruct (IntervalMin it =? 0). Qed.

Lemma recent_In (k : nat) (msg : string) (st : State) :
  recent k msg st -> In msg (LastErrors st).
Proof. intros (pre & suf & -> & _). apply in_elt. Qed.

Lemma recent_new (st : State) (msg : string) : recent 1 msg (appendError st msg).
Proof.
  unfold recent, appendError. cbn [LastErrors withLastErrors].
  destruct (20 <? length (LastErrors st ++ [msg]))%nat eqn:E.
  - apply Nat.ltb_lt in E. rewrite length_app in *. cbn [length] in *.
    exists (drop (length (LastErrors st) + 1 - 20) (LastErrors st)), [].
    split; [|cbn; lia]. apply drop_app_le. lia.
  - exists (LastErrors st), []. split; [reflexivity|cbn; lia].
Qed.

Lemma recent_step (k : nat) (msg x : string) (st : State) :
  recent k msg st -> (k < 20)%nat -> recent (S k) msg (appendError st x).
Proof.
  intros (pre & suf & Hl & Hk) Hlt.
  unfold recent, appendError. cbn [LastErrors withLastErrors]. rewrite Hl.
  replace ((pre ++ msg :: suf) ++ [x])%list with (pre ++ msg :: (suf ++ [x]))%list
    by (now rewrite <- app_assoc).
  destruct (20 <? length (pre ++ msg :: suf ++ [x]))%nat eqn:E.
  - apply Nat.ltb_lt in E. rewrite !length_app in *. cbn [length] in *.
    rewrite length_app in *. cbn [length] in *.
    exists (drop (length pre + S (length suf + 1) - 20) pre), (suf ++ [x])%list.
    split; [|rewrite length_app; cbn; lia]. apply drop_app_le. lia.
  - exists pre, (suf ++ [x])%list. split; [reflexivity|rewrite length_app; cbn; lia].
Qed.

Lemma recent_withLastCheckAt (k : nat) (msg : string) (st : State) (t : Z) :
  recent k msg st -> recent k msg (withLastCheckAt st t).
Proof. exact (fun H => H). Qed.

Lemma recent_withLastUpdateAt (k : nat) (msg : string) (st : State) (t : Z) :
  recent k msg st -> recent k msg (withLastUpdateAt st t).
Proof. exact (fun H => H). Qed.

Lemma In_notices (cfg : Config) (l : list OutdatedItem) (ev : Event) :
  In ev (List.map (notice cfg) l) -> exists o, In o l /\ ev = notice cfg o.
Proof. rewrite in_map_iff. intros (o & <- & H). eauto. Qed.

End Engine.

(** Case analysis of the action dispatch, one goal per [return]. *)
Ltac leaves :=
  repeat match goal with
    | |- context [match ?x with _ => _ end] =>
        lazymatch x with
        | context [match _ with _ => _ end] => fail
        | _ => destruct x eqn:?
        end
    end.

Ltac split_in H :=
  repeat (rewrite in_app_iff in H || cbn [In] in H);
  repeat match type of H with
    | _ \/ _ => destruct H as [H|H]
    | False => destruct H
    end.

Ltac recently :=
  lazymatch goal with
  | |- check.recent _ _ (check.withLastCheckAt _ _) => apply recent_withLastCheckAt; recently
  | |- check.recent _ _ (check.withLastUpdateAt _ _) => apply recent_withLastUpdateAt; recently
  | |- check.recent _ ?m (check.appendError _ ?m) =>
      first [apply recent_new | eapply recent_step; [recently|lia]]
  | |- check.recent _ _ (check.appendError _ _) => eapply recent_step; [recently|lia]
  end.

Section Dispatch.
Import config check.

Lemma dispatch_update_failed (env : Env) (cfg : Config) (st : State) (opts : Options)
    (res : Result) (outdated : list OutdatedItem) (e : string) :
  let out := dispatch env cfg st opts res outdated in
  In (EvUpdate (Some e)) (oTrace out) ->
  In ("brew update failed: " +:+ e) (LastErrors (oSt out))
  /\ In (notifyFailure cfg "brew update failed" e) (oTrace out)
  /\ (forall ev, In ev (oTrace out) -> isUpgrade ev = false).
Proof.
  cbn zeta.
  unfold dispatch, refreshAndUpgrade, updateFailed, stamped, upgrade, verifyFormula, verifyCask.
  rewrite !notifyUpdates_Updated, !notifyUpdates_forced.
  destruct (ForceUpdate opts), (DryRun opts), (NotifyOnly opts); cbn [andb orb negb];
    leaves; cbn [oTrace oSt]; intros H; split_in H;
    try discriminate H;
    try (apply In_notices in H; destruct H as (? & _ & H); discriminate H).
  all: injection H as <-.
  all: (split; [eapply recent_In; recently|split]).
  all: try (repeat rewrite in_app_iff; cbn [In]; tauto).
  all: intros ev Hev; split_in Hev; subst; try reflexivity.
Qed.


Lemma dispatch_query_failed (env : Env) (cfg : Config) (st : State) (opts : Options)
    (res : Result) (outdated : list OutdatedItem) (names : list string) (e : string) :
  let out := dispatch env cfg st opts res outdated in
  (In (EvOutdatedFormula names (inr e)) (oTrace out) ->
   In ("brew outdated formula failed: " +:+ e) (LastErrors (oSt out))
   /\ exists e', In (EvUpgradeFormula names e') (oTrace out))
  /\ (forall greedy,
        In (EvOutdatedCask names greedy (inr e)) (oTrace out) ->
        In ("brew outdated cask failed: " +:+ e) (LastErrors (oSt out))
        /\ exists e', In (EvUpgradeCask names greedy e') (oTrace out)).
Proof.
  cbn zeta.
  unfold dispatch, refreshAndUpgrade, updateFailed, stamped, upgrade, verifyFormula, verifyCask.
  rewrite !notifyUpdates_Updated, !notifyUpdates_forced.
  destruct (ForceUpdate opts), (DryRun opts), (NotifyOnly opts); cbn [andb orb negb];
    leaves; cbn [oTrace oSt]; (split; [intros H|intros greedy H]); split_in H;
    try discriminate H;
    try (apply In_notices in H; destruct H as (? & _ & H); discriminate H).
  all: injection H as <- <-; subst.
  all: try discriminate.
  all: (split; [eapply recent_In; recently|]).
  all: eexists; repeat rewrite in_app_iff; cbn [In]; eauto 10.
Qed.

Lemma dispatch_upgrade_failed (env : Env) (cfg : Config) (st : State) (opts : Options)
    (res : Result) (outdated : list OutdatedItem) (names : list string) (e : string) :
  let out := dispatch env cfg st opts res outdated in
  (In (EvUpgradeFormula names (Some e)) (oTrace out) ->
   In ("formula upgrade failed: " +:+ e) (LastErrors (oSt out))
   /\ In (notifyFailure cfg "formula upgrade failed" e) (oTrace out)
   /\ exists casks greedy e', In (EvUpgradeCask casks greedy e') (oTrace out))
  /\ (forall greedy,
        In (EvUpgradeCask names greedy (Some e)) (oTrace out) ->
        In ("cask upgrade failed: " +:+ e) (LastErrors (oSt out))
        /\ In (notifyFailure cfg "cask upgrade failed" e) (oTrace out)).
Proof.
  cbn zeta.
  unfold dispatch, refreshAndUpgrade, updateFailed, stamped, upgrade, verifyFormula, verifyCask.
  rewrite !notifyUpdates_Updated, !notifyUpdates_forced.
  destruct (ForceUpdate opts), (DryRun opts), (NotifyOnly opts); cbn [andb orb negb];
    leaves; cbn [oTrace oSt]; (split; [intros H|intros greedy H]); split_in H;
    try discriminate H;
    try (apply In_notices in H; destruct H as (? & _ & H); discriminate H).
  all: try (injection H as <- <-); try (injection H as <- <- <-); subst.
  all: (split; [eapply recent_In; recently|]).
  all: try (split; [repeat rewrite in_app_iff; cbn [In]; tauto|]).
  all: try (repeat rewrite in_app_iff; cbn [In]; tauto).
  all: do 3 eexists; repeat rewrite in_app_iff; cbn [In]; eauto 10.
Qed.


Lemma dispatch_notifications (env : Env) (cfg : Config) (st : State) (opts : Options)
    (res : Result) (outdated : list OutdatedItem) (ev : Event) :
  let out := dispatch env cfg st opts res outdated in
  In ev (oTrace out) -> isNotify ev = true ->
  (exists o, In o outdated /\ ev = notice cfg o)
  \/ (exists e, ev = notifyFailure cfg "brew update failed" e
                /\ In (EvUpdate (Some e)) (oTrace out))
  \/ (exists names e, ev = notifyFailure cfg "formula upgrade failed" e
                      /\ In (EvUpgradeFormula names (Some e)) (oTrace out))
  \/ (exists names greedy e, ev = notifyFailure cfg "cask upgrade failed" e
                             /\ In (EvUpgradeCask names greedy (Some e)) (oTrace out)).
Proof.
  cbn zeta.
  unfold dispatch, refreshAndUpgrade, updateFailed, stamped, upgrade, verifyFormula, verifyCask.
  rewrite !notifyUpdates_Updated, !notifyUpdates_forced.
  destruct (ForceUpdate opts), (DryRun opts), (NotifyOnly opts); cbn [andb orb negb];
    leaves; cbn [oTrace oSt]; intros H Hn; split_in H;
    try (subst ev; discriminate Hn);
    try (apply In_notices in H; left; exact H).
  all: subst ev; right.
  all: first
    [ left; eexists; split; [reflexivity|repeat rewrite in_app_iff; cbn [In]; tauto]
    | right; left; do 2 eexists; split;
      [reflexivity|repeat rewrite in_app_iff; cbn [In]; tauto]
    | right; right; do 3 eexists; split;
      [reflexivity|repeat rewrite in_app_iff; cbn [In]; tauto] ].
Qed.

(** Once an upgrade call is made, the stamps are set and the run ends
    with one notice per outdated item. *)
Lemma dispatch_upgraded (env : Env) (cfg : Config) (st : State) (opts : Options)
    (res : Result) (outdated : list OutdatedItem) (names : list string) (e : option string) :
  let out := dispatch env cfg st opts res outdated in
  In (EvUpgradeFormula names e) (oTrace out) ->
  DryRun opts = false /\ NotifyOnly opts = false
  /\ LastUpdateAt (oSt out) = Some (nowUpdate env)
  /\ LastCheckAt (oSt out) = Some (nowCheck env)
  /\ (exists pre, oTrace out = (pre ++ List.map (notice cfg) outdated)%list
                  /\ forall ev, In ev pre -> isNotify ev = true ->
                                exists title e', ev = notifyFailure cfg title e')
  /\ (exists casks greedy e', In (EvUpgradeCask casks greedy e') (oTrace out)
                              /\ Outdated (oRes out) = filterOutdated outdated names casks).
Proof.
  cbn zeta.
  unfold dispatch, refreshAndUpgrade, updateFailed, stamped, upgrade, verifyFormula, verifyCask.
  rewrite !notifyUpdates_Updated, !notifyUpdates_forced.
  destruct (ForceUpdate opts), (DryRun opts), (NotifyOnly opts); cbn [andb orb negb];
    leaves; cbn [oTrace oSt oRes]; intros H; split_in H;
    try discriminate H;
    try (apply In_notices in H; destruct H as (? & _ & H); discriminate H).
  all: injection H as <- <-.
  all: repeat (split; [reflexivity|]).
  all: split;
    [ eexists; split; [reflexivity|];
      intros ev Hev Hn; split_in Hev; subst ev; try discriminate Hn;
      do 2 eexists; reflexivity
    | do 3 eexists; split; [repeat rewrite in_app_iff; cbn [In]; eauto 10|reflexivity] ].
Qed.

End Dispatch.

Section RunLevel.
Import config check.
Context (tf : gotime.Layout).

(** [Run] either makes no call at all or is the action dispatch on the
    outdated list of the run, with the policy settings of the input. *)
Lemma Run_dispatch (sv : semver.Lib) (env : Env) (cfg : Config) (st : State) (opts : Options) :
  oTrace (Run tf sv env cfg st opts) = []
  \/ exists cfg1 st2 res,
       Run tf sv env cfg st opts
       = dispatch env cfg1 st2 opts res (runOutdated tf sv env cfg st)
       /\ cfg1 = withWatchlist cfg (Watchlist cfg1).
Proof.
  unfold Run, runOutdated.
  destruct (brew.ListInstalled (host env)) as [[formulae casks]|e0]; [|now left].
  destruct (prepare formulae casks cfg st) as [[[removed cfg1] st1] installed] eqn:Ep.
  apply prepare_cfg in Ep.
  destruct (dueItems tf cfg1 st1 (now env)) as [|d due] eqn:Ed; [now left|].
  destruct (List.fold_left _ _ _) as [st2 outd]. cbn [snd].
  right. eauto.
Qed.

End RunLevel.

Section Migration.
Import config check.

Lemma append_length (a b : string) :
  String.length (a +:+ b) = (String.length a + String.length b)%nat.
Proof. induction a as [|c a IH]; simpl; [reflexivity|f_equal; exact IH]. Qed.

Lemma WatchKey_typed (name typ : string) : typ <> "" -> WatchKey name typ <> name.
Proof.
  intros Ht. unfold WatchKey. apply String.eqb_neq in Ht. rewrite Ht.
  intros H. apply (f_equal String.length) in H.
  rewrite !append_length in H. cbn in H. lia.
Qed.

Lemma copyForward_keeps {V : Type} (name key k : string) (v : V) (m : gmap string V) :
  m !! k = Some v -> copyForward name key m !! k = Some v.
Proof.
  intros H. unfold copyForward. destruct (m !! name); [|exact H].
  destruct (m !! key) eqn:E; [exact H|].
  rewrite lookup_insert_ne; [exact H|]. intros ->. congruence.
Qed.

Lemma copyForward_other {V : Type} (name key k : string) (m : gmap string V) :
  k <> key -> copyForward name key m !! k = m !! k.
Proof.
  intros H. unfold copyForward. destruct (m !! name); [|reflexivity].
  destruct (m !! key); [reflexivity|]. now rewrite lookup_insert_ne.
Qed.

Lemma copyForward_at {V : Type} (name key : string) (v : V) (m : gmap string V) :
  m !! name = Some v -> m !! key = None -> copyForward name key m !! key = Some v.
Proof.
  intros Hn Hk. unfold copyForward. rewrite Hn, Hk. apply lookup_insert_eq.
Qed.

(** One of the three per-item maps, as a view of the state that
    [normalizeItem] updates by [copyForward]. *)
Context {V : Type} (get : State -> gmap string V).
Hypothesis get_normalizeItem : forall st it,
  get (normalizeItem st it)
  = if String.eqb (keyOf it) (Name it) then get st
    else copyForward (Name it) (keyOf it) (get st).

Lemma normalize_keeps (l : list WatchItem) (st : State) (k : string) (v : V) :
  get st !! k = Some v -> get (List.fold_left normalizeItem l st) !! k = Some v.
Proof.
  revert st. induction l as [|x l IH]; intros st H; [exact H|].
  cbn [List.fold_left]. apply IH. rewrite get_normalizeItem.
  destruct (String.eqb (keyOf x) (Name x)); [exact H|]. now apply copyForward_keeps.
Qed.

Lemma normalize_copies (l : list WatchItem) (st : State) (w : WatchItem) (v : V) :
  In w l -> keyOf w <> Name w ->
  (forall w', In w' l -> keyOf w' = keyOf w -> Name w' = Name w) ->
  get st !! Name w = Some v ->
  get st !! keyOf w = None \/ get st !! keyOf w = Some v ->
  get (List.fold_left normalizeItem l st) !! keyOf w = Some v.
Proof.
  revert st. induction l as [|x l IH]; intros st Hin Hne Huniq Hn Hk; [destruct Hin|].
  cbn [List.fold_left].
  assert (Hn' : get (normalizeItem st x) !! Name w = Some v).
  { rewrite get_normalizeItem. destruct (String.eqb (keyOf x) (Name x)); [exact Hn|].
    now apply copyForward_keeps. }
  assert (Hk' : keyOf x = keyOf w ->
                get (normalizeItem st x) !! keyOf w = Some v).
  { intros Hx. rewrite get_normalizeItem.
    assert (Name x = Name w) as Hnx by (apply Huniq; [now left|exact Hx]).
    destruct (String.eqb (keyOf x) (Name x)) eqn:Eb.
    - apply String.eqb_eq in Eb. congruence.
    - rewrite Hx, Hnx. destruct Hk as [Hk|Hk].
      + now apply copyForward_at.
      + now apply copyForward_keeps. }
  destruct (decide (keyOf x = keyOf w)) as [Hx|Hx].
  - apply normalize_keeps. auto.
  - destruct Hin as [->|Hin]; [congruence|].
    apply IH; [exact Hin|exact Hne|intros w' Hw'; apply Huniq; now right|exact Hn'|].
    rewrite get_normalizeItem. destruct (String.eqb (keyOf x) (Name x)); [exact Hk|].
    rewrite copyForward_other by congruence. exact Hk.
Qed.

End Migration.

Section Collection.
Import config check.

Lemma keepWatched_member {V : Type} (w : gset string) (m : gmap string V) (k : string) :
  k ∈ w -> keepWatched w m !! k = m !! k.
Proof.
  intros Hk. unfold keepWatched. destruct (m !! k) as [v|] eqn:E.
  - apply map_lookup_filter_Some. auto.
  - apply map_lookup_filter_None. left. exact E.
Qed.

End Collection.


Lemma sample_reportsAsked : check.reportsAsked Sample.goodHost.
Proof.
  assert (Hself : forall x : string, incl [x] [x]) by (intros x; apply incl_refl).
  intros names. split.
  - intros r. unfold brew.OutdatedFormula.
    destruct names as [|x l]; [intros [= <-]; apply incl_refl|].
    unfold brew.run. cbn [brew.brewPath brew.command Sample.goodHost].
    repeat (destruct (decide _) as [Heq|_]; [try discriminate Heq|]).
    + injection Heq as -> ->. vm_compute. intros [= <-]. apply Hself.
    + vm_compute. intros [= <-]. intros y [].
  - intros greedy r. unfold brew.OutdatedCask.
    destruct names as [|x l]; [intros [= <-]; apply incl_refl|].
    unfold brew.run. cbn [brew.brewPath brew.command Sample.goodHost].
    destruct greedy; cbn [app];
      repeat (destruct (decide _) as [Heq|_]; [try discriminate Heq|]).
    + injection Heq as -> ->. vm_compute. intros [= <-]. apply Hself.
    + vm_compute. intros [= <-]. intros y [].
    + injection Heq as -> ->. vm_compute. intros [= <-]. intros y [<-|[]]. right. now left.
    + vm_compute. intros [= <-]. intros y [].
Qed.

(** The sample runs, evaluated. *)
Lemma sample_run_due :
  check.runDue gotime.unixLayout Sample.env Sample.cfg config.DefaultState
  = [Sample.watch "a" "formula" "" 5; Sample.watch "b" "formula" "notify" 10;
     Sample.watch "c" "cask" "auto" 15].
Proof. vm_compute. reflexivity. Qed.

Lemma sample_run_outdated :
  check.Outdated (check.oRes Sample.run)
  = [{| check.Item := Sample.watch "a" "formula" "" 5;
        check.Installed := "1.0.0"; check.Latest := "1.1.0" |};
     {| check.Item := Sample.watch "c" "cask" "auto" 15;
        check.Installed := "1.0.0"; check.Latest := "1.1.0" |}].
Proof. vm_compute. reflexivity. Qed.

Lemma sample_legacyRun_watchlist :
  config.Watchlist (check.oCfg Sample.legacyRun) = config.Watchlist Sample.cfg.
Proof. vm_compute. reflexivity. Qed.



(** C1, as stated, fails: the package [a] is watched without kind under
    policy "notify" and as a formula under policy "auto"; the pruning
    step gives both items the kind "formula", both are outdated, and
    the name of the "notify" item is handed to the formula upgrade. *)
Lemma upgrade_names_auto_counterexample :
  exists o,
    In o (check.runOutdated gotime.unixLayout semver.reference Sample.env Sample.twice
            config.DefaultState)
    /\ check.effectivePolicy Sample.twice (check.Item o) = "notify"
    /\ config.Typ (check.Item o) = "formula"
    /\ In (check.EvUpgradeFormula [config.Name (check.Item o)] None)
         (check.oTrace Sample.twiceRun).
Proof.
  exists {| check.Item := Sample.watch "a" "formula" "notify" 5;
            check.Installed := "1.0.0"; check.Latest := "1.1.0" |}.
  vm_compute. repeat split; repeat (first [left; reflexivity | right]).
Qed.

(** C1, amended: when the package manager's outdated report names only
    packages it was asked about, every name handed to the formula
    upgrade belongs to an outdated item of the run that is not a cask
    and whose effective policy is "auto", and every name handed to the
    cask upgrade to an outdated cask of effective policy "auto",
    whatever the run options; an outdated item of another effective
    policy, such as "notify", that shares its name and kind with no
    other outdated item is in neither list. *)
Theorem upgrade_names_auto (tf : gotime.Layout) (sv : semver.Lib) (env : check.Env)
    (cfg : config.Config) (st : config.State) (opts : check.Options) :
  check.reportsAsked (check.host env) ->
  let out := check.Run tf sv env cfg st opts in
  let outdated := check.runOutdated tf sv env cfg st in
  (forall names e n,
      In (check.EvUpgradeFormula names e) (check.oTrace out) -> In n names ->
      exists o, In o outdated /\ config.Name (check.Item o) = n
                /\ check.effectivePolicy cfg (check.Item o) = "auto"
                /\ config.Typ (check.Item o) <> "cask")
  /\ (forall names greedy e n,
        In (check.EvUpgradeCask names greedy e) (check.oTrace out) -> In n names ->
        exists o, In o outdated /\ config.Name (check.Item o) = n
                  /\ check.effectivePolicy cfg (check.Item o) = "auto"
                  /\ config.Typ (check.Item o) = "cask")
  /\ (forall o,
        In o outdated ->
        check.effectivePolicy cfg (check.Item o) <> "auto" ->
        (forall o', In o' outdated ->
                    config.Name (check.Item o') = config.Name (check.Item o) ->
                    (config.Typ (check.Item o') = "cask" <-> config.Typ (check.Item o) = "cask") ->
                    o' = o) ->
        (forall names e, In (check.EvUpgradeFormula names e) (check.oTrace out) ->
                         config.Typ (check.Item o) <> "cask" ->
                         ~ In (config.Name (check.Item o)) names)
        /\ (forall names greedy e, In (check.EvUpgradeCask names greedy e) (check.oTrace out) ->
                                   config.Typ (check.Item o) = "cask" ->
                                   ~ In (config.Name (check.Item o)) names)).
Proof.
  intros Hc out outdated.
  assert (core :
    (forall names e n,
        In (check.EvUpgradeFormula names e) (check.oTrace out) -> In n names ->
        exists o, In o outdated /\ config.Name (check.Item o) = n
                  /\ check.effectivePolicy cfg (check.Item o) = "auto"
                  /\ config.Typ (check.Item o) <> "cask")
    /\ (forall names greedy e n,
          In (check.EvUpgradeCask names greedy e) (check.oTrace out) -> In n names ->
          exists o, In o outdated /\ config.Name (check.Item o) = n
                    /\ check.effectivePolicy cfg (check.Item o) = "auto"
                    /\ config.Typ (check.Item o) = "cask")).
  { subst out outdated. unfold check.Run, check.runOutdated.
    destruct (brew.ListInstalled (check.host env)) as [[formulae casks]|e0];
      [|split; intros; contradiction].
    destruct (check.prepare formulae casks cfg st) as [[[removed cfg1] st1] installed] eqn:Ep.
    apply prepare_cfg in Ep.
    destruct (check.dueItems tf cfg1 st1 (check.now env)) as [|d due] eqn:Ed;
      [split; intros; contradiction|].
    destruct (List.fold_left _ _ _) as [st2 outd]. cbn [snd].
    split.
    - intros names e n Hin Hn.
      apply dispatch_upgrade_calls in Hin; [|assumption].
      apply (proj1 Hin names e eq_refl) in Hn.
      apply (proj1 (splitByType_names cfg1 outd n)) in Hn.
      destruct Hn as (o & Ho & Hname & Hp & Ht). exists o.
      rewrite Ep, effectivePolicy_withWatchlist in Hp. auto.
    - intros names greedy e n Hin Hn.
      apply dispatch_upgrade_calls in Hin; [|assumption].
      apply (proj2 Hin names greedy e eq_refl) in Hn.
      apply (proj2 (splitByType_names cfg1 outd n)) in Hn.
      destruct Hn as (o & Ho & Hname & Hp & Ht). exists o.
      rewrite Ep, effectivePolicy_withWatchlist in Hp. auto. }
  destruct core as [HF HC]. split; [exact HF|split; [exact HC|]].
  intros o Ho Hpol Huniq. split.
  - intros names e Hin Ht Hn.
    destruct (HF names e _ Hin Hn) as (o' & Ho' & Hname & Hp & Ht').
    assert (o' = o) as -> by (apply Huniq; tauto). contradiction.
  - intros names greedy e Hin Ht Hn.
    destruct (HC names greedy e _ Hin Hn) as (o' & Ho' & Hname & Hp & Ht').
    assert (o' = o) as -> by (apply Huniq; tauto). contradiction.
Qed.

Lemma upgrade_names_auto_witness :
  exists o, In o (check.runOutdated gotime.unixLayout semver.reference Sample.env
                    Sample.cfg config.DefaultState)
            /\ config.Name (check.Item o) = "a"
            /\ check.effectivePolicy Sample.cfg (check.Item o) = "auto"
            /\ config.Typ (check.Item o) <> "cask".
Proof.
  apply (proj1 (upgrade_names_auto gotime.unixLayout semver.reference Sample.env
                  Sample.cfg config.DefaultState Sample.opts sample_reportsAsked)
           ["a"] None "a").
  - vm_compute. tauto.
  - now left.
Defined.

Lemma second_floor (t : Z) :
  t - gotime.Second < gotime.Unix (gotime.toUnix t) <= t.
Proof.
  unfold gotime.Unix, gotime.toUnix, gotime.Second.
  pose proof (Z.div_mod t 1000000000 ltac:(lia)) as Hd.
  pose proof (Z.mod_pos_bound t 1000000000 ltac:(lia)) as Hm. lia.
Qed.

(** C3, as stated, fails: the next-check time is recorded at the
    resolution of a second.  In a run that starts 0.7 s after second
    1000, the item [a] (interval 5 minutes) gets the record of second
    1300, and it is due 0.2 s after second 1300, half a second before
    the instant of the run plus its interval. *)
Lemma due_schedule_counterexample :
  let it := Sample.watch "a" "formula" "" 5 in
  let next := check.now Sample.fractionEnv + config.IntervalMin it * gotime.Minute in
  let early := 1300 * gotime.Second + 200000000 in
  config.NextCheckAt (check.oSt Sample.fractionRun) !! check.keyOf it
  = Some (gotime.Format gotime.unixLayout next)
  /\ early < next
  /\ In it (check.dueItems gotime.unixLayout (check.oCfg Sample.fractionRun)
              (check.oSt Sample.fractionRun) early).
Proof.
  vm_compute. repeat split; repeat (first [left; reflexivity | right]).
Qed.

(** C3, amended: a watched item is in the due list when neither its
    composite key nor its bare name has a recorded next-check time,
    when the recorded time does not parse, or when the instant of the
    check is not before it.  After a run in which an item with a valid
    interval is due and fetched without error, and no other due item
    carries its key, the next-check time recorded under its composite
    key is the rendering of the instant of the run plus its interval in
    minutes; the item is then due exactly from the instant that this
    record reads back as.  With a layout of second resolution that is
    the whole second of the run's instant plus the interval: the item
    is due from that instant on, is not due a second or more before it,
    and can be due less than a second before it. *)
Theorem due_schedule (tf : gotime.Layout) :
  (forall (cfg : config.Config) (st : config.State) (now : Z) (w : config.WatchItem),
      In w (config.Watchlist cfg) ->
      (config.NextCheckAt st !! check.keyOf w = None
       /\ config.NextCheckAt st !! config.Name w = None)
      \/ (exists s, check.nextCheckOf st w = Some s /\ gotime.Parse tf s = None)
      \/ (exists s t, check.nextCheckOf st w = Some s /\ gotime.Parse tf s = Some t
                      /\ gotime.Before now t = false) ->
      In (check.dueCopy w) (check.dueItems tf cfg st now))
  /\ (forall (sv : semver.Lib) (env : check.Env) (cfg : config.Config) (st : config.State)
             (opts : check.Options) (it : config.WatchItem) (r : check.fetchResult),
        gotime.Parse tf "" = None ->
        In it (check.runDue tf env cfg st) ->
        config.ValidateInterval (config.IntervalMin it) = None ->
        check.runFetch env cfg st it = Some r -> check.err r = None ->
        (forall d, In d (check.runDue tf env cfg st) ->
                   check.keyOf d = check.keyOf it \/ config.Name d = check.keyOf it -> d = it) ->
        let out := check.Run tf sv env cfg st opts in
        let next := check.now env + config.IntervalMin it * gotime.Minute in
        config.NextCheckAt (check.oSt out) !! check.keyOf it = Some (gotime.Format tf next)
        /\ (forall t,
              gotime.Parse tf (gotime.Format tf next) = Some t ->
              forall now',
                In it (check.dueItems tf (check.oCfg out) (check.oSt out) now') <-> t <= now')
        /\ (gotime.Parse tf (gotime.Format tf next) = Some (gotime.Unix (gotime.toUnix next)) ->
            forall now',
              (now' <= next - gotime.Second ->
               ~ In it (check.dueItems tf (check.oCfg out) (check.oSt out) now'))
              /\ (next <= now' ->
                  In it (check.dueItems tf (check.oCfg out) (check.oSt out) now'))
              /\ (In it (check.dueItems tf (check.oCfg out) (check.oSt out) now')
                  <-> gotime.Unix (gotime.toUnix next) <= now'))).
Proof.
  split.
  - intros cfg st now w Hw H. apply In_dueItems. split; [|eauto].
    rewrite isDue_dueCopy. unfold check.isDue.
    destruct H as [[Hk Hn]|[(s & Hs & Hp)|(s & t & Hs & Hp & Hb)]].
    + unfold check.nextCheckOf. rewrite Hk, Hn. now destruct (negb _).
    + rewrite Hs, Hp. now destruct (String.eqb s "").
    + rewrite Hs, Hp, Hb. now destruct (String.eqb s "").
  - intros sv env cfg st opts it r Hempty Hdue Hvalid Hfetch Herr Huniq out next.
    assert (Hrec : config.NextCheckAt (check.oSt out) !! check.keyOf it
                   = Some (gotime.Format tf next)
                   /\ exists w, In w (config.Watchlist (check.oCfg out))
                                /\ it = check.dueCopy w).
    { subst out next. revert Hdue Hfetch Huniq. unfold check.runDue, check.runFetch, check.Run.
      destruct (brew.ListInstalled (check.host env)) as [[formulae casks]|e0]; [|intros []].
      destruct (check.prepare formulae casks cfg st) as [[[removed cfg1] st1] installed].
      intros Hdue [= <-] Huniq.
      destruct (check.dueItems tf cfg1 st1 (check.now env)) as [|d due] eqn:Ed; [destruct Hdue|].
      rewrite <- Ed in *.
      destruct (List.fold_left _ _ _) as [st2 outd] eqn:Ef.
      match goal with
      | |- context [check.dispatch ?e ?c ?s ?o ?r ?l] =>
          destruct (dispatch_state e c s o r l) as ((Hn & _) & Hc & _)
      end.
      split; [|rewrite Hc; apply In_dueItems in Hdue; tauto].
      rewrite Hn. change st2 with ((st2, outd).1). rewrite <- Ef.
      rewrite <- (minutes_valid _ Hvalid).
      apply reconcile_next.
      - intros r Hr _ Hk. apply In_fetchLatest in Hr. destruct Hr as (d' & Hd' & ->).
        cbn [check.item check.fetchOne] in *. now rewrite (Huniq d' Hd' (or_introl Hk)).
      - intros r Hr Hk. apply In_fetchLatest in Hr. destruct Hr as (d' & Hd' & ->).
        cbn [check.item check.fetchOne] in *. now rewrite (Huniq d' Hd' (or_intror Hk)).
      - right. exists (check.fetchOne env st1 it). split; [|split; [exact Herr|reflexivity]].
        apply In_fetchLatest. eauto. }
    destruct Hrec as [Hrec Hw].
    assert (Hiff : forall t,
               gotime.Parse tf (gotime.Format tf next) = Some t ->
               forall now',
                 In it (check.dueItems tf (check.oCfg out) (check.oSt out) now') <-> t <= now').
    { intros t Hp now'. rewrite In_dueItems.
      unfold check.isDue, check.nextCheckOf. rewrite Hrec.
      destruct (String.eqb (gotime.Format tf next) "") eqn:Es.
      { apply String.eqb_eq in Es. rewrite Es in Hp. congruence. }
      rewrite Hp. unfold gotime.Before. rewrite negb_true_iff, Z.ltb_ge. tauto. }
    split; [exact Hrec|]. split; [exact Hiff|].
    intros Hp now'. pose proof (second_floor next) as Hfl.
    repeat split.
    + rewrite (Hiff _ Hp). lia.
    + intros H. apply (Hiff _ Hp). lia.
    + apply (Hiff _ Hp).
    + apply (Hiff _ Hp).
Qed.

(** C7: after a run that returns without error, every key of the
    next-check, last-version and last-scheme maps is the composite key
    or the bare name of an item of the surviving watchlist; a key that
    belongs to no surviving item has no entry in any of the three. *)
Theorem state_keys_watched (tf : gotime.Layout) (sv : semver.Lib) (env : check.Env)
    (cfg : config.Config) (st : config.State) (opts : check.Options) :
  let out := check.Run tf sv env cfg st opts in
  check.oErr out = None ->
  (forall k : string,
      is_Some (config.NextCheckAt (check.oSt out) !! k)
      \/ is_Some (config.LastVersions (check.oSt out) !! k)
      \/ is_Some (config.LastSchemes (check.oSt out) !! k) ->
      exists it, In it (config.Watchlist (check.oCfg out))
                 /\ (k = check.keyOf it \/ k = config.Name it))
  /\ (forall k : string,
        (forall it, In it (config.Watchlist (check.oCfg out)) ->
                    k <> check.keyOf it /\ k <> config.Name it) ->
        config.NextCheckAt (check.oSt out) !! k = None
        /\ config.LastVersions (check.oSt out) !! k = None
        /\ config.LastSchemes (check.oSt out) !! k = None).
Proof.
  intros out Herr.
  assert (Ht : check.tracked (check.watchedKeys (config.Watchlist (check.oCfg out))) (check.oSt out)).
  { subst out. revert Herr. unfold check.Run.
    destruct (brew.ListInstalled (check.host env)) as [[formulae casks]|e0]; [|discriminate].
    destruct (check.prepare formulae casks cfg st) as [[[removed cfg1] st1] installed] eqn:Ep.
    apply prepare_tracked in Ep.
    destruct (check.dueItems tf cfg1 st1 (check.now env)) as [|d due] eqn:Ed.
    { intros _. cbn [check.oCfg check.oSt]. intros k Hk. apply Ep. exact Hk. }
    rewrite <- Ed.
    destruct (List.fold_left _ _ _) as [st2 outd] eqn:Ef.
    intros _.
    match goal with
    | |- context [check.dispatch ?e ?c ?s ?o ?r ?l] =>
        destruct (dispatch_state e c s o r l) as ((Hn & Hv & Hs) & Hc & _)
    end.
    rewrite Hc. intros k. rewrite Hn, Hv, Hs.
    change st2 with ((st2, outd).1). rewrite <- Ef.
    apply reconcile_keys; [|exact Ep].
    intros r Hr. apply In_fetchLatest in Hr. destruct Hr as (it & Hit & ->).
    apply In_dueItems in Hit. destruct Hit as (_ & w & Hw & ->).
    cbn [check.item check.fetchOne]. apply elem_of_watchedKeys.
    exists w. split; [exact Hw|]. right. apply dueCopy_same. }
  split.
  - intros k Hk. apply Ht in Hk. apply elem_of_watchedKeys in Hk.
    destruct Hk as (it & Hit & [H|H]); exists it; auto.
  - intros k Hk.
    assert (Hn : ~ k ∈ check.watchedKeys (config.Watchlist (check.oCfg out))).
    { rewrite elem_of_watchedKeys. intros (it & Hit & [H|H]); destruct (Hk it Hit); auto. }
    repeat split; apply eq_None_not_Some; intros H; apply Hn, Ht; auto.
Qed.

Lemma due_schedule_witness :
  let it := Sample.watch "a" "formula" "" 5 in
  let out := check.Run gotime.unixLayout semver.reference Sample.env Sample.cfg
               config.DefaultState Sample.opts in
  let next := check.now Sample.env + config.IntervalMin it * gotime.Minute in
  config.NextCheckAt (check.oSt out) !! check.keyOf it
  = Some (gotime.Format gotime.unixLayout next)
  /\ ~ In it (check.dueItems gotime.unixLayout (check.oCfg out) (check.oSt out)
                (next - gotime.Second))
  /\ In it (check.dueItems gotime.unixLayout (check.oCfg out) (check.oSt out) next).
Proof.
  cbn zeta.
  pose proof (proj2 (due_schedule gotime.unixLayout) semver.reference Sample.env Sample.cfg
                config.DefaultState Sample.opts (Sample.watch "a" "formula" "" 5)
                (check.fetchOne Sample.env config.DefaultState
                   (Sample.watch "a" "formula" "" 5))) as H.
  cbn zeta in H. destruct H as (Hrec & _ & Hsec).
  - vm_compute. reflexivity.
  - rewrite sample_run_due. now left.
  - vm_compute. reflexivity.
  - vm_compute. reflexivity.
  - vm_compute. reflexivity.
  - rewrite sample_run_due. intros d Hd.
    repeat (destruct Hd as [<-|Hd]; [intros [H|H]; try reflexivity; discriminate H|]).
    destruct Hd.
  - split; [exact Hrec|].
    assert (Hp : gotime.Parse gotime.unixLayout
                   (gotime.Format gotime.unixLayout
                      (check.now Sample.env
                       + config.IntervalMin (Sample.watch "a" "formula" "" 5) * gotime.Minute))
                 = Some (gotime.Unix (gotime.toUnix
                      (check.now Sample.env
                       + config.IntervalMin (Sample.watch "a" "formula" "" 5) * gotime.Minute))))
      by (vm_compute; reflexivity).
    split.
    + apply (proj1 (Hsec Hp _)). lia.
    + apply (proj1 (proj2 (Hsec Hp _))). lia.
Defined.

Lemma state_keys_watched_witness :
  config.NextCheckAt (check.oSt Sample.legacyRun) !! "gone" = None
  /\ config.LastVersions (check.oSt Sample.legacyRun) !! "gone" = None
  /\ config.LastSchemes (check.oSt Sample.legacyRun) !! "gone" = None.
Proof.
  refine (proj2 (state_keys_watched gotime.unixLayout semver.reference Sample.env Sample.cfg
                   Sample.legacy Sample.opts _) "gone" _).
  - vm_compute. reflexivity.
  - fold Sample.legacyRun. rewrite sample_legacyRun_watchlist. intros it Hit.
    repeat (destruct Hit as [<-|Hit]; [split; discriminate|]).
    destruct Hit.
Defined.

(** C4, as stated, fails: when the outdated query fails, the run sends
    no failure notification and still makes the upgrade call. *)
Lemma package_manager_failures_counterexample :
  ~ (forall names e,
        In (check.EvOutdatedFormula names (inr e)) (check.oTrace Sample.brokenRun) ->
        (exists method message execute,
            In (check.EvNotify method "brew-updater failed" message execute)
              (check.oTrace Sample.brokenRun))
        /\ (forall ev, In ev (check.oTrace Sample.brokenRun) -> check.isUpgrade ev = false)).
Proof.
  intros H.
  destruct (H ["a"] "brew outdated --quiet --formula a failed: exit status 1: ") as [_ Hup].
  { vm_compute. tauto. }
  specialize (Hup (check.EvUpgradeFormula ["a"] None)).
  assert (In (check.EvUpgradeFormula ["a"] None) (check.oTrace Sample.brokenRun)) as Hin
      by (vm_compute; tauto).
  apply Hup in Hin. discriminate Hin.
Qed.

(** C4, amended: every run that makes a call returns without error.  A
    failed index refresh is recorded in the error ring, raises a failure
    notification and ends the run before any upgrade call.  A failed
    outdated query is recorded in the error ring and the upgrade call is
    made with the names that were asked about.  A failed upgrade call is
    recorded and raises a failure notification, and after a failed
    formula upgrade the cask upgrade call is still made.  Failure
    notifications are raised for failed refreshes and upgrades only. *)
Theorem package_manager_failures (tf : gotime.Layout) (sv : semver.Lib) (env : check.Env)
    (cfg : config.Config) (st : config.State) (opts : check.Options) :
  let out := check.Run tf sv env cfg st opts in
  let errors := config.LastErrors (check.oSt out) in
  let trace := check.oTrace out in
  (forall ev, In ev trace -> check.oErr out = None)
  /\ (forall e, In (check.EvUpdate (Some e)) trace ->
                In ("brew update failed: " +:+ e) errors
                /\ In (check.notifyFailure cfg "brew update failed" e) trace
                /\ forall ev, In ev trace -> check.isUpgrade ev = false)
  /\ (forall names e, In (check.EvOutdatedFormula names (inr e)) trace ->
                      In ("brew outdated formula failed: " +:+ e) errors
                      /\ exists e', In (check.EvUpgradeFormula names e') trace)
  /\ (forall names greedy e, In (check.EvOutdatedCask names greedy (inr e)) trace ->
                             In ("brew outdated cask failed: " +:+ e) errors
                             /\ exists e', In (check.EvUpgradeCask names greedy e') trace)
  /\ (forall names e, In (check.EvUpgradeFormula names (Some e)) trace ->
                      In ("formula upgrade failed: " +:+ e) errors
                      /\ In (check.notifyFailure cfg "formula upgrade failed" e) trace
                      /\ exists casks greedy e', In (check.EvUpgradeCask casks greedy e') trace)
  /\ (forall names greedy e, In (check.EvUpgradeCask names greedy (Some e)) trace ->
                             In ("cask upgrade failed: " +:+ e) errors
                             /\ In (check.notifyFailure cfg "cask upgrade failed" e) trace)
  /\ (forall ev, In ev trace -> check.isNotify ev = true ->
        (exists o, In o (check.runOutdated tf sv env cfg st) /\ ev = check.notice cfg o)
        \/ (exists e, ev = check.notifyFailure cfg "brew update failed" e
                      /\ In (check.EvUpdate (Some e)) trace)
        \/ (exists names e, ev = check.notifyFailure cfg "formula upgrade failed" e
                            /\ In (check.EvUpgradeFormula names (Some e)) trace)
        \/ (exists names greedy e, ev = check.notifyFailure cfg "cask upgrade failed" e
                                   /\ In (check.EvUpgradeCask names greedy (Some e)) trace)).
Proof.
  intros out errors trace. subst out errors trace.
  destruct (Run_dispatch tf sv env cfg st opts) as [Hnil|(cfg1 & st2 & res & -> & Hcfg)].
  { rewrite Hnil. repeat split; intros; contradiction. }
  replace (check.notifyFailure cfg) with (check.notifyFailure cfg1)
    by (rewrite Hcfg; reflexivity).
  replace (check.notice cfg) with (check.notice cfg1) by (rewrite Hcfg; reflexivity).
  split; [intros _ _; apply dispatch_state|].
  split; [intros e; apply dispatch_update_failed|].
  split; [intros names e; apply dispatch_query_failed|].
  split; [intros names greedy e; apply dispatch_query_failed|].
  split; [intros names e; apply dispatch_upgrade_failed|].
  split; [intros names greedy e; apply dispatch_upgrade_failed|].
  intros ev. apply dispatch_notifications.
Qed.

Lemma package_manager_failures_witness :
  In ("brew outdated formula failed: "
      +:+ "brew outdated --quiet --formula a failed: exit status 1: ")
    (config.LastErrors (check.oSt Sample.brokenRun))
  /\ exists e', In (check.EvUpgradeFormula ["a"] e') (check.oTrace Sample.brokenRun).
Proof.
  apply (proj1 (proj2 (proj2 (package_manager_failures gotime.unixLayout semver.reference
                                Sample.brokenEnv Sample.cfg config.DefaultState Sample.opts)))
           ["a"] "brew outdated --quiet --formula a failed: exit status 1: ").
  vm_compute. tauto.
Defined.

(** C5, as stated, fails: the notify-policy item [b] is outdated, does
    not survive the re-verification filter, and is notified all the
    same. *)
Lemma upgrade_path_notices_counterexample :
  ~ (forall o,
        In o (check.runOutdated gotime.unixLayout semver.reference Sample.env Sample.cfg
                config.DefaultState) ->
        (In (check.notice Sample.cfg o) (check.oTrace Sample.run)
         <-> In o (check.Outdated (check.oRes Sample.run)))).
Proof.
  intros H.
  specialize (H {| check.Item := Sample.watch "b" "formula" "notify" 10;
                   check.Installed := "1.0.0"; check.Latest := "1.1.0" |}).
  destruct H as [H _]; [vm_compute; tauto|].
  assert (Hin : In (check.notice Sample.cfg
                      {| check.Item := Sample.watch "b" "formula" "notify" 10;
                         check.Installed := "1.0.0"; check.Latest := "1.1.0" |})
                  (check.oTrace Sample.run)) by (vm_compute; tauto).
  apply H in Hin. rewrite sample_run_outdated in Hin.
  destruct Hin as [Hin|[Hin|[]]]; discriminate Hin.
Qed.

(** C5, amended: a run that makes the upgrade call is neither a dry run
    nor notify-only; it stamps the last-update and last-check times and
    ends with one notification for each outdated item of the run, in
    order, whatever the item's policy and whether or not it survived the
    re-verification filter; only the outdated list of the returned
    result is narrowed to the survivors. *)
Theorem upgrade_path_notices (tf : gotime.Layout) (sv : semver.Lib) (env : check.Env)
    (cfg : config.Config) (st : config.State) (opts : check.Options)
    (names : list string) (e : option string) :
  let out := check.Run tf sv env cfg st opts in
  let outdated := check.runOutdated tf sv env cfg st in
  In (check.EvUpgradeFormula names e) (check.oTrace out) ->
  check.DryRun opts = false /\ check.NotifyOnly opts = false
  /\ config.LastUpdateAt (check.oSt out) = Some (check.nowUpdate env)
  /\ config.LastCheckAt (check.oSt out) = Some (check.nowCheck env)
  /\ (exists pre, check.oTrace out = (pre ++ List.map (check.notice cfg) outdated)%list
                  /\ forall ev, In ev pre -> check.isNotify ev = true ->
                                exists title e', ev = check.notifyFailure cfg title e')
  /\ (exists casks greedy e',
         In (check.EvUpgradeCask casks greedy e') (check.oTrace out)
         /\ check.Outdated (check.oRes out) = check.filterOutdated outdated names casks).
Proof.
  intros out outdated. subst out outdated.
  destruct (Run_dispatch tf sv env cfg st opts) as [Hnil|(cfg1 & st2 & res & -> & Hcfg)].
  { rewrite Hnil. intros []. }
  replace (check.notifyFailure cfg) with (check.notifyFailure cfg1)
    by (rewrite Hcfg; reflexivity).
  replace (check.notice cfg) with (check.notice cfg1) by (rewrite Hcfg; reflexivity).
  apply dispatch_upgraded.
Qed.

Lemma upgrade_path_notices_witness :
  config.LastUpdateAt (check.oSt Sample.run) = Some (check.nowUpdate Sample.env)
  /\ In (check.notice Sample.cfg
           {| check.Item := Sample.watch "b" "formula" "notify" 10;
              check.Installed := "1.0.0"; check.Latest := "1.1.0" |})
       (check.oTrace Sample.run).
Proof.
  destruct (upgrade_path_notices gotime.unixLayout semver.reference Sample.env Sample.cfg
              config.DefaultState Sample.opts ["a"] None)
    as (_ & _ & Hu & _ & (pre & Htr & _) & _).
  - vm_compute. tauto.
  - split; [exact Hu|].
    change (check.oTrace Sample.run) with
      (check.oTrace (check.Run gotime.unixLayout semver.reference Sample.env Sample.cfg
                       config.DefaultState Sample.opts)).
    rewrite Htr. apply in_or_app. right. vm_compute. tauto.
Defined.

(** C6, as stated, fails: [b] carries a kind, is filed under its bare
    name only and survives the run; its fetch fails, and afterwards its
    version and scheme are filed under the composite key and still
    under the bare name.  No time string is read in this run. *)
Lemma key_migration_counterexample :
  In (Sample.watch "b" "formula" "notify" 10) (config.Watchlist (check.oCfg Sample.flakyRun))
  /\ config.LastVersions Sample.bareVersions !! "formula:b" = None
  /\ config.LastVersions Sample.bareVersions !! "b" = Some "1.0.0"
  /\ config.LastVersions (check.oSt Sample.flakyRun) !! "formula:b" = Some "1.0.0"
  /\ config.LastVersions (check.oSt Sample.flakyRun) !! "b" = Some "1.0.0"
  /\ config.LastSchemes (check.oSt Sample.flakyRun) !! "b" = Some 0.
Proof.
  vm_compute. repeat split; repeat (first [left; reflexivity | right]).
Qed.

(** C6, amended: the key migration never changes or removes an entry
    that is present, bare-name entries included; for a watch item that
    carries a kind and shares its composite key with no item of another
    name, each bare-name entry (next-check, last-version, last-scheme)
    whose composite key is free is filed under the composite key with
    the same value; the orphan collection keeps the entries under both
    key forms of every item of the watchlist.  Bare-name entries go in
    two places.  The pruning of an item that is not installed deletes
    the next-check and last-version entries under the item's composite
    key and under its bare name (a surviving item of the same name
    loses them too) and leaves the schemes alone; an installed item
    changes nothing there.  The loop over the fetch results, for an
    item with a kind that was fetched without error, deletes the
    bare-name next-check entry, and, unless the answer was
    not-modified, the bare-name scheme entry and (for a non-empty
    fetched version) the bare-name version entry; a failed fetch leaves
    the three maps as they are. *)
Theorem key_migration (cfg : config.Config) (st : config.State) :
  let st' := check.normalizeStateKeys cfg st in
  (forall k,
      (forall v, config.NextCheckAt st !! k = Some v -> config.NextCheckAt st' !! k = Some v)
      /\ (forall v, config.LastVersions st !! k = Some v ->
                    config.LastVersions st' !! k = Some v)
      /\ (forall v, config.LastSchemes st !! k = Some v ->
                    config.LastSchemes st' !! k = Some v))
  /\ (forall w,
        In w (config.Watchlist cfg) -> config.Typ w <> "" ->
        (forall w', In w' (config.Watchlist cfg) -> check.keyOf w' = check.keyOf w ->
                    config.Name w' = config.Name w) ->
        (forall v, config.NextCheckAt st !! check.keyOf w = None ->
                   config.NextCheckAt st !! config.Name w = Some v ->
                   config.NextCheckAt st' !! check.keyOf w = Some v)
        /\ (forall v, config.LastVersions st !! check.keyOf w = None ->
                      config.LastVersions st !! config.Name w = Some v ->
                      config.LastVersions st' !! check.keyOf w = Some v)
        /\ (forall v, config.LastSchemes st !! check.keyOf w = None ->
                      config.LastSchemes st !! config.Name w = Some v ->
                      config.LastSchemes st' !! check.keyOf w = Some v))
  /\ (forall w k,
        In w (config.Watchlist cfg) -> k = config.Name w \/ k = check.keyOf w ->
        config.NextCheckAt (check.cleanupStateKeys cfg st) !! k = config.NextCheckAt st !! k
        /\ config.LastVersions (check.cleanupStateKeys cfg st) !! k
           = config.LastVersions st !! k
        /\ config.LastSchemes (check.cleanupStateKeys cfg st) !! k
           = config.LastSchemes st !! k)
  /\ (forall formulae casks removed installed filtered it,
        let st1 := (check.pruneStep formulae casks (removed, st, installed, filtered) it).1.1.2 in
        ((check.installedVersion formulae casks it).2 = true -> st1 = st)
        /\ ((check.installedVersion formulae casks it).2 = false ->
            config.NextCheckAt st1
            = delete (config.Name it) (delete (check.keyOf it) (config.NextCheckAt st))
            /\ config.LastVersions st1
               = delete (config.Name it) (delete (check.keyOf it) (config.LastVersions st))
            /\ config.LastSchemes st1 = config.LastSchemes st))
  /\ (forall tf sv now installed outdated r,
        let st1 := (check.reconcileStep tf sv now installed (st, outdated) r).1 in
        (check.err r <> None -> check.sameMaps st st1)
        /\ (check.err r = None ->
            check.keyOf (check.item r) <> config.Name (check.item r) ->
            config.NextCheckAt st1 !! config.Name (check.item r) = None
            /\ (check.notModified r = true ->
                config.LastVersions st1 = config.LastVersions st
                /\ config.LastSchemes st1 = config.LastSchemes st)
            /\ (check.notModified r = false ->
                config.LastSchemes st1 !! config.Name (check.item r) = None
                /\ (check.latest r <> "" ->
                    config.LastVersions st1 !! config.Name (check.item r) = None)
                /\ (check.latest r = "" ->
                    config.LastVersions st1 = config.LastVersions st)))).
Proof.
  assert (Hn : forall s it, config.NextCheckAt (check.normalizeItem s it)
                 = if String.eqb (check.keyOf it) (config.Name it) then config.NextCheckAt s
                   else check.copyForward (config.Name it) (check.keyOf it)
                          (config.NextCheckAt s)).
  { intros s it. unfold check.normalizeItem.
    now destruct (String.eqb (check.keyOf it) (config.Name it)). }
  assert (Hv : forall s it, config.LastVersions (check.normalizeItem s it)
                 = if String.eqb (check.keyOf it) (config.Name it) then config.LastVersions s
                   else check.copyForward (config.Name it) (check.keyOf it)
                          (config.LastVersions s)).
  { intros s it. unfold check.normalizeItem.
    now destruct (String.eqb (check.keyOf it) (config.Name it)). }
  assert (Hs : forall s it, config.LastSchemes (check.normalizeItem s it)
                 = if String.eqb (check.keyOf it) (config.Name it) then config.LastSchemes s
                   else check.copyForward (config.Name it) (check.keyOf it)
                          (config.LastSchemes s)).
  { intros s it. unfold check.normalizeItem.
    now destruct (String.eqb (check.keyOf it) (config.Name it)). }
  cbn zeta. unfold check.normalizeStateKeys. split; [|split; [|split; [|split]]].
  - intros k. repeat split; intros v; eauto using normalize_keeps.
  - intros w Hw Ht Huniq.
    assert (Hne : check.keyOf w <> config.Name w) by (now apply WatchKey_typed).
    repeat split; intros v Hk Hb;
      [apply (normalize_copies _ Hn)|apply (normalize_copies _ Hv)
      |apply (normalize_copies _ Hs)]; auto.
  - intros w k Hw Hk.
    assert (Hin : k ∈ check.watchedKeys (config.Watchlist cfg)).
    { apply elem_of_watchedKeys. exists w. tauto. }
    unfold check.cleanupStateKeys. cbn.
    repeat split; now apply keepWatched_member.
  - intros formulae casks removed installed filtered it. unfold check.pruneStep.
    destruct (check.installedVersion formulae casks it) as [[v t] ok]. cbn [snd].
    destruct ok; cbn [negb fst snd]; split; intros H; try discriminate H; auto.
  - intros tf sv now installed outdated r. split.
    + unfold check.reconcileStep. destruct (check.err r); [|congruence].
      intros _. cbn. apply sameMaps_appendError.
    + intros He Hne. split; [|split].
      * rewrite reconcileStep_next, He. cbn zeta.
        apply String.eqb_neq in Hne. rewrite Hne. cbn [negb]. apply lookup_delete_eq.
      * intros Hm. unfold check.reconcileStep. rewrite He, Hm.
        destruct (negb (String.eqb (check.keyOf (check.item r)) (config.Name (check.item r))));
          destruct (check.isOutdated _ _ _ _ _); split; reflexivity.
      * intros Hm. apply String.eqb_neq in Hne.
        unfold check.reconcileStep. rewrite He, Hm, Hne. cbn [negb].
        destruct (String.eqb (check.etag r) ""); cbn [negb];
          destruct (String.eqb_spec (check.latest r) ""); cbn [negb];
          destruct (check.isOutdated _ _ _ _ _); cbn;
          (split; [apply lookup_delete_eq|split; intros Hl; try congruence;
                                           try reflexivity; apply lookup_delete_eq]).
Qed.

Lemma key_migration_witness :
  config.NextCheckAt (check.normalizeStateKeys Sample.cfg Sample.legacy) !! "formula:a"
  = Some "5000".
Proof.
  refine (proj1 (proj1 (proj2 (key_migration Sample.cfg Sample.legacy))
                   (Sample.watch "a" "formula" "" 5) _ _ _) "5000" _ _).
  - now left.
  - discriminate.
  - intros w' Hw'.
    repeat (destruct Hw' as [<-|Hw']; [intros H; first [reflexivity|discriminate H]|]).
    destruct Hw'.
  - vm_compute. reflexivity.
  - vm_compute. reflexivity.
Defined.

(** ** The process lock *)

(** C9: on an existing lock file with well-formed content, a live owner
    and an age within the timeout, [Acquire] fails at once with "lock
    already held" and leaves the file alone; with malformed content, a
    dead owner or an age beyond the timeout, the first pass of the loop
    does not return, and the call ends in the second pass with a new
    lock file that holds the caller's process id and the Unix time then
    read from the clock. *)
Theorem Acquire_existing (sys : lock.Sys) (p : string) (timeout : Z)
    (data : string) (n : nat) :
  let w := {| lock.file := lock.Present data; lock.ticks := n |} in
  (forall owner ts fuel,
      lock.parseLock data = Some (owner, ts) ->
      lock.alive sys owner = true ->
      lock.Since (lock.clock sys n) ts <= timeout ->
      lock.Acquire (S fuel) sys p timeout w
      = Some (inr "lock already held",
              {| lock.file := lock.Present data; lock.ticks := S n |}))
  /\ (forall fuel,
        lock.parseLock data = None
        \/ (exists owner ts, lock.parseLock data = Some (owner, ts)
                             /\ lock.alive sys owner = false) ->
        lock.Acquire 1 sys p timeout w = None
        /\ lock.Acquire (S (S fuel)) sys p timeout w
           = Some (inl {| lock.path := p |},
                   {| lock.file :=
                        lock.Present (GoStrings.Itoa (lock.pid sys) +:+ "|"
                                      +:+ GoStrings.Itoa (gotime.toUnix (lock.clock sys n)));
                      lock.ticks := S n |}))
  /\ (forall owner ts fuel,
        lock.parseLock data = Some (owner, ts) ->
        lock.alive sys owner = true ->
        timeout < lock.Since (lock.clock sys n) ts ->
        lock.Acquire 1 sys p timeout w = None
        /\ lock.Acquire (S (S fuel)) sys p timeout w
           = Some (inl {| lock.path := p |},
                   {| lock.file :=
                        lock.Present (GoStrings.Itoa (lock.pid sys) +:+ "|"
                                      +:+ GoStrings.Itoa (gotime.toUnix (lock.clock sys (S n))));
                      lock.ticks := S (S n) |})).
Proof.
  cbn zeta. split; [|split].
  - intros owner ts fuel Hp Ha Hle.
    cbn [lock.Acquire lock.isStale lock.file lock.ticks].
    rewrite Hp, Ha. cbn [negb].
    apply Z.ltb_ge in Hle. now rewrite Hle.
  - intros fuel H.
    cbn [lock.Acquire lock.isStale lock.file lock.ticks].
    destruct H as [-> | (owner & ts & -> & ->)]; cbn [negb]; split; reflexivity.
  - intros owner ts fuel Hp Ha Hlt.
    cbn [lock.Acquire lock.isStale lock.file lock.ticks].
    rewrite Hp, Ha. cbn [negb].
    apply Z.ltb_lt in Hlt. rewrite Hlt. split; reflexivity.
Qed.

Lemma Acquire_existing_witness :
  let sys := {| lock.pid := 77; lock.alive := fun q => q =? 42;
                lock.clock := fun k => (2000 + Z.of_nat k) * gotime.Second |} in
  lock.Acquire 1 sys "lock" (600 * gotime.Second)
    {| lock.file := lock.Present "42|1900"; lock.ticks := 0 |}
  = Some (inr "lock already held",
          {| lock.file := lock.Present "42|1900"; lock.ticks := 1 |})
  /\ lock.Acquire 2 sys "lock" (600 * gotime.Second)
       {| lock.file := lock.Present "41|1900"; lock.ticks := 0 |}
     = Some (inl {| lock.path := "lock" |},
             {| lock.file := lock.Present "77|2000"; lock.ticks := 1 |})
  /\ lock.Acquire 2 sys "lock" (600 * gotime.Second)
       {| lock.file := lock.Present "42|1000"; lock.ticks := 0 |}
     = Some (inl {| lock.path := "lock" |},
             {| lock.file := lock.Present "77|2001"; lock.ticks := 2 |}).
Proof.
  intros sys. split; [|split].
  - apply (proj1 (Acquire_existing sys "lock" (600 * gotime.Second) "42|1900" 0) 42 1900 0%nat).
    + reflexivity.
    + reflexivity.
    + vm_compute. discriminate.
  - apply (proj1 (proj2 (Acquire_existing sys "lock" (600 * gotime.Second) "41|1900" 0)) 0%nat).
    right. exists 41, 1900. split; reflexivity.
  - apply (proj2 (proj2 (Acquire_existing sys "lock" (600 * gotime.Second) "42|1000" 0))
             42 1000 0%nat).
    + reflexivity.
    + reflexivity.
    + vm_compute. reflexivity.
Defined.

(** * Further properties of the code *)

Section ConfigLoad.
Import config configLoad.

Lemma loopInv_empty : loopInv [] ∅.
Proof.
  repeat split.
  - intros k i H. now rewrite lookup_empty in H.
  - intros k [].
  - constructor.
Qed.

Lemma keys_insert_same (deduped : list WatchItem) (idx : nat) (it : WatchItem) :
  List.map check.keyOf deduped !! idx = Some (check.keyOf it) ->
  List.map check.keyOf (<[idx := it]> deduped) = List.map check.keyOf deduped.
Proof.
  intros H. change (List.map check.keyOf) with (fmap (M := list) check.keyOf) in *.
  rewrite list_fmap_insert. now apply list_insert_id.
Qed.

Lemma loopInv_append (deduped : list WatchItem) (seen : gmap string nat) (it : WatchItem) :
  loopInv deduped seen -> seen !! check.keyOf it = None ->
  loopInv (deduped ++ [it]) (<[check.keyOf it := length deduped]> seen).
Proof.
  intros (Ha & Hb & Hc) Hnone. unfold loopInv. rewrite !List.map_app. cbn [List.map]. repeat split.
  - intros k i. destruct (decide (check.keyOf it = k)) as [<-|Hne].
    + rewrite lookup_insert_eq. intros [= <-].
      rewrite lookup_app_r by (rewrite length_map; lia).
      rewrite length_map, Nat.sub_diag. reflexivity.
    + rewrite lookup_insert_ne by exact Hne. intros H. apply Ha in H.
      rewrite lookup_app_l; [exact H|]. now apply lookup_lt_Some in H.
  - intros k Hk. apply in_app_or in Hk. destruct Hk as [Hk|[<-|[]]].
    + destruct (decide (check.keyOf it = k)) as [<-|Hne].
      * rewrite lookup_insert_eq. eauto.
      * rewrite lookup_insert_ne by exact Hne. auto.
    + rewrite lookup_insert_eq. eauto.
  - apply NoDup_app. split; [exact Hc|]. split.
    + intros k Hk [<-|[]]%list_elem_of_In. apply list_elem_of_In, Hb in Hk.
      rewrite Hnone in Hk. now destruct Hk.
    + apply NoDup_singleton.
Qed.

Lemma keyOf_stored (now : Z) (item : WatchItem) : check.keyOf (stored now item) = check.keyOf item.
Proof.
  unfold stored. destruct (IntervalMin item =? 0); cbn;
    match goal with |- context [if ?b then _ else _] => destruct b end; reflexivity.
Qed.

(** One pass of the loop, seen from outside: either the error of the
    first bad interval, or the loop goes on with the keys of [deduped]
    grown by at most the key of the item. *)
Lemma normalizeItems_step (now : Z) (item : WatchItem) (rest deduped : list WatchItem)
    (seen : gmap string nat) :
  loopInv deduped seen ->
  (ValidateInterval (IntervalMin (stored now item)) <> None
   /\ exists e, normalizeItems now (item :: rest) deduped seen = inr e)
  \/ (ValidateInterval (IntervalMin (stored now item)) = None
      /\ exists it deduped' seen',
          normalizeItems now (item :: rest) deduped seen
          = normalizeItems now rest deduped' seen'
          /\ loopInv deduped' seen'
          /\ Name it = Name item /\ Typ it = Typ item /\ Policy it = Policy item
          /\ IntervalMin it = IntervalMin (stored now item)
          /\ (IsZero now = false -> IsZero (AddedAt it) = false)
          /\ In it deduped'
          /\ (forall x, In x deduped' -> x = it \/ In x deduped)
          /\ (forall k, In k (List.map check.keyOf deduped')
                        <-> k = check.keyOf item \/ In k (List.map check.keyOf deduped))
          /\ (seen !! check.keyOf item = None -> IsZero (AddedAt item) = false ->
              IntervalMin item <> 0 -> deduped' = (deduped ++ [item])%list)
          /\ (forall x, In x deduped -> check.keyOf x <> check.keyOf item -> In x deduped')).
Proof.
  intros Hinv. pose proof Hinv as (Ha & Hb & Hc).
  cbn [normalizeItems]. unfold stored.
  set (it1 := if IntervalMin item =? 0 then withInterval item DefaultIntervalMin else item).
  assert (H1 : Name it1 = Name item /\ Typ it1 = Typ item /\ Policy it1 = Policy item
               /\ AddedAt it1 = AddedAt item
               /\ (IntervalMin item <> 0 -> it1 = item)).
  { subst it1. destruct (IntervalMin item =? 0) eqn:E; cbn; repeat split; auto.
    intros H. apply Z.eqb_eq in E. contradiction. }
  destruct H1 as (Hn1 & Ht1 & Hp1 & Ha1 & Hsame1).
  assert (Hi2 : IntervalMin (if IsZero (AddedAt it1) then withAddedAt it1 now else it1)
                = IntervalMin it1) by (now destruct (IsZero (AddedAt it1))).
  rewrite Hi2.
  destruct (ValidateInterval (IntervalMin it1)) as [e|] eqn:Ev.
  { left. split; [discriminate|eauto]. }
  right. split; [reflexivity|].
  set (it2 := if IsZero (AddedAt it1) then withAddedAt it1 now else it1).
  assert (H2 : Name it2 = Name item /\ Typ it2 = Typ item /\ Policy it2 = Policy item
               /\ IntervalMin it2 = IntervalMin it1
               /\ (IsZero now = false -> IsZero (AddedAt it2) = false)
               /\ (IsZero (AddedAt item) = false -> it2 = it1)).
  { subst it2. rewrite Ha1. destruct (IsZero (AddedAt item)) eqn:E; cbn;
      repeat split; auto; try discriminate; rewrite ?Ha1; auto. }
  destruct H2 as (Hn2 & Ht2 & Hp2 & Hi2' & Hz2 & Hsame2).
  assert (Hkey : WatchKey (Name it2) (Typ it2) = check.keyOf item)
    by (unfold check.keyOf; now rewrite Hn2, Ht2).
  rewrite Hkey.
  destruct (seen !! check.keyOf item) as [idx|] eqn:Es.
  - pose proof (Ha _ _ Es) as Hidx.
    destruct (deduped !! idx) as [old|] eqn:Eo.
    2:{ change (List.map check.keyOf) with (fmap (M := list) check.keyOf) in Hidx.
        rewrite list_lookup_fmap, Eo in Hidx. discriminate. }
    set (it3 := if negb (IsZero (AddedAt old)) && gotime.Before (AddedAt old) (AddedAt it2)
                then withAddedAt it2 (AddedAt old) else it2).
    assert (H3 : Name it3 = Name item /\ Typ it3 = Typ item /\ Policy it3 = Policy item
                 /\ IntervalMin it3 = IntervalMin it1
                 /\ (IsZero now = false -> IsZero (AddedAt it3) = false)).
    { subst it3. destruct (IsZero (AddedAt old)) eqn:E; cbn [negb andb]; [repeat split; auto|].
      destruct (gotime.Before (AddedAt old) (AddedAt it2)); cbn; repeat split; auto. }
    destruct H3 as (Hn3 & Ht3 & Hp3 & Hi3 & Hz3).
    assert (Hk3 : check.keyOf it3 = check.keyOf item)
      by (unfold check.keyOf; now rewrite Hn3, Ht3).
    assert (Hkeys : List.map check.keyOf (<[idx := it3]> deduped)
                    = List.map check.keyOf deduped).
    { apply keys_insert_same. now rewrite Hk3. }
    exists it3, (<[idx := it3]> deduped), seen.
    split; [reflexivity|]. split.
    { unfold loopInv. rewrite Hkeys. exact Hinv. }
    repeat split; auto.
    + apply list_elem_of_In, list_elem_of_lookup. exists idx.
      apply list_lookup_insert_eq. now apply lookup_lt_Some in Eo.
    + intros x Hx. apply list_elem_of_In, list_elem_of_lookup in Hx. destruct Hx as [j Hj].
      destruct (decide (j = idx)) as [->|Hne].
      * rewrite list_lookup_insert_eq in Hj by (now apply lookup_lt_Some in Eo).
        left. congruence.
      * rewrite list_lookup_insert_ne in Hj by auto. right.
        apply list_elem_of_In, list_elem_of_lookup. eauto.
    + rewrite Hkeys. auto.
    + rewrite Hkeys. intros [->|H]; [|exact H].
      apply list_elem_of_In, list_elem_of_lookup. eauto.
    + discriminate.
    + intros x Hx Hne. apply list_elem_of_In, list_elem_of_lookup in Hx. destruct Hx as [j Hj].
      apply list_elem_of_In, list_elem_of_lookup. exists j.
      rewrite list_lookup_insert_ne; [exact Hj|]. intros <-.
      change (List.map check.keyOf) with (fmap (M := list) check.keyOf) in Hidx.
      rewrite list_lookup_fmap, Hj in Hidx. cbn in Hidx. congruence.
  - exists it2, (deduped ++ [it2])%list, (<[check.keyOf item := length deduped]> seen).
    assert (Hk2 : check.keyOf it2 = check.keyOf item)
      by (unfold check.keyOf; now rewrite Hn2, Ht2).
    split; [reflexivity|]. split.
    { rewrite <- Hk2. apply loopInv_append; [exact Hinv|now rewrite Hk2]. }
    repeat split; auto.
    + apply in_or_app. right. now left.
    + intros x Hx. apply in_app_or in Hx. destruct Hx as [Hx|[<-|[]]]; auto.
    + rewrite List.map_app. cbn [List.map]. rewrite Hk2. intros H%in_app_or.
      destruct H as [H|[<-|[]]]; auto.
    + rewrite List.map_app. cbn [List.map]. rewrite Hk2. intros [->|H]; apply in_or_app.
      * right. now left.
      * now left.
    + intros _ Hz Hi. now rewrite (Hsame2 Hz), (Hsame1 Hi).
    + intros x Hx _. apply in_or_app. now left.
Qed.


Lemma ValidateInterval_None (n : Z) :
  ValidateInterval n = None <-> MinIntervalMin <= n <= MaxIntervalMin.
Proof.
  unfold ValidateInterval, MinIntervalMin, MaxIntervalMin.
  destruct (n <? 1) eqn:E1; destruct (1440 <? n) eqn:E2; cbn; split; intros H;
    try discriminate; try reflexivity; lia.
Qed.

Lemma stored_interval (now : Z) (item : WatchItem) :
  ValidateInterval (IntervalMin (stored now item)) = None <-> acceptable item.
Proof.
  rewrite ValidateInterval_None. unfold stored, acceptable, MinIntervalMin, MaxIntervalMin.
  destruct (IntervalMin item =? 0) eqn:E.
  - apply Z.eqb_eq in E. cbn [withInterval AddedAt].
    destruct (IsZero (AddedAt item)); cbn; unfold DefaultIntervalMin; split; intros; auto; lia.
  - apply Z.eqb_neq in E. destruct (IsZero (AddedAt item)); cbn; split; intros H; auto;
      destruct H; auto; contradiction.
Qed.

Lemma normalizeItems_inl (now : Z) (items : list WatchItem) :
  forall deduped seen res,
    loopInv deduped seen ->
    normalizeItems now items deduped seen = inl res ->
    NoDup (List.map check.keyOf res)
    /\ (forall k, In k (List.map check.keyOf res)
                  <-> In k (List.map check.keyOf deduped) \/ In k (List.map check.keyOf items))
    /\ (forall x, In x res ->
          In x deduped
          \/ exists item, In item items /\ Name x = Name item /\ Typ x = Typ item
                           /\ Policy x = Policy item
                           /\ IntervalMin x = IntervalMin (stored now item)
                           /\ ValidateInterval (IntervalMin x) = None
                           /\ (IsZero now = false -> IsZero (AddedAt x) = false)).
Proof.
  induction items as [|item rest IH]; intros deduped seen res Hinv Hres.
  - cbn in Hres. injection Hres as <-. destruct Hinv as (_ & _ & Hnd).
    split; [exact Hnd|]. split; [|auto]. intros k. cbn. tauto.
  - destruct (normalizeItems_step now item rest deduped seen Hinv)
      as [(_ & e & He)|(Hv & it & d' & s' & Heq & Hinv' & Hn & Ht & Hp & Hi & Hz & Hin & Hfrom & Hkeys & _)].
    { rewrite He in Hres. discriminate. }
    rewrite Heq in Hres. destruct (IH _ _ _ Hinv' Hres) as (Hnd & Hk & Hx).
    split; [exact Hnd|]. split.
    + intros k. rewrite Hk, Hkeys. cbn [List.map In]. intuition congruence.
    + intros x Hin'. destruct (Hx x Hin') as [Hd|(item' & Hi' & Hrest)].
      * destruct (Hfrom x Hd) as [->|Hd']; [|now left].
        right. exists item. split; [now left|]. rewrite Hi. auto 10.
      * right. exists item'. split; [now right|exact Hrest].
Qed.

Lemma normalizeItems_inr (now : Z) (items : list WatchItem) :
  forall deduped seen,
    loopInv deduped seen ->
    (exists e, normalizeItems now items deduped seen = inr e)
    <-> exists item, In item items /\ ~ acceptable item.
Proof.
  induction items as [|item rest IH]; intros deduped seen Hinv.
  - cbn. split; [intros [e He]; discriminate|intros (item & [] & _)].
  - destruct (normalizeItems_step now item rest deduped seen Hinv)
      as [(Hv & e & He)|(Hv & it & d' & s' & Heq & Hinv' & _)].
    + split; [|eauto]. intros _. exists item. split; [now left|].
      intros Ha. apply Hv. now apply stored_interval.
    + rewrite Heq, (IH _ _ Hinv'). split.
      * intros (x & Hx & Hbad). exists x. split; [now right|exact Hbad].
      * intros (x & [<-|Hx] & Hbad); [|eauto].
        exfalso. apply Hbad. now apply stored_interval in Hv.
Qed.

(** The message of a failure names the first item whose interval is out
    of range. *)
Lemma normalizeItems_keeps (now : Z) (items : list WatchItem) :
  forall deduped seen res x,
    loopInv deduped seen ->
    normalizeItems now items deduped seen = inl res ->
    In x deduped -> ~ In (check.keyOf x) (List.map check.keyOf items) ->
    In x res.
Proof.
  induction items as [|item rest IH]; intros deduped seen res x Hinv Hres Hx Hnot.
  - cbn in Hres. now injection Hres as <-.
  - destruct (normalizeItems_step now item rest deduped seen Hinv)
      as [(_ & e & He)|(Hv & it & d' & s' & Heq & Hinv' & Hn & Ht & Hp & Hi & Hz & Hin & Hfrom & Hkeys & _ & Hkeep)].
    { rewrite He in Hres. discriminate. }
    rewrite Heq in Hres. apply (IH _ _ _ x Hinv' Hres).
    + apply Hkeep; [exact Hx|]. intros E. apply Hnot. left. now rewrite E.
    + intros H. apply Hnot. now right.
Qed.

Lemma normalizeItems_fixed (now : Z) (items : list WatchItem) :
  forall deduped seen,
    loopInv deduped seen ->
    NoDup (List.map check.keyOf items) ->
    (forall k, In k (List.map check.keyOf items) -> ~ In k (List.map check.keyOf deduped)) ->
    (forall it, In it items ->
       ValidateInterval (IntervalMin it) = None /\ IsZero (AddedAt it) = false) ->
    normalizeItems now items deduped seen = inl (deduped ++ items)%list.
Proof.
  induction items as [|item rest IH]; intros deduped seen Hinv Hnd Hdisj Hgood.
  - cbn. now rewrite app_nil_r.
  - destruct (Hgood item (or_introl eq_refl)) as [Hv Hz].
    assert (Hne : IntervalMin item <> 0).
    { apply ValidateInterval_None in Hv. unfold MinIntervalMin in Hv. lia. }
    assert (Hs : seen !! check.keyOf item = None).
    { destruct (seen !! check.keyOf item) as [i|] eqn:E; [|reflexivity].
      destruct Hinv as (Ha & _). apply Ha in E. exfalso.
      apply (Hdisj (check.keyOf item)); [now left|].
      apply list_elem_of_In, list_elem_of_lookup. eauto. }
    destruct (normalizeItems_step now item rest deduped seen Hinv)
      as [(Hbad & _)|(_ & it & d' & s' & Heq & Hinv' & _ & _ & _ & _ & _ & _ & _ & _ & Hsame & _)].
    { exfalso. apply Hbad. apply stored_interval. right. now apply ValidateInterval_None. }
    rewrite Heq, (Hsame Hs Hz Hne) in *. cbn [List.map] in Hnd. apply NoDup_cons in Hnd.
    destruct Hnd as [Hfresh Hnd]. rewrite IH.
    + now rewrite <- app_assoc.
    + exact Hinv'.
    + exact Hnd.
    + intros k Hk. rewrite List.map_app. cbn [List.map]. intros H%in_app_or.
      destruct H as [H|[<-|[]]].
      * apply (Hdisj k); [now right|exact H].
      * apply Hfresh. now apply list_elem_of_In.
    + intros it' Hit'. apply Hgood. now right.
Qed.


Lemma normalizeItems_app (now : Z) (l1 l2 : list WatchItem) :
  forall deduped seen res,
    loopInv deduped seen ->
    normalizeItems now (l1 ++ l2) deduped seen = inl res ->
    exists d1 s1, loopInv d1 s1 /\ normalizeItems now l2 d1 s1 = inl res.
Proof.
  induction l1 as [|item rest IH]; intros deduped seen res Hinv Hres.
  - eauto.
  - rewrite <- app_comm_cons in Hres.
    destruct (normalizeItems_step now item (rest ++ l2) deduped seen Hinv)
      as [(_ & e & He)|(_ & it & d' & s' & Heq & Hinv' & _)].
    { rewrite He in Hres. discriminate. }
    rewrite Heq in Hres. eauto.
Qed.

Lemma NormalizeConfig_inl (now : Z) (cfg cfg' : Config) :
  NormalizeConfig now cfg = (cfg', None) ->
  normalizeItems now (Watchlist cfg) [] ∅ = inl (Watchlist cfg')
  /\ Version cfg' = Version cfg
  /\ TickIntervalSec cfg' = DefaultTickInterval
  /\ DefaultPolicy cfg' = (if String.eqb (DefaultPolicy cfg) "" then DefaultPolicyName
                           else DefaultPolicy cfg)
  /\ NotifyMethod cfg' = (if String.eqb (NotifyMethod cfg) "" then DefaultNotifyMethodName
                          else NotifyMethod cfg)
  /\ IncludeAutoUpdateCask cfg' = IncludeAutoUpdateCask cfg.
Proof.
  unfold NormalizeConfig. cbn [Watchlist].
  destruct (normalizeItems now (Watchlist cfg) [] ∅) as [d|e]; [|discriminate].
  intros [= <-]. cbn. auto 10.
Qed.

Lemma defaulted_nonempty (s d : string) :
  d <> "" -> (if String.eqb s "" then d else s) <> "".
Proof.
  intros Hd. destruct (String.eqb s "") eqn:E; [exact Hd|]. now apply String.eqb_neq in E.
Qed.

End ConfigLoad.

(** X1: a configuration that [NormalizeConfig] accepts is normalized: the
    tick is 60 seconds, default policy and notify method are not empty,
    no two items of the watchlist share an identity key, every interval
    lies in 1..1440 and no item has the zero time as its date. *)
Theorem NormalizeConfig_normalized (now : Z) (cfg cfg' : config.Config) :
  configLoad.IsZero now = false ->
  configLoad.NormalizeConfig now cfg = (cfg', None) ->
  configLoad.normalized cfg'.
Proof.
  intros Hnow H. apply NormalizeConfig_inl in H.
  destruct H as (Hl & _ & Ht & Hp & Hm & _).
  destruct (normalizeItems_inl now _ _ _ _ loopInv_empty Hl) as (Hnd & _ & Hx).
  unfold configLoad.normalized. rewrite Ht, Hp, Hm.
  split; [reflexivity|]. split; [now apply defaulted_nonempty|].
  split; [now apply defaulted_nonempty|]. split; [exact Hnd|].
  intros it Hit. destruct (Hx it Hit) as [[]|(item & _ & _ & _ & _ & _ & Hv & Hz)]. auto.
Qed.

Lemma NormalizeConfig_normalized_witness :
  configLoad.normalized
    (fst (configLoad.NormalizeConfig configLoad.sampleNow
            configLoad.sampleFile)).
Proof.
  apply (NormalizeConfig_normalized configLoad.sampleNow
configLoad.sampleFile).
  - reflexivity.
  - vm_compute. reflexivity.
Defined.

(** X2: [NormalizeConfig] fails exactly when some item of the watchlist
    has an interval that is neither 0 (which stands for the default) nor
    in 1..1440; on failure the watchlist comes back as it was given. *)
Theorem NormalizeConfig_fails_iff (now : Z) (cfg : config.Config) :
  (snd (configLoad.NormalizeConfig now cfg) <> None
   <-> exists item, In item (config.Watchlist cfg) /\ ~ configLoad.acceptable item)
  /\ (snd (configLoad.NormalizeConfig now cfg) <> None ->
      config.Watchlist (fst (configLoad.NormalizeConfig now cfg)) = config.Watchlist cfg).
Proof.
  pose proof (normalizeItems_inr now (config.Watchlist cfg) [] ∅ loopInv_empty) as Hiff.
  unfold configLoad.NormalizeConfig. cbn [config.Watchlist].
  destruct (configLoad.normalizeItems now (config.Watchlist cfg) [] ∅) as [d|e]; cbn [fst snd].
  - split; [|intros H; now destruct H]. split; [intros H; now destruct H|].
    intros H. apply Hiff in H. destruct H as [e He]. discriminate.
  - split; [|reflexivity]. split; [|discriminate]. intros _. apply Hiff. eauto.
Qed.

(** X3: normalization keeps the set of identity keys of the watchlist (it
    only merges items that share a key), and leaves the version number
    and the greedy-cask switch alone. *)
Theorem NormalizeConfig_keys (now : Z) (cfg cfg' : config.Config) :
  configLoad.NormalizeConfig now cfg = (cfg', None) ->
  (forall k, In k (List.map check.keyOf (config.Watchlist cfg'))
             <-> In k (List.map check.keyOf (config.Watchlist cfg)))
  /\ (length (config.Watchlist cfg') <= length (config.Watchlist cfg))%nat
  /\ config.Version cfg' = config.Version cfg
  /\ config.IncludeAutoUpdateCask cfg' = config.IncludeAutoUpdateCask cfg.
Proof.
  intros H. apply NormalizeConfig_inl in H.
  destruct H as (Hl & Hv & _ & _ & _ & Hc).
  destruct (normalizeItems_inl now _ _ _ _ loopInv_empty Hl) as (Hnd & Hk & _).
  assert (Hkeys : forall k, In k (List.map check.keyOf (config.Watchlist cfg'))
             <-> In k (List.map check.keyOf (config.Watchlist cfg))).
  { intros k. rewrite Hk. cbn. tauto. }
  split; [exact Hkeys|]. split; [|auto].
  rewrite <- (length_map check.keyOf (config.Watchlist cfg')).
  rewrite <- (length_map check.keyOf (config.Watchlist cfg)).
  apply NoDup_incl_length; [now apply NoDup_ListNoDup|].
  intros k Hin. now apply Hkeys.
Qed.

Lemma NormalizeConfig_keys_witness :
  let cfg' := fst (configLoad.NormalizeConfig configLoad.sampleNow configLoad.sampleFile) in
  (forall k, In k (List.map check.keyOf (config.Watchlist cfg'))
             <-> In k (List.map check.keyOf (config.Watchlist configLoad.sampleFile)))
  /\ (length (config.Watchlist cfg') <= length (config.Watchlist configLoad.sampleFile))%nat
  /\ config.Version cfg' = config.Version configLoad.sampleFile
  /\ config.IncludeAutoUpdateCask cfg'
     = config.IncludeAutoUpdateCask configLoad.sampleFile.
Proof.
  apply (NormalizeConfig_keys configLoad.sampleNow configLoad.sampleFile).
  vm_compute. reflexivity.
Defined.

(** X4: normalization is idempotent: a configuration it has produced is
    returned unchanged by a second pass, whatever the second reading of
    the clock. *)
Theorem NormalizeConfig_idempotent (now now' : Z) (cfg cfg' : config.Config) :
  configLoad.IsZero now = false ->
  configLoad.NormalizeConfig now cfg = (cfg', None) ->
  configLoad.NormalizeConfig now' cfg' = (cfg', None).
Proof.
  intros Hnow H. apply NormalizeConfig_inl in H.
  destruct H as (Hl & _ & Ht & Hp & Hm & _).
  destruct (normalizeItems_inl now _ _ _ _ loopInv_empty Hl) as (Hnd & _ & Hx).
  unfold configLoad.NormalizeConfig. cbn [config.Watchlist].
  rewrite (normalizeItems_fixed now' (config.Watchlist cfg') [] ∅ loopInv_empty Hnd).
  - cbn [app]. unfold check.withWatchlist. cbn.
    assert (Hp' : String.eqb (config.DefaultPolicy cfg') "" = false).
    { apply String.eqb_neq. rewrite Hp. now apply defaulted_nonempty. }
    assert (Hm' : String.eqb (config.NotifyMethod cfg') "" = false).
    { apply String.eqb_neq. rewrite Hm. now apply defaulted_nonempty. }
    rewrite Hp', Hm', <- Ht. now destruct cfg'.
  - intros k _ [].
  - intros it Hit. destruct (Hx it Hit) as [[]|(item & _ & _ & _ & _ & _ & Hv & Hz)]. auto.
Qed.

Lemma NormalizeConfig_idempotent_witness :
  let cfg' := fst (configLoad.NormalizeConfig configLoad.sampleNow
                     configLoad.sampleFile) in
  configLoad.NormalizeConfig 200 cfg' = (cfg', None).
Proof.
  apply (NormalizeConfig_idempotent configLoad.sampleNow 200
configLoad.sampleFile).
  - reflexivity.
  - vm_compute. reflexivity.
Defined.

(** X5: among items that share an identity key the last one wins: the
    normalized watchlist holds, under that key, the policy of the last
    such item and its interval (5 when it was 0). *)
Theorem NormalizeConfig_last_wins (now : Z) (cfg cfg' : config.Config)
    (l1 l2 : list config.WatchItem) (item : config.WatchItem) :
  configLoad.NormalizeConfig now cfg = (cfg', None) ->
  config.Watchlist cfg = (l1 ++ item :: l2)%list ->
  ~ In (check.keyOf item) (List.map check.keyOf l2) ->
  exists x, In x (config.Watchlist cfg')
            /\ config.Name x = config.Name item /\ config.Typ x = config.Typ item
            /\ config.Policy x = config.Policy item
            /\ config.IntervalMin x
               = (if config.IntervalMin item =? 0 then config.DefaultIntervalMin
                  else config.IntervalMin item).
Proof.
  intros H Hw Hlast. apply NormalizeConfig_inl in H. destruct H as (Hl & _).
  rewrite Hw in Hl.
  destruct (normalizeItems_app now l1 (item :: l2) _ _ _ loopInv_empty Hl)
    as (d1 & s1 & Hinv1 & H1).
  destruct (normalizeItems_step now item l2 d1 s1 Hinv1)
    as [(_ & e & He)|(_ & it & d' & s' & Heq & Hinv' & Hn & Ht & Hp & Hi & _ & Hin & _)].
  { rewrite He in H1. discriminate. }
  rewrite Heq in H1. exists it. split.
  - apply (normalizeItems_keeps now l2 d' s' _ it Hinv' H1 Hin).
    unfold check.keyOf at 1. rewrite Hn, Ht. exact Hlast.
  - repeat split; auto. rewrite Hi. unfold configLoad.stored.
    destruct (config.IntervalMin item =? 0); cbn;
      now destruct (configLoad.IsZero (config.AddedAt item)).
Qed.

Lemma NormalizeConfig_last_wins_witness :
  exists x, In x (config.Watchlist (fst (configLoad.NormalizeConfig configLoad.sampleNow
                                           configLoad.sampleFile)))
            /\ config.Name x = "a" /\ config.Typ x = "formula"
            /\ config.Policy x = "auto" /\ config.IntervalMin x = 10.
Proof.
  apply (NormalizeConfig_last_wins configLoad.sampleNow configLoad.sampleFile _
           (firstn 2 (config.Watchlist configLoad.sampleFile)) []
           {| config.Name := "a"; config.Typ := "formula"; config.Policy := "auto";
              config.IntervalMin := 10; config.AddedAt := 200 * gotime.Second |}).
  - vm_compute. reflexivity.
  - reflexivity.
  - intros [].
Defined.

Section EngineState.
Import config check engine.
Context (tf : gotime.Layout).

Lemma appendError_length (st : State) (msg : string) :
  length (LastErrors (appendError st msg)) = Nat.min (S (length (LastErrors st))) 20.
Proof.
  unfold appendError. cbn [LastErrors withLastErrors].
  destruct (20 <? length (LastErrors st ++ [msg]))%nat eqn:E.
  - apply Nat.ltb_lt in E. rewrite length_drop. rewrite length_app in *. cbn [length] in *. lia.
  - apply Nat.ltb_ge in E. rewrite length_app in *. cbn [length] in *. lia.
Qed.

Lemma ringWithin_appendError (n : nat) (st : State) (msg : string) :
  ringWithin n (appendError st msg).
Proof. unfold ringWithin. rewrite appendError_length. lia. Qed.

Lemma sameStamps_refl (st : State) : sameStamps st st.
Proof. repeat split. Qed.

Lemma sameStamps_trans (a b c : State) : sameStamps a b -> sameStamps b c -> sameStamps a c.
Proof. unfold sameStamps. intros (-> & -> & ->) (-> & -> & ->). auto. Qed.

Lemma normalizeStateKeys_fields (l : list WatchItem) (st : State) :
  let st' := List.fold_left normalizeItem l st in
  sameStamps st st' /\ LastErrors st' = LastErrors st.
Proof.
  revert st. induction l as [|it l IH]; intros st; cbn; [repeat split|].
  destruct (IH (normalizeItem st it)) as ((H1 & H2 & H3) & H4).
  unfold sameStamps. rewrite H1, H2, H3, H4. unfold normalizeItem.
  destruct (String.eqb (keyOf it) (Name it)); repeat split.
Qed.

Lemma prune_fields (formulae casks : gmap string string) (l : list WatchItem) :
  forall removed st installed filtered,
    let st' := (List.fold_left (pruneStep formulae casks) l
                  (removed, st, installed, filtered)).1.1.2 in
    sameStamps st st' /\ LastErrors st' = LastErrors st.
Proof.
  induction l as [|it l IH]; intros removed st installed filtered; cbn; [repeat split|].
  destruct (installedVersion formulae casks it) as [[v t] ok].
  destruct ok; cbn [negb].
  - apply IH.
  - match goal with
    | |- context [List.fold_left _ l (?r, ?s, ?i, ?f)] =>
        destruct (IH r s i f) as ((H1 & H2 & H3) & H4)
    end.
    unfold sameStamps. rewrite H1, H2, H3, H4. repeat split.
Qed.

Lemma fetchLatest_nil (env : Env) (st : State) : fetchLatest env [] st = [].
Proof. unfold fetchLatest. cbn [List.map]. now destruct (arrival env). Qed.

Lemma prepare_fields (formulae casks : gmap string string) (cfg : Config) (st : State)
    removed cfg1 st1 installed :
  prepare formulae casks cfg st = (removed, cfg1, st1, installed) ->
  sameStamps st st1 /\ LastErrors st1 = LastErrors st.
Proof.
  unfold prepare.
  pose proof (prune_fields formulae casks (Watchlist cfg) [] (normalizeStateKeys cfg st) ∅ [])
    as Hp. cbn zeta in Hp.
  destruct (List.fold_left _ _ _) as [[[r s] i] f]. cbn [fst snd] in Hp.
  intros [= <- <- <- <-].
  destruct Hp as ((H1 & H2 & H3) & H4).
  destruct (normalizeStateKeys_fields (Watchlist cfg) st) as ((G1 & G2 & G3) & G4).
  unfold normalizeStateKeys in *. unfold sameStamps, cleanupStateKeys. cbn.
  rewrite H1, H2, H3, H4. auto.
Qed.

Lemma reconcileStep_stamps (sv : semver.Lib) (now : Z) (installed : gmap string string)
    (st : State) (outdated : list OutdatedItem) (r : fetchResult) (n : nat) :
  let st' := (reconcileStep tf sv now installed (st, outdated) r).1 in
  LastCheckAt st' = LastCheckAt st /\ LastUpdateAt st' = LastUpdateAt st
  /\ (ringWithin n st -> ringWithin n st').
Proof.
  unfold reconcileStep. destruct (err r).
  { cbn. repeat split. intros _. apply ringWithin_appendError. }
  destruct (notModified r); destruct (negb (String.eqb (etag r) ""));
    destruct (negb (String.eqb (latest r) ""));
    destruct (negb (String.eqb (keyOf (item r)) (Name (item r))));
    destruct (isOutdated _ _ _ _ _); repeat split; auto.
Qed.

Lemma reconcile_stamps (sv : semver.Lib) (now : Z) (installed : gmap string string)
    (results : list fetchResult) (n : nat) :
  forall st outdated,
    let st' := (List.fold_left (reconcileStep tf sv now installed) results (st, outdated)).1 in
    LastCheckAt st' = LastCheckAt st /\ LastUpdateAt st' = LastUpdateAt st
    /\ (ringWithin n st -> ringWithin n st').
Proof.
  induction results as [|r l IH]; intros st outdated; cbn zeta; cbn [List.fold_left];
    [cbn; auto|].
  pose proof (reconcileStep_stamps sv now installed st outdated r n) as Hs. cbn zeta in Hs.
  destruct (reconcileStep tf sv now installed (st, outdated) r) as [st1 o1].
  cbn [fst] in Hs. destruct Hs as (H1 & H2 & H3).
  destruct (IH st1 o1) as (G1 & G2 & G3). cbn zeta in *. rewrite G1, G2, H1, H2. auto.
Qed.

Lemma dispatch_ring (env : Env) (cfg : Config) (st : State) (opts : Options)
    (res : Result) (outdated : list OutdatedItem) (n : nat) :
  ringWithin n st -> ringWithin n (oSt (dispatch env cfg st opts res outdated)).
Proof.
  intros H.
  unfold dispatch, refreshAndUpgrade, updateFailed, stamped, upgrade, verifyFormula, verifyCask.
  leaves; cbn [oSt]; unfold withLastCheckAt, withLastUpdateAt, ringWithin in *;
    cbn [LastErrors]; try exact H; try (rewrite appendError_length; lia).
Qed.

(** The stamps after the action dispatch: either only the check time is
    set and no upgrade call was made, or both are set and both upgrade
    calls were made. *)
Lemma dispatch_stamps (env : Env) (cfg : Config) (st : State) (opts : Options)
    (res : Result) (outdated : list OutdatedItem) :
  let out := dispatch env cfg st opts res outdated in
  (LastCheckAt (oSt out) = Some (now env) /\ LastUpdateAt (oSt out) = LastUpdateAt st
   /\ forall ev, In ev (oTrace out) -> isUpgrade ev = false)
  \/ (LastCheckAt (oSt out) = Some (nowCheck env)
      /\ LastUpdateAt (oSt out) = Some (nowUpdate env)
      /\ DryRun opts = false /\ NotifyOnly opts = false
      /\ exists F e1 C e2,
           In (EvUpgradeFormula F e1) (oTrace out)
           /\ In (EvUpgradeCask C (IncludeAutoUpdateCask cfg) e2) (oTrace out)).
Proof.
  cbn zeta.
  unfold dispatch, refreshAndUpgrade, updateFailed, stamped, upgrade, verifyFormula, verifyCask.
  rewrite !notifyUpdates_Updated, !notifyUpdates_forced.
  destruct (ForceUpdate opts), (DryRun opts), (NotifyOnly opts); cbn [andb orb negb];
    leaves; cbn [oTrace oSt];
    first
      [ left; split; [reflexivity|]; split; [reflexivity|];
        intros ev Hev; split_in Hev; subst; try reflexivity;
        apply In_notices in Hev; destruct Hev as (? & _ & ->); reflexivity
      | right; split; [reflexivity|]; split; [reflexivity|];
        split; [reflexivity|]; split; [reflexivity|];
        do 4 eexists; split; repeat rewrite in_app_iff; cbn [In]; eauto 10 ].
Qed.

End EngineState.

Section Snapshot.
Import config check engine.

Lemma WatchKey_kinds (n1 t1 n2 t2 : string) :
  t1 = "formula" \/ t1 = "cask" -> t2 = "formula" \/ t2 = "cask" ->
  WatchKey n1 t1 = WatchKey n2 t2 -> n1 = n2 /\ t1 = t2.
Proof.
  intros [-> | ->] [-> | ->]; unfold WatchKey; cbn; intros H;
    try discriminate H; injection H as H; subst; auto.
Qed.

Lemma installedVersion_cases (formulae casks : gmap string string) (it : WatchItem)
    (v t : string) :
  installedVersion formulae casks it = (v, t, true) ->
  (t = "formula" /\ formulae !! Name it = Some v /\ Typ it <> "cask")
  \/ (t = "cask" /\ casks !! Name it = Some v /\ Typ it <> "formula"
      /\ (Typ it = "cask" \/ formulae !! Name it = None)).
Proof.
  unfold installedVersion.
  destruct (String.eqb (Typ it) "cask") eqn:Ec.
  - apply String.eqb_eq in Ec.
    destruct (casks !! Name it) as [x|]; cbn; intros [= <- <-]; try discriminate.
    right. rewrite Ec. repeat split; auto; try discriminate.
  - apply String.eqb_neq in Ec.
    destruct (String.eqb (Typ it) "formula") eqn:Ef.
    + destruct (formulae !! Name it) as [x|]; cbn; intros [= <- <-]; try discriminate.
      left. auto.
    + apply String.eqb_neq in Ef.
      destruct (formulae !! Name it) as [x|].
      * intros [= <- <-]. left. auto.
      * destruct (casks !! Name it) as [x|]; intros [= <- <-]. right. auto.
Qed.

Lemma prune_lists (formulae casks : gmap string string) (l : list WatchItem) :
  forall removed st installed filtered,
    let r := List.fold_left (pruneStep formulae casks) l (removed, st, installed, filtered) in
    r.1.1.1 = (removed ++ List.filter (fun it => negb (isInstalled formulae casks it)) l)%list
    /\ r.2 = (filtered
              ++ List.map (synced formulae casks)
                   (List.filter (isInstalled formulae casks) l))%list.
Proof.
  induction l as [|it l IH]; intros removed st installed filtered; cbn zeta;
    cbn [List.fold_left List.filter List.map].
  - now rewrite !app_nil_r.
  - destruct (installedVersion formulae casks it) as [[v t] ok] eqn:Ei.
    assert (Hi : isInstalled formulae casks it = ok) by (unfold isInstalled; now rewrite Ei).
    assert (Hs : synced formulae casks it = withTyp it t) by (unfold synced; now rewrite Ei).
    destruct (pruneStep formulae casks (removed, st, installed, filtered) it)
      as [[[r1 s1] i1] f1] eqn:Hp.
    unfold pruneStep in Hp. rewrite Ei in Hp. rewrite Hi.
    destruct (IH r1 s1 i1 f1) as [H1 H2]. rewrite H1, H2.
    destruct ok; cbn [negb] in *; injection Hp as <- <- <- <-; cbn [List.map].
    + rewrite Hs. split; [reflexivity|]. now rewrite <- app_assoc.
    + split; [|reflexivity]. now rewrite <- app_assoc.
Qed.

Lemma prune_snapshot (formulae casks : gmap string string) (l : list WatchItem) :
  forall removed st installed filtered,
    snapshotOK formulae casks installed filtered ->
    let r := List.fold_left (pruneStep formulae casks) l (removed, st, installed, filtered) in
    snapshotOK formulae casks r.1.2 r.2.
Proof.
  induction l as [|it l IH]; intros removed st installed filtered Hok; cbn zeta;
    cbn [List.fold_left]; [exact Hok|].
  destruct (installedVersion formulae casks it) as [[v t] ok] eqn:Ei.
  destruct (pruneStep formulae casks (removed, st, installed, filtered) it)
    as [[[r1 s1] i1] f1] eqn:Hp.
  unfold pruneStep in Hp. rewrite Ei in Hp.
  destruct ok; cbn [negb] in Hp; injection Hp as <- <- <- <-; [|now apply IH].
  apply IH. apply installedVersion_cases in Ei. destruct Hok as [Ha Hb].
  assert (Hnew : (Typ (withTyp it t) = "formula" /\ formulae !! Name (withTyp it t) = Some v)
                 \/ (Typ (withTyp it t) = "cask" /\ casks !! Name (withTyp it t) = Some v)).
  { cbn. destruct Ei as [(-> & H & _)|(-> & H & _)]; auto. }
  split.
  - intros k v'. destruct (decide (k = keyOf (withTyp it t))) as [->|Hne].
    + rewrite lookup_insert_eq. intros [= <-]. exists (withTyp it t).
      split; [apply in_or_app; right; now left|]. auto.
    + rewrite lookup_insert_ne by auto. intros H. destruct (Ha _ _ H) as (x & Hx & Hrest).
      exists x. split; [apply in_or_app; now left|exact Hrest].
  - intros x Hx. apply in_app_or in Hx. destruct Hx as [Hx|[<-|[]]].
    + destruct (Hb x Hx) as [Hs Hk]. split; [|exact Hk].
      destruct (decide (keyOf x = keyOf (withTyp it t))) as [->|Hne].
      * rewrite lookup_insert_eq. eauto.
      * now rewrite lookup_insert_ne by auto.
    + split; [rewrite lookup_insert_eq; eauto|]. destruct Hnew as [[H _]|[H _]]; auto.
Qed.

End Snapshot.

(** X7: the error ring: [appendError] puts the message last, keeps at
    most the 20 newest entries (the oldest are dropped from the front)
    and touches no other field of the state. *)
Theorem appendError_ring (st : config.State) (msg : string) :
  let errs := config.LastErrors (check.appendError st msg) in
  length errs = Nat.min (S (length (config.LastErrors st))) 20
  /\ (exists dropped, (config.LastErrors st ++ [msg])%list = (dropped ++ errs)%list)
  /\ last errs = Some msg
  /\ check.sameMaps st (check.appendError st msg)
  /\ engine.sameStamps st (check.appendError st msg).
Proof.
  cbn zeta. split; [apply appendError_length|].
  split; [|split; [|split; repeat split]].
  - unfold check.appendError. cbn [config.LastErrors check.withLastErrors].
    destruct (20 <? length (config.LastErrors st ++ [msg]))%nat.
    + eexists. symmetry. apply take_drop.
    + exists []. reflexivity.
  - unfold check.appendError. cbn [config.LastErrors check.withLastErrors].
    destruct (20 <? length (config.LastErrors st ++ [msg]))%nat eqn:E.
    + apply Nat.ltb_lt in E. rewrite length_app in *. cbn [length] in *.
      rewrite drop_app_le by lia. apply last_snoc.
    + apply last_snoc.
Qed.

(** X8: a run never lets the error ring grow beyond 20 entries (or beyond
    what it held before, if that was more). *)
Theorem Run_errors_bounded (tf : gotime.Layout) (sv : semver.Lib) (env : check.Env)
    (cfg : config.Config) (st : config.State) (opts : check.Options) :
  (length (config.LastErrors (check.oSt (check.Run tf sv env cfg st opts)))
   <= Nat.max 20 (length (config.LastErrors st)))%nat.
Proof.
  change (engine.ringWithin (length (config.LastErrors st))
            (check.oSt (check.Run tf sv env cfg st opts))).
  set (n := length (config.LastErrors st)).
  assert (H0 : engine.ringWithin n st) by (unfold engine.ringWithin; lia).
  unfold check.Run.
  destruct (brew.ListInstalled (check.host env)) as [[formulae casks]|e0]; [|exact H0].
  destruct (check.prepare formulae casks cfg st) as [[[removed cfg1] st1] installed] eqn:Ep.
  apply prepare_fields in Ep. destruct Ep as [_ He].
  assert (H1 : engine.ringWithin n st1) by (unfold engine.ringWithin; rewrite He; lia).
  destruct (check.dueItems tf cfg1 st1 (check.now env)) as [|d due]; [exact H1|].
  match goal with
  | |- context [List.fold_left ?f ?l ?a] =>
      pose proof (reconcile_stamps tf sv (check.now env) installed l n st1 []) as Hr;
      destruct (List.fold_left f l a) as [st2 outd]
  end.
  cbn zeta in Hr. cbn [fst] in Hr. destruct Hr as (_ & _ & Hr).
  apply dispatch_ring. auto.
Qed.

(** X9: the stamps of a run. A run that fails (the installed snapshot
    could not be taken) returns state and configuration untouched and
    makes no call. Any other run sets the time of the last check; the
    time of the last update is set exactly in the runs that make the two
    upgrade calls, which no dry-run or notify-only run does. *)
Theorem Run_stamps (tf : gotime.Layout) (sv : semver.Lib) (env : check.Env)
    (cfg : config.Config) (st : config.State) (opts : check.Options) :
  let out := check.Run tf sv env cfg st opts in
  (check.oErr out <> None /\ check.oSt out = st /\ check.oCfg out = cfg
   /\ check.oTrace out = [])
  \/ (check.oErr out = None
      /\ config.LastCheckAt (check.oSt out) = Some (check.now env)
      /\ config.LastUpdateAt (check.oSt out) = config.LastUpdateAt st
      /\ forall ev, In ev (check.oTrace out) -> check.isUpgrade ev = false)
  \/ (check.oErr out = None
      /\ config.LastCheckAt (check.oSt out) = Some (check.nowCheck env)
      /\ config.LastUpdateAt (check.oSt out) = Some (check.nowUpdate env)
      /\ check.DryRun opts = false /\ check.NotifyOnly opts = false
      /\ exists F e1 C e2,
           In (check.EvUpgradeFormula F e1) (check.oTrace out)
           /\ In (check.EvUpgradeCask C (config.IncludeAutoUpdateCask cfg) e2)
                (check.oTrace out)).
Proof.
  cbn zeta. unfold check.Run.
  destruct (brew.ListInstalled (check.host env)) as [[formulae casks]|e0].
  2:{ left. cbn. repeat split. discriminate. }
  right.
  destruct (check.prepare formulae casks cfg st) as [[[removed cfg1] st1] installed] eqn:Ep.
  pose proof (prepare_cfg _ _ _ _ _ _ _ _ Ep) as Hc.
  apply prepare_fields in Ep. destruct Ep as [(_ & Hu & _) _].
  destruct (check.dueItems tf cfg1 st1 (check.now env)) as [|d due].
  { left. cbn. repeat split; auto. intros ev []. }
  match goal with
  | |- context [List.fold_left ?f ?l ?a] =>
      pose proof (reconcile_stamps tf sv (check.now env) installed l 0 st1 []) as Hr;
      destruct (List.fold_left f l a) as [st2 outd]
  end.
  cbn zeta in Hr. cbn [fst] in Hr. destruct Hr as (_ & Hr & _).
  match goal with
  | |- context [check.dispatch ?e ?c ?s ?o ?r ?l] =>
      pose proof (dispatch_stamps e c s o r l) as Hd;
      pose proof (dispatch_state e c s o r l) as Hs;
      cbn zeta in Hd, Hs; destruct Hs as (_ & _ & Hs);
      destruct Hd as [(H1 & H2 & H3)|(H1 & H2 & H3 & H4 & H5)]
  end.
  - left. rewrite H2, Hr, Hu. repeat split; auto.
  - right.
    assert (Hg : config.IncludeAutoUpdateCask cfg1 = config.IncludeAutoUpdateCask cfg)
      by (now rewrite Hc).
    rewrite Hg in H5. repeat split; auto.
Qed.

(** X10: a dry-run or notify-only run makes no call of the package
    manager after the installed snapshot, force-update or not: its calls
    are the notifications, one for every outdated item in the order of
    the outdated list, whatever the item's policy; the result reports
    that whole list and the time of the last update stays. *)
Theorem Run_dry_run (tf : gotime.Layout) (sv : semver.Lib) (env : check.Env)
    (cfg : config.Config) (st : config.State) (opts : check.Options) :
  check.DryRun opts || check.NotifyOnly opts = true ->
  let out := check.Run tf sv env cfg st opts in
  check.oTrace out = List.map (check.notice cfg) (check.runOutdated tf sv env cfg st)
  /\ check.Outdated (check.oRes out) = check.runOutdated tf sv env cfg st
  /\ config.LastUpdateAt (check.oSt out) = config.LastUpdateAt st.
Proof.
  intros Hdry. cbn zeta. unfold check.Run, check.runOutdated.
  destruct (brew.ListInstalled (check.host env)) as [[formulae casks]|e0];
    [|cbn; repeat split].
  destruct (check.prepare formulae casks cfg st) as [[[removed cfg1] st1] installed] eqn:Ep.
  pose proof (prepare_cfg _ _ _ _ _ _ _ _ Ep) as Hc.
  apply prepare_fields in Ep. destruct Ep as [(_ & Hu & _) _].
  destruct (check.dueItems tf cfg1 st1 (check.now env)) as [|d due];
    [rewrite fetchLatest_nil; cbn; repeat split; exact Hu|].
  match goal with
  | |- context [List.fold_left ?f ?l ?a] =>
      pose proof (reconcile_stamps tf sv (check.now env) installed l 0 st1 []) as Hr;
      destruct (List.fold_left f l a) as [st2 outd]
  end.
  cbn zeta in Hr. cbn [fst snd] in *. destruct Hr as (_ & Hr & _).
  unfold check.dispatch, check.stamped.
  assert (Hf : check.ForceUpdate opts && negb (check.DryRun opts) && negb (check.NotifyOnly opts)
               = false).
  { destruct (check.ForceUpdate opts), (check.DryRun opts), (check.NotifyOnly opts);
      try reflexivity; discriminate. }
  rewrite Hf, Hdry. destruct outd as [|o outd]; cbn [check.oTrace check.oRes check.oSt].
  - cbn. rewrite Hr, Hu. auto.
  - rewrite notifyUpdates_forced. cbn [app]. rewrite Hc at 1.
    cbn [check.Outdated check.withOutdated config.LastUpdateAt check.withLastCheckAt].
    rewrite Hr, Hu. auto.
Qed.

Lemma Run_dry_run_witness :
  let out := check.Run gotime.unixLayout semver.reference Sample.env Sample.cfg
               config.DefaultState Scenario.dryOpts in
  check.oTrace out
  = List.map (check.notice Sample.cfg)
      (check.runOutdated gotime.unixLayout semver.reference Sample.env Sample.cfg
         config.DefaultState)
  /\ check.Outdated (check.oRes out)
     = check.runOutdated gotime.unixLayout semver.reference Sample.env Sample.cfg
         config.DefaultState
  /\ config.LastUpdateAt (check.oSt out) = None.
Proof.
  apply (Run_dry_run gotime.unixLayout semver.reference Sample.env Sample.cfg
           config.DefaultState Scenario.dryOpts).
  reflexivity.
Defined.

(** X11: without brew on the search path a run fails with "brew not
    found", changes neither configuration nor state, and makes no
    call. *)
Theorem Run_brew_missing (tf : gotime.Layout) (sv : semver.Lib) (env : check.Env)
    (cfg : config.Config) (st : config.State) (opts : check.Options) :
  brew.brewPath (check.host env) = None ->
  check.Run tf sv env cfg st opts
  = check.Build_Outcome check.emptyResult cfg st (Some "brew not found") [].
Proof.
  intros H. unfold check.Run, brew.ListInstalled, brew.listVersions, brew.run.
  now rewrite H.
Qed.

Lemma Run_brew_missing_witness :
  check.Run gotime.unixLayout semver.reference Scenario.noBrewEnv Sample.cfg
    config.DefaultState Sample.opts
  = check.Build_Outcome check.emptyResult Sample.cfg config.DefaultState
      (Some "brew not found") [].
Proof.
  apply (Run_brew_missing gotime.unixLayout semver.reference Scenario.noBrewEnv).
  reflexivity.
Defined.

(** X6: identity keys do not collide: on the kinds "formula" and "cask"
    the key determines name and kind; an item without kind is filed
    under its bare name. *)
Theorem WatchKey_injective (n1 t1 n2 t2 : string) :
  (t1 = "formula" \/ t1 = "cask") -> (t2 = "formula" \/ t2 = "cask") ->
  (config.WatchKey n1 t1 = config.WatchKey n2 t2 <-> n1 = n2 /\ t1 = t2)
  /\ config.WatchKey n1 t1 <> config.WatchKey n1 ""
  /\ config.WatchKey n1 "" = n1.
Proof.
  intros H1 H2. split; [split|split].
  - now apply WatchKey_kinds.
  - now intros [-> ->].
  - apply WatchKey_typed. destruct H1 as [-> | ->]; discriminate.
  - reflexivity.
Qed.

Lemma WatchKey_injective_witness :
  (config.WatchKey "wget" "formula" = config.WatchKey "wget" "cask"
   <-> "wget" = "wget" /\ "formula" = "cask")
  /\ config.WatchKey "wget" "formula" <> config.WatchKey "wget" ""
  /\ config.WatchKey "wget" "" = "wget".
Proof.
  apply (WatchKey_injective "wget" "formula" "wget" "cask"); [now left|now right].
Defined.

(** X12: [installedVersion] looks a package up in the installed snapshot:
    when it finds the item, the kind it returns is "formula" or "cask"
    and the version is the entry of that kind's list under the item's
    name; an item of a stated kind is never found under the other kind,
    and an item without kind is looked up as a formula first. *)
Theorem installedVersion_found (formulae casks : gmap string string)
    (it : config.WatchItem) (v t : string) :
  check.installedVersion formulae casks it = (v, t, true) ->
  (t = "formula" /\ formulae !! config.Name it = Some v /\ config.Typ it <> "cask")
  \/ (t = "cask" /\ casks !! config.Name it = Some v /\ config.Typ it <> "formula"
      /\ (config.Typ it = "cask" \/ formulae !! config.Name it = None)).
Proof. apply installedVersion_cases. Qed.

Lemma installedVersion_found_witness :
  ("cask" = "formula"
   /\ ({[ "a" := "2.0" ]} : gmap string string) !! "c" = Some "1.0" /\ "" <> "cask")
  \/ ("cask" = "cask"
      /\ ({[ "c" := "1.0" ]} : gmap string string) !! "c" = Some "1.0" /\ "" <> "formula"
      /\ ("" = "cask" \/ ({[ "a" := "2.0" ]} : gmap string string) !! "c" = None)).
Proof.
  apply (installedVersion_found {[ "a" := "2.0" ]} {[ "c" := "1.0" ]}
           (Sample.watch "c" "" "" 5) "1.0" "cask").
  vm_compute. reflexivity.
Defined.

Section Sorting.
Import config check engine.

Lemma insertSorted_Permutation (x : string) (l : list string) :
  Permutation (insertSorted x l) (x :: l).
Proof.
  induction l as [|y l IH]; cbn; [reflexivity|].
  destruct (String.leb x y); [reflexivity|].
  rewrite IH. apply perm_swap.
Qed.

Lemma sortStrings_Permutation (l : list string) : Permutation (sortStrings l) l.
Proof.
  induction l as [|x l IH]; cbn; [reflexivity|].
  rewrite insertSorted_Permutation. now constructor.
Qed.

Lemma sorted_cons (x : string) (l : list string) :
  sorted (x :: l) = true
  <-> (match l with [] => True | y :: _ => String.leb x y = true end) /\ sorted l = true.
Proof.
  destruct l as [|y l]; cbn; [tauto|]. rewrite andb_true_iff. tauto.
Qed.

Lemma insertSorted_sorted (x : string) (l : list string) :
  sorted l = true -> sorted (insertSorted x l) = true.
Proof.
  induction l as [|y l IH]; intros Hs; [reflexivity|].
  cbn [insertSorted]. destruct (String.leb x y) eqn:E.
  - apply sorted_cons. auto.
  - apply sorted_cons in Hs. destruct Hs as [Hy Hs]. apply sorted_cons.
    split; [|now apply IH].
    destruct l as [|z l]; cbn [insertSorted].
    + destruct (String.leb_total x y) as [H|H]; congruence.
    + destruct (String.leb x z); [|exact Hy].
      destruct (String.leb_total x y) as [H|H]; congruence.
Qed.

Lemma sortStrings_sorted (l : list string) : sorted (sortStrings l) = true.
Proof.
  induction l as [|x l IH]; [reflexivity|]. cbn. now apply insertSorted_sorted.
Qed.

End Sorting.

(** X13: the name lists the engine builds are in ascending order.
    [namesFromItems] gives the names of the given items, each as often
    as it occurs. Of the two lists of [splitByType] the first holds the
    names of the outdated items of effective policy "auto" that are not
    casks, the second those of the casks, each name as often as such an
    item occurs. *)
Theorem sorted_names (items : list config.WatchItem) (outdated : list check.OutdatedItem)
    (cfg : config.Config) :
  (engine.sorted (check.namesFromItems items) = true
   /\ Permutation (check.namesFromItems items) (List.map config.Name items))
  /\ let '(formulae, casks) := check.splitByType outdated cfg in
     engine.sorted formulae = true /\ engine.sorted casks = true
     /\ Permutation formulae
          (List.map (fun o => config.Name (check.Item o))
             (List.filter (check.autoItem cfg false) outdated))
     /\ Permutation casks
          (List.map (fun o => config.Name (check.Item o))
             (List.filter (check.autoItem cfg true) outdated)).
Proof.
  split.
  - unfold check.namesFromItems.
    split; [apply sortStrings_sorted|apply sortStrings_Permutation].
  - unfold check.splitByType. rewrite splitByType_fold. cbn [app].
    split; [apply sortStrings_sorted|]. split; [apply sortStrings_sorted|].
    split; apply sortStrings_Permutation.
Qed.

Section Filter.
Import config check engine.

Lemma allowed_fold (prefix : string) (names : list string) (a : gset string) (k : string) :
  k ∈ List.fold_left (fun (a : gset string) name => {[prefix +:+ name]} ∪ a) names a
  <-> k ∈ a \/ exists n, In n names /\ k = prefix +:+ n.
Proof.
  revert a. induction names as [|x l IH]; intros a; cbn [List.fold_left].
  - split; [auto|]. intros [H|(n & [] & _)]. exact H.
  - rewrite IH. rewrite elem_of_union, elem_of_singleton. split.
    + intros [[->|H]|(n & Hn & ->)]; eauto.
      * right. exists x. split; [now left|reflexivity].
      * right. exists n. split; [now right|reflexivity].
    + intros [H|(n & [<-|Hn] & ->)]; eauto.
Qed.

Lemma In_filterOutdated (items : list OutdatedItem) (formulas casks : list string)
    (o : OutdatedItem) :
  In o (filterOutdated items formulas casks)
  <-> In o items
      /\ ((exists n, In n formulas /\ keyOf (Item o) = "formula:" +:+ n)
          \/ (exists n, In n casks /\ keyOf (Item o) = "cask:" +:+ n)).
Proof.
  unfold filterOutdated. destruct items as [|i items]; [cbn; tauto|].
  rewrite filter_In, bool_decide_eq_true, !allowed_fold.
  rewrite elem_of_empty. tauto.
Qed.

Lemma filter_sublist {A : Type} (f : A -> bool) (l : list A) : sublist (List.filter f l) l.
Proof.
  induction l as [|x l IH]; cbn; [constructor|].
  destruct (f x); [now apply sublist_skip|now apply sublist_cons].
Qed.

End Filter.

(** X15: [filterOutdated] keeps, in their order, exactly the items that
    the re-verification confirmed under their kind: a formula whose name
    is in the first list, a cask whose name is in the second. *)
Theorem filterOutdated_confirmed (items : list check.OutdatedItem)
    (formulas casks : list string) (o : check.OutdatedItem) :
  config.Typ (check.Item o) = "formula" \/ config.Typ (check.Item o) = "cask" ->
  (In o (check.filterOutdated items formulas casks)
   <-> In o items
       /\ (if String.eqb (config.Typ (check.Item o)) "cask"
           then In (config.Name (check.Item o)) casks
           else In (config.Name (check.Item o)) formulas))
  /\ sublist (check.filterOutdated items formulas casks) items.
Proof.
  intros Hk. split.
  - rewrite In_filterOutdated. unfold check.keyOf, config.WatchKey.
    destruct Hk as [-> | ->]; cbn; split.
    + intros (Hi & [(n & Hn & He)|(n & Hn & He)]); [|discriminate He].
      injection He as He. change (config.Name (check.Item o) = n) in He. subst n. auto.
    + intros (Hi & Hn). eauto.
    + intros (Hi & [(n & Hn & He)|(n & Hn & He)]); [discriminate He|].
      injection He as He. change (config.Name (check.Item o) = n) in He. subst n. auto.
    + intros (Hi & Hn). eauto.
  - unfold check.filterOutdated. destruct items as [|i items]; [reflexivity|].
    apply filter_sublist.
Qed.

Lemma filterOutdated_confirmed_witness :
  let o := {| check.Item := Sample.watch "c" "cask" "auto" 15;
              check.Installed := "1.0.0"; check.Latest := "1.1.0" |} in
  In o (check.filterOutdated [o] ["c"] []) <-> In o [o] /\ In "c" [].
Proof.
  apply (filterOutdated_confirmed
           [{| check.Item := Sample.watch "c" "cask" "auto" 15;
               check.Installed := "1.0.0"; check.Latest := "1.1.0" |}] ["c"] []
           {| check.Item := Sample.watch "c" "cask" "auto" 15;
              check.Installed := "1.0.0"; check.Latest := "1.1.0" |}).
  now right.
Defined.

(** X16: the pruning of [Run]: the watchlist that survives holds, in
    their order, the items found in the installed snapshot, each with
    its kind set to the one it was found under; the removed list holds
    the others; no other setting of the configuration changes. *)
Theorem prepare_partition (formulae casks : gmap string string) (cfg : config.Config)
    (st : config.State) removed cfg1 st1 installed :
  check.prepare formulae casks cfg st = (removed, cfg1, st1, installed) ->
  config.Watchlist cfg1
  = List.map (engine.synced formulae casks)
      (List.filter (engine.isInstalled formulae casks) (config.Watchlist cfg))
  /\ removed
     = List.filter (fun it => negb (engine.isInstalled formulae casks it))
         (config.Watchlist cfg)
  /\ cfg1 = check.withWatchlist cfg (config.Watchlist cfg1).
Proof.
  intros H. pose proof (prepare_cfg _ _ _ _ _ _ _ _ H) as Hc. revert H.
  unfold check.prepare.
  pose proof (prune_lists formulae casks (config.Watchlist cfg) []
                (check.normalizeStateKeys cfg st) ∅ []) as Hp.
  cbn zeta in Hp.
  destruct (List.fold_left _ _ _) as [[[r s] i] f]. cbn [fst snd app] in Hp.
  destruct Hp as [-> ->]. intros [= <- <- <- <-]. cbn [config.Watchlist check.withWatchlist].
  auto.
Qed.

Lemma prepare_partition_witness :
  let p := check.prepare ∅ Scenario.caskOnly Scenario.mixedCfg config.DefaultState in
  config.Watchlist p.1.1.2
  = List.map (engine.synced ∅ Scenario.caskOnly)
      (List.filter (engine.isInstalled ∅ Scenario.caskOnly)
         (config.Watchlist Scenario.mixedCfg))
  /\ p.1.1.1
     = List.filter (fun it => negb (engine.isInstalled ∅ Scenario.caskOnly it))
         (config.Watchlist Scenario.mixedCfg)
  /\ p.1.1.2 = check.withWatchlist Scenario.mixedCfg (config.Watchlist p.1.1.2).
Proof.
  apply (prepare_partition ∅ Scenario.caskOnly Scenario.mixedCfg config.DefaultState _ _
           (check.prepare ∅ Scenario.caskOnly Scenario.mixedCfg config.DefaultState).1.2
           (check.prepare ∅ Scenario.caskOnly Scenario.mixedCfg config.DefaultState).2).
  now destruct (check.prepare ∅ Scenario.caskOnly Scenario.mixedCfg config.DefaultState)
    as [[[? ?] ?] ?].
Defined.

(** X17: the map [installed] that [Run] compares against holds, for
    every surviving item, the version of the installed snapshot under
    the item's name in the list of its kind, which is "formula" or
    "cask"; and it holds entries for surviving items only. *)
Theorem prepare_installed (formulae casks : gmap string string) (cfg : config.Config)
    (st : config.State) removed cfg1 st1 installed :
  check.prepare formulae casks cfg st = (removed, cfg1, st1, installed) ->
  (forall it, In it (config.Watchlist cfg1) ->
     (config.Typ it = "formula" /\ is_Some (formulae !! config.Name it)
      /\ installed !! check.keyOf it = formulae !! config.Name it)
     \/ (config.Typ it = "cask" /\ is_Some (casks !! config.Name it)
         /\ installed !! check.keyOf it = casks !! config.Name it))
  /\ (forall k, is_Some (installed !! k) ->
        exists it, In it (config.Watchlist cfg1) /\ k = check.keyOf it).
Proof.
  unfold check.prepare.
  pose proof (prune_snapshot formulae casks (config.Watchlist cfg) []
                (check.normalizeStateKeys cfg st) ∅ []) as Hp.
  cbn zeta in Hp.
  destruct (List.fold_left _ _ _) as [[[r s] i] f]. cbn [fst snd] in Hp.
  intros [= <- <- <- <-]. cbn [config.Watchlist check.withWatchlist].
  destruct Hp as [Ha Hb].
  { split; [intros k v H; now rewrite lookup_empty in H|intros it []]. }
  split.
  - intros it Hit. destruct (Hb it Hit) as [[v Hv] Hk].
    destruct (Ha _ _ Hv) as (it2 & Hit2 & Hkey & Hver).
    destruct (Hb it2 Hit2) as [_ Hk2].
    destruct (WatchKey_kinds _ _ _ _ Hk Hk2 Hkey) as [Hn Ht].
    rewrite Hv. rewrite <- Hn, <- Ht in Hver.
    destruct Hver as [[Hf Hl]|[Hc Hl]]; [left|right]; rewrite Hl; eauto.
  - intros k [v Hv]. destruct (Ha _ _ Hv) as (it & Hit & Hkey & _). eauto.
Qed.

Lemma prepare_installed_witness :
  let p := check.prepare ∅ Scenario.caskOnly Scenario.mixedCfg config.DefaultState in
  (forall it, In it (config.Watchlist p.1.1.2) ->
     (config.Typ it = "formula" /\ is_Some ((∅ : gmap string string) !! config.Name it)
      /\ p.2 !! check.keyOf it = (∅ : gmap string string) !! config.Name it)
     \/ (config.Typ it = "cask" /\ is_Some (Scenario.caskOnly !! config.Name it)
         /\ p.2 !! check.keyOf it = Scenario.caskOnly !! config.Name it))
  /\ (forall k, is_Some (p.2 !! k) ->
        exists it, In it (config.Watchlist p.1.1.2) /\ k = check.keyOf it).
Proof.
  apply (prepare_installed ∅ Scenario.caskOnly Scenario.mixedCfg config.DefaultState
           (check.prepare ∅ Scenario.caskOnly Scenario.mixedCfg config.DefaultState).1.1.1 _
           (check.prepare ∅ Scenario.caskOnly Scenario.mixedCfg config.DefaultState).1.2).
  now destruct (check.prepare ∅ Scenario.caskOnly Scenario.mixedCfg config.DefaultState)
    as [[[? ?] ?] ?].
Defined.

Section Reconcile.
Import config check engine.
Context (tf : gotime.Layout).

(** The maps of versions, schemes and freshness tokens after one step
    of the loop over the results. *)
Lemma reconcileStep_versions (sv : semver.Lib) (now : Z) (installed : gmap string string)
    (st : State) (outdated : list OutdatedItem) (r : fetchResult) :
  let st' := (reconcileStep tf sv now installed (st, outdated) r).1 in
  let key := keyOf (item r) in
  let bare := Name (item r) in
  LastVersions st'
  = (if bool_decide (err r = None) && negb (notModified r) && negb (String.eqb (latest r) "")
     then let m := <[key := latest r]> (LastVersions st) in
          if negb (String.eqb key bare) then delete bare m else m
     else LastVersions st)
  /\ LastSchemes st'
     = (if bool_decide (err r = None) && negb (notModified r)
        then let m := <[key := scheme r]> (LastSchemes st) in
             if negb (String.eqb key bare) then delete bare m else m
        else LastSchemes st)
  /\ ETagCache st'
     = (if bool_decide (err r = None) && negb (notModified r) && negb (String.eqb (etag r) "")
        then <[api.URLFor (item r) := etag r]> (ETagCache st)
        else ETagCache st).
Proof.
  unfold reconcileStep. destruct (err r); [cbn; auto|].
  destruct (notModified r); destruct (negb (String.eqb (etag r) ""));
    destruct (negb (String.eqb (latest r) ""));
    destruct (negb (String.eqb (keyOf (item r)) (Name (item r))));
    destruct (isOutdated _ _ _ _ _); cbn; auto.
Qed.

Lemma written_lookup {V : Type} (key bare : string) (v : V) (m : gmap string V) :
  (let m' := <[key := v]> m in if negb (String.eqb key bare) then delete bare m' else m')
    !! key = Some v.
Proof.
  cbn zeta. destruct (String.eqb key bare) eqn:E; cbn [negb].
  - apply lookup_insert_eq.
  - apply String.eqb_neq in E. rewrite lookup_delete_ne by congruence. apply lookup_insert_eq.
Qed.

Lemma written_other {V : Type} (key bare k : string) (v : V) (m : gmap string V) :
  key <> k -> bare <> k ->
  (let m' := <[key := v]> m in if negb (String.eqb key bare) then delete bare m' else m')
    !! k = m !! k.
Proof.
  intros H1 H2. cbn zeta. destruct (negb (String.eqb key bare)).
  - rewrite lookup_delete_ne, lookup_insert_ne by congruence. reflexivity.
  - rewrite lookup_insert_ne by congruence. reflexivity.
Qed.

Lemma written_none {V : Type} (key bare k : string) (v : V) (m : gmap string V) :
  key <> k ->
  (let m' := <[key := v]> m in if negb (String.eqb key bare) then delete bare m' else m')
    !! k = m !! k
  \/ (let m' := <[key := v]> m in if negb (String.eqb key bare) then delete bare m' else m')
       !! k = None.
Proof.
  intros H1. cbn zeta. destruct (negb (String.eqb key bare)).
  - destruct (decide (bare = k)) as [->|H2].
    + right. apply lookup_delete_eq.
    + left. rewrite lookup_delete_ne, lookup_insert_ne by congruence. reflexivity.
  - left. rewrite lookup_insert_ne by congruence. reflexivity.
Qed.

(** After the loop the entry of [key] is what the result for [key]
    brought, when one result writes it and no other result touches
    it. *)
Lemma reconcile_versions (sv : semver.Lib) (now : Z) (installed : gmap string string)
    (key v : string) (s : Z) (results : list fetchResult) :
  (forall r, In r results -> keyOf (item r) = key \/ Name (item r) = key ->
             keyOf (item r) = key /\ err r = None /\ notModified r = false
             /\ latest r = v /\ scheme r = s) ->
  v <> "" ->
  forall st outdated,
    (LastVersions st !! key = Some v /\ LastSchemes st !! key = Some s)
    \/ (exists r, In r results /\ keyOf (item r) = key) ->
    let st' := (List.fold_left (reconcileStep tf sv now installed) results (st, outdated)).1 in
    LastVersions st' !! key = Some v /\ LastSchemes st' !! key = Some s.
Proof.
  intros Hall Hv. induction results as [|r l IH]; intros st outdated Hs; cbn zeta.
  - destruct Hs as [Hs|(r & [] & _)]. exact Hs.
  - cbn [List.fold_left].
    pose proof (reconcileStep_versions sv now installed st outdated r) as He.
    cbn zeta in He.
    destruct (reconcileStep tf sv now installed (st, outdated) r) as [st1 o1].
    cbn [fst] in He. destruct He as (E1 & E2 & _).
    apply IH; [intros; apply Hall; auto; now right|].
    destruct (decide (keyOf (item r) = key \/ Name (item r) = key)) as [Hk|Hk].
    + left. destruct (Hall r (or_introl eq_refl) Hk) as (Hkey & Herr & Hnm & Hl & Hsc).
      rewrite E1, E2, Herr, Hnm, Hl, Hsc. apply String.eqb_neq in Hv. rewrite Hv.
      rewrite bool_decide_eq_true_2 by reflexivity. cbn [andb negb].
      rewrite <- Hkey. split; apply written_lookup.
    + assert (H1 : keyOf (item r) <> key) by tauto.
      assert (H2 : Name (item r) <> key) by tauto.
      destruct Hs as [[Ha Hb]|(r' & [<-|Hr'] & Hk')]; [|contradiction|right; eauto].
      left. rewrite E1, E2.
      destruct (bool_decide (err r = None) && negb (notModified r)); cbn [andb];
        [|auto].
      destruct (negb (String.eqb (latest r) "")); rewrite ?written_other by assumption; auto.
Qed.

Lemma reconcile_etag (sv : semver.Lib) (now : Z) (installed : gmap string string)
    (url tag : string) (results : list fetchResult) :
  (forall r, In r results -> api.URLFor (item r) = url ->
             err r = None /\ notModified r = false /\ etag r = tag) ->
  tag <> "" ->
  forall st outdated,
    ETagCache st !! url = Some tag \/ (exists r, In r results /\ api.URLFor (item r) = url) ->
    let st' := (List.fold_left (reconcileStep tf sv now installed) results (st, outdated)).1 in
    ETagCache st' !! url = Some tag.
Proof.
  intros Hall Hv. induction results as [|r l IH]; intros st outdated Hs; cbn zeta.
  - destruct Hs as [Hs|(r & [] & _)]. exact Hs.
  - cbn [List.fold_left].
    pose proof (reconcileStep_versions sv now installed st outdated r) as He.
    cbn zeta in He.
    destruct (reconcileStep tf sv now installed (st, outdated) r) as [st1 o1].
    cbn [fst] in He. destruct He as (_ & _ & E3).
    apply IH; [intros; apply Hall; auto; now right|].
    destruct (decide (api.URLFor (item r) = url)) as [Hk|Hk].
    + left. destruct (Hall r (or_introl eq_refl) Hk) as (Herr & Hnm & Ht).
      rewrite E3, Herr, Hnm, Ht. apply String.eqb_neq in Hv. rewrite Hv.
      rewrite bool_decide_eq_true_2 by reflexivity. cbn [andb negb].
      rewrite Hk. apply lookup_insert_eq.
    + destruct Hs as [Ha|(r' & [<-|Hr'] & Hk')]; [|contradiction|right; eauto].
      left. rewrite E3.
      destruct (bool_decide (err r = None) && negb (notModified r)
                && negb (String.eqb (etag r) "")); [|exact Ha].
      now rewrite lookup_insert_ne.
Qed.

(** An entry of the next-check map that no result writes is, after the
    loop, what it was or gone. *)
Lemma reconcile_unwritten (sv : semver.Lib) (now : Z) (installed : gmap string string)
    (k : string) (results : list fetchResult) :
  (forall r, In r results -> err r = None -> keyOf (item r) <> k) ->
  forall st outdated,
    let st' := (List.fold_left (reconcileStep tf sv now installed) results (st, outdated)).1 in
    NextCheckAt st' !! k = NextCheckAt st !! k \/ NextCheckAt st' !! k = None.
Proof.
  intros Hall. induction results as [|r l IH]; intros st outdated; cbn zeta; [now left|].
  cbn [List.fold_left].
  pose proof (reconcileStep_next tf sv now installed st outdated r) as He.
  destruct (reconcileStep tf sv now installed (st, outdated) r) as [st1 o1].
  cbn [fst] in He.
  assert (Hl : forall r', In r' l -> err r' = None -> keyOf (item r') <> k)
    by (intros; apply Hall; auto; now right).
  destruct (IH Hl st1 o1) as [H|H]; [|now right]. cbn zeta in H. rewrite H, He.
  destruct (err r) eqn:Ee; [now left|].
  apply written_none. apply Hall; [now left|exact Ee].
Qed.

Lemma reconcile_untouched (sv : semver.Lib) (now : Z) (installed : gmap string string)
    (k : string) (results : list fetchResult) :
  (forall r, In r results -> err r = None -> keyOf (item r) <> k /\ Name (item r) <> k) ->
  forall st outdated,
    let st' := (List.fold_left (reconcileStep tf sv now installed) results (st, outdated)).1 in
    NextCheckAt st' !! k = NextCheckAt st !! k.
Proof.
  intros Hall. induction results as [|r l IH]; intros st outdated; cbn zeta; [reflexivity|].
  cbn [List.fold_left].
  pose proof (reconcileStep_next tf sv now installed st outdated r) as He.
  destruct (reconcileStep tf sv now installed (st, outdated) r) as [st1 o1].
  cbn [fst] in He.
  assert (Hl : forall r', In r' l -> err r' = None ->
                          keyOf (item r') <> k /\ Name (item r') <> k)
    by (intros; apply Hall; auto; now right).
  pose proof (IH Hl st1 o1) as H. cbn zeta in H. rewrite H, He.
  destruct (err r) eqn:Ee; [reflexivity|].
  destruct (Hall r (or_introl eq_refl) Ee). now apply written_other.
Qed.

Lemma reconcileStep_reported (sv : semver.Lib) (now : Z) (installed : gmap string string)
    (st : State) (outdated : list OutdatedItem) (r : fetchResult) :
  let out := (reconcileStep tf sv now installed (st, outdated) r).2 in
  out = outdated
  \/ exists o, out = (outdated ++ [o])%list /\ reported sv installed [r] o.
Proof.
  unfold reconcileStep. destruct (err r) eqn:Ee; [now left|].
  destruct (notModified r); destruct (negb (String.eqb (etag r) ""));
    destruct (negb (String.eqb (latest r) ""));
    destruct (negb (String.eqb (keyOf (item r)) (Name (item r))));
    match goal with
    | |- context [isOutdated ?a ?b ?c ?d ?e] => destruct (isOutdated a b c d e) eqn:Eo
    end; cbn; auto; right; eexists; (split; [reflexivity|]);
    (split; [exists r; repeat split; [now left|exact Ee]|]);
    (split; [reflexivity|]); cbn; eauto.
Qed.

Lemma reconcile_reported (sv : semver.Lib) (now : Z) (installed : gmap string string)
    (all results : list fetchResult) :
  incl results all ->
  forall st outdated,
    Forall (reported sv installed all) outdated ->
    Forall (reported sv installed all)
      (List.fold_left (reconcileStep tf sv now installed) results (st, outdated)).2.
Proof.
  induction results as [|r l IH]; intros Hincl st outdated Ho; [exact Ho|].
  cbn [List.fold_left].
  pose proof (reconcileStep_reported sv now installed st outdated r) as Hr. cbn zeta in Hr.
  destruct (reconcileStep tf sv now installed (st, outdated) r) as [st1 o1]. cbn [snd] in Hr.
  apply IH; [intros x Hx; apply Hincl; now right|].
  destruct Hr as [->|(o & -> & (r' & [<-|[]] & He & Hi) & Hinst & Hout)]; [exact Ho|].
  apply Forall_app. split; [exact Ho|]. constructor; [|constructor].
  split; [|auto]. exists r. repeat split; auto. apply Hincl. now left.
Qed.

Lemma isOutdated_true (sv : semver.Lib) (installed latest : string) (s p : Z) :
  isOutdated sv installed latest s p = true ->
  installed <> "" /\ latest <> "" /\ isLatest installed = false /\ isLatest latest = false.
Proof.
  unfold isOutdated.
  destruct (String.eqb installed "") eqn:E1; [discriminate|].
  destruct (String.eqb latest "") eqn:E2; [discriminate|].
  destruct (isLatest installed); [discriminate|].
  destruct (isLatest latest); [discriminate|].
  intros _. apply String.eqb_neq in E1, E2. auto.
Qed.

Lemma dispatch_etags (env : Env) (cfg : Config) (st : State) (opts : Options)
    (res : Result) (outdated : list OutdatedItem) :
  ETagCache (oSt (dispatch env cfg st opts res outdated)) = ETagCache st.
Proof.
  unfold dispatch, refreshAndUpgrade, updateFailed, stamped, upgrade, verifyFormula, verifyCask.
  leaves; reflexivity.
Qed.

End Reconcile.

(** X18: every item a run reports as outdated is a due item of the run
    whose fetch came back without error; the installed version reported
    with it is the one of the installed snapshot, and neither version is
    empty or the sentinel for which no comparison is made. *)
Theorem Run_outdated_sound (tf : gotime.Layout) (sv : semver.Lib) (env : check.Env)
    (cfg : config.Config) (st : config.State) (o : check.OutdatedItem) :
  In o (check.runOutdated tf sv env cfg st) ->
  In (check.Item o) (check.runDue tf env cfg st)
  /\ (exists r, check.runFetch env cfg st (check.Item o) = Some r /\ check.err r = None)
  /\ check.Installed o <> "" /\ check.Latest o <> ""
  /\ check.isLatest (check.Installed o) = false /\ check.isLatest (check.Latest o) = false
  /\ exists scheme prevScheme,
       check.isOutdated sv (check.Installed o) (check.Latest o) scheme prevScheme = true.
Proof.
  unfold check.runOutdated, check.runDue, check.runFetch.
  destruct (brew.ListInstalled (check.host env)) as [[formulae casks]|e0]; [|intros []].
  destruct (check.prepare formulae casks cfg st) as [[[removed cfg1] st1] installed].
  intros Ho.
  pose proof (reconcile_reported tf sv (check.now env) installed
                (check.fetchLatest env (check.dueItems tf cfg1 st1 (check.now env)) st1)
                _ (incl_refl _) st1 [] (List.Forall_nil _)) as Hall.
  rewrite List.Forall_forall in Hall. destruct (Hall o Ho) as ((r & Hr & He & Hi) & _ & Hout).
  apply In_fetchLatest in Hr. destruct Hr as (d & Hd & ->). cbn [check.item check.fetchOne] in Hi.
  subst d. split; [exact Hd|]. split; [eauto|].
  destruct Hout as (s & p & Hout). destruct (isOutdated_true _ _ _ _ _ Hout) as (H1 & H2 & H3 & H4).
  repeat split; eauto.
Qed.

Lemma Run_outdated_sound_witness :
  let o := {| check.Item := Sample.watch "a" "formula" "" 5;
              check.Installed := "1.0.0"; check.Latest := "1.1.0" |} in
  In (check.Item o)
    (check.runDue gotime.unixLayout Sample.env Sample.cfg config.DefaultState)
  /\ (exists r, check.runFetch Sample.env Sample.cfg config.DefaultState (check.Item o) = Some r
                /\ check.err r = None)
  /\ check.Installed o <> "" /\ check.Latest o <> ""
  /\ check.isLatest (check.Installed o) = false /\ check.isLatest (check.Latest o) = false
  /\ exists scheme prevScheme,
       check.isOutdated semver.reference (check.Installed o) (check.Latest o)
         scheme prevScheme = true.
Proof.
  apply (Run_outdated_sound gotime.unixLayout semver.reference Sample.env Sample.cfg
           config.DefaultState).
  vm_compute. repeat (first [left; reflexivity | right]).
Defined.

(** X19: after a run in which a due item was fetched without error and
    with fresh content (not a not-modified answer) and a non-empty
    version, and no other due item carries its key, the state records
    that version and scheme under the item's composite key; the
    freshness token, when there is one, is cached under the item's URL
    if no other due item shares the URL. *)
Theorem Run_records_version (tf : gotime.Layout) (sv : semver.Lib) (env : check.Env)
    (cfg : config.Config) (st : config.State) (opts : check.Options)
    (it : config.WatchItem) (r : check.fetchResult) :
  In it (check.runDue tf env cfg st) ->
  check.runFetch env cfg st it = Some r ->
  check.err r = None -> check.notModified r = false -> check.latest r <> "" ->
  (forall d, In d (check.runDue tf env cfg st) ->
             check.keyOf d = check.keyOf it \/ config.Name d = check.keyOf it -> d = it) ->
  let out := check.Run tf sv env cfg st opts in
  config.LastVersions (check.oSt out) !! check.keyOf it = Some (check.latest r)
  /\ config.LastSchemes (check.oSt out) !! check.keyOf it = Some (check.scheme r)
  /\ ((forall d, In d (check.runDue tf env cfg st) -> api.URLFor d = api.URLFor it -> d = it) ->
      check.etag r <> "" ->
      config.ETagCache (check.oSt out) !! api.URLFor it = Some (check.etag r)).
Proof.
  intros Hdue Hfetch Herr Hnm Hlat Huniq. cbn zeta.
  revert Hdue Hfetch Huniq. unfold check.runDue, check.runFetch, check.Run.
  destruct (brew.ListInstalled (check.host env)) as [[formulae casks]|e0]; [|intros []].
  destruct (check.prepare formulae casks cfg st) as [[[removed cfg1] st1] installed].
  intros Hdue [= <-] Huniq.
  destruct (check.dueItems tf cfg1 st1 (check.now env)) as [|d due] eqn:Ed; [destruct Hdue|].
  rewrite <- Ed in *.
  destruct (List.fold_left _ _ _) as [st2 outd] eqn:Ef.
  match goal with
  | |- context [check.dispatch ?e ?c ?s ?o ?r ?l] =>
      destruct (dispatch_state e c s o r l) as ((_ & Hv & Hs) & _);
      pose proof (dispatch_etags e c s o r l) as Ht
  end.
  rewrite Hv, Hs, Ht. change st2 with ((st2, outd).1). rewrite <- Ef.
  assert (Hin : In (check.fetchOne env st1 it)
                  (check.fetchLatest env (check.dueItems tf cfg1 st1 (check.now env)) st1))
    by (apply In_fetchLatest; eauto).
  split; [|split].
  - apply (reconcile_versions tf sv (check.now env) installed (check.keyOf it)
             (check.latest (check.fetchOne env st1 it))
             (check.scheme (check.fetchOne env st1 it))); auto.
    + intros r Hr Hk. apply In_fetchLatest in Hr. destruct Hr as (d' & Hd' & ->).
      cbn [check.item check.fetchOne] in Hk. rewrite (Huniq d' Hd' Hk). auto.
    + right. eauto.
  - apply (reconcile_versions tf sv (check.now env) installed (check.keyOf it)
             (check.latest (check.fetchOne env st1 it))
             (check.scheme (check.fetchOne env st1 it))); auto.
    + intros r Hr Hk. apply In_fetchLatest in Hr. destruct Hr as (d' & Hd' & ->).
      cbn [check.item check.fetchOne] in Hk. rewrite (Huniq d' Hd' Hk). auto.
    + right. eauto.
  - intros Hurl Htag.
    apply (reconcile_etag tf sv (check.now env) installed (api.URLFor it)
             (check.etag (check.fetchOne env st1 it))); auto.
    + intros r Hr Hk. apply In_fetchLatest in Hr. destruct Hr as (d' & Hd' & ->).
      cbn [check.item check.fetchOne] in Hk. rewrite (Hurl d' Hd' Hk). auto.
    + right. eauto.
Qed.

Lemma Run_records_version_witness :
  config.LastVersions (check.oSt Sample.run) !! check.keyOf (Sample.watch "a" "formula" "" 5)
  = Some "1.1.0"
  /\ config.LastSchemes (check.oSt Sample.run) !! check.keyOf (Sample.watch "a" "formula" "" 5)
     = Some 0.
Proof.
  pose proof (Run_records_version gotime.unixLayout semver.reference Sample.env Sample.cfg
                config.DefaultState Sample.opts (Sample.watch "a" "formula" "" 5)
                (check.fetchOne Sample.env config.DefaultState
                   (Sample.watch "a" "formula" "" 5))) as H.
  cbn zeta in H. destruct H as (H1 & H2 & _).
  - rewrite sample_run_due. now left.
  - vm_compute. reflexivity.
  - reflexivity.
  - reflexivity.
  - discriminate.
  - rewrite sample_run_due. intros d Hd.
    repeat (destruct Hd as [<-|Hd]; [intros [H|H]; try reflexivity; discriminate H|]).
    destruct Hd.
  - split; [exact H1|exact H2].
Defined.

(** X20: an item whose fetch failed is not rescheduled: when no other due
    item carries its key or its name as a key, it is still due, at the
    instant of the run, in the state the run returns, and so is checked
    again by the next run. *)
Theorem Run_failed_fetch_due (tf : gotime.Layout) (sv : semver.Lib) (env : check.Env)
    (cfg : config.Config) (st : config.State) (opts : check.Options)
    (it : config.WatchItem) (r : check.fetchResult) (e : string) :
  In it (check.runDue tf env cfg st) ->
  check.runFetch env cfg st it = Some r ->
  check.err r = Some e ->
  (forall d, In d (check.runDue tf env cfg st) ->
             check.keyOf d = check.keyOf it \/ config.Name d = check.keyOf it
             \/ check.keyOf d = config.Name it -> d = it) ->
  let out := check.Run tf sv env cfg st opts in
  In it (check.dueItems tf (check.oCfg out) (check.oSt out) (check.now env)).
Proof.
  intros Hdue Hfetch Herr Huniq. cbn zeta.
  revert Hdue Hfetch Huniq. unfold check.runDue, check.runFetch, check.Run.
  destruct (brew.ListInstalled (check.host env)) as [[formulae casks]|e0]; [|intros []].
  destruct (check.prepare formulae casks cfg st) as [[[removed cfg1] st1] installed].
  intros Hdue [= <-] Huniq.
  destruct (check.dueItems tf cfg1 st1 (check.now env)) as [|d due] eqn:Ed; [destruct Hdue|].
  rewrite <- Ed in *.
  destruct (List.fold_left _ _ _) as [st2 outd] eqn:Ef.
  match goal with
  | |- context [check.dispatch ?e ?c ?s ?o ?r ?l] =>
      destruct (dispatch_state e c s o r l) as ((Hn & _ & _) & Hc & _)
  end.
  apply In_dueItems. apply In_dueItems in Hdue as Hd. destruct Hd as [Hd Hw].
  rewrite Hc. split; [|exact Hw].
  assert (Hres : forall r', In r' (check.fetchLatest env
                                     (check.dueItems tf cfg1 st1 (check.now env)) st1) ->
                            check.err r' = None ->
                            check.keyOf (check.item r') <> check.keyOf it
                            /\ config.Name (check.item r') <> check.keyOf it
                            /\ check.keyOf (check.item r') <> config.Name it).
  { intros r' Hr' He'. apply In_fetchLatest in Hr'. destruct Hr' as (d' & Hd' & ->).
    cbn [check.item check.fetchOne] in *.
    assert (Hne : d' <> it) by (intros ->; congruence).
    repeat split; intros Hk; apply Hne, (Huniq d' Hd'); auto. }
  pose proof (reconcile_untouched tf sv (check.now env) installed (check.keyOf it) _
                (fun r' Hr' He' => conj (proj1 (Hres r' Hr' He')) (proj1 (proj2 (Hres r' Hr' He'))))
                st1 []) as Hkey.
  pose proof (reconcile_unwritten tf sv (check.now env) installed (config.Name it) _
                (fun r' Hr' He' => proj2 (proj2 (Hres r' Hr' He'))) st1 []) as Hbare.
  cbn zeta in Hkey, Hbare. rewrite Ef in Hkey, Hbare. cbn [fst] in Hkey, Hbare.
  revert Hd. unfold check.isDue, check.nextCheckOf. rewrite Hn, Hkey.
  destruct (config.NextCheckAt st1 !! check.keyOf it) as [s|]; [auto|].
  destruct Hbare as [-> | ->]; [auto|].
  now destruct (negb (String.eqb (check.keyOf it) (config.Name it))).
Qed.

Lemma scenario_flaky_due :
  check.runDue gotime.unixLayout Sample.flakyEnv Sample.cfg config.DefaultState
  = [Sample.watch "a" "formula" "" 5; Sample.watch "b" "formula" "notify" 10;
     Sample.watch "c" "cask" "auto" 15].
Proof. vm_compute. reflexivity. Qed.

Lemma Run_failed_fetch_due_witness :
  let out := check.Run gotime.unixLayout semver.reference Sample.flakyEnv Sample.cfg
               config.DefaultState Sample.opts in
  In (Sample.watch "b" "formula" "notify" 10)
    (check.dueItems gotime.unixLayout (check.oCfg out) (check.oSt out)
       (check.now Sample.flakyEnv)).
Proof.
  apply (Run_failed_fetch_due gotime.unixLayout semver.reference Sample.flakyEnv Sample.cfg
           config.DefaultState Sample.opts (Sample.watch "b" "formula" "notify" 10)
           (check.fetchOne Sample.flakyEnv config.DefaultState
              (Sample.watch "b" "formula" "notify" 10))
           "unexpected status: 503").
  - rewrite scenario_flaky_due. right. now left.
  - vm_compute. reflexivity.
  - reflexivity.
  - rewrite scenario_flaky_due. intros d Hd.
    repeat (destruct Hd as [<-|Hd]; [intros [H|[H|H]]; try reflexivity; discriminate H|]).
    destruct Hd.
Defined.

Section BrewOutput.
Import GoStrings brew.

Lemma string_of_list_nonempty (l : list ascii) :
  l <> [] -> string_of_list_ascii l <> "".
Proof. destruct l; [congruence|discriminate]. Qed.

Lemma flush_nonempty (cur : list ascii) (acc : list string) :
  Forall (fun f => f <> "") acc -> Forall (fun f => f <> "") (flush cur acc).
Proof.
  intros H. destruct cur as [|c cur]; [exact H|]. cbn [flush]. constructor; [|exact H].
  apply string_of_list_nonempty. intros E. apply (f_equal (@length ascii)) in E.
  rewrite length_rev in E. discriminate.
Qed.

Lemma fieldsAux_nonempty (s : string) :
  forall skip cur acc,
    Forall (fun f => f <> "") acc -> Forall (fun f => f <> "") (fieldsAux s skip cur acc).
Proof.
  induction s as [|c r IH]; intros skip cur acc H; cbn [fieldsAux].
  - apply Forall_rev. now apply flush_nonempty.
  - destruct skip; [|now apply IH].
    destruct (spaceWidth (String c r)); apply IH; [exact H|now apply flush_nonempty].
Qed.

Lemma Fields_nonempty (s : string) : Forall (fun f => f <> "") (Fields s).
Proof. apply fieldsAux_nonempty. constructor. Qed.

Lemma parseOutdated_fold (lines : list string) (acc : list string) :
  Forall (fun f => f <> "") acc ->
  Forall (fun f => f <> "")
    (List.fold_left
       (fun (result : list string) line =>
          let line := TrimSpace line in
          if String.eqb line "" then result
          else match Fields line with
               | [] => result
               | f :: _ => (result ++ [f])%list
               end)
       lines acc).
Proof.
  revert acc. induction lines as [|l lines IH]; intros acc H; cbn [List.fold_left]; [exact H|].
  apply IH. cbn zeta. destruct (String.eqb (TrimSpace l) ""); [exact H|].
  pose proof (Fields_nonempty (TrimSpace l)) as Hf.
  destruct (Fields (TrimSpace l)) as [|f fs]; [exact H|].
  apply Forall_app. split; [exact H|]. constructor; [|constructor].
  now apply Forall_inv in Hf.
Qed.

Lemma listVersions_fold (lines : list string) (acc : gmap string string) :
  map_Forall (fun name version => name <> "" /\ version <> "") acc ->
  map_Forall (fun name version => name <> "" /\ version <> "")
    (List.fold_left
       (fun (result : gmap string string) line =>
          let line := TrimSpace line in
          if String.eqb line "" then result
          else match Fields line with
               | name :: version :: _ => <[name := version]> result
               | _ => result
               end)
       lines acc).
Proof.
  revert acc. induction lines as [|l lines IH]; intros acc H; cbn [List.fold_left]; [exact H|].
  apply IH. cbn zeta. destruct (String.eqb (TrimSpace l) ""); [exact H|].
  pose proof (Fields_nonempty (TrimSpace l)) as Hf.
  destruct (Fields (TrimSpace l)) as [|f [|v fs]]; [exact H|exact H|].
  apply map_Forall_insert_2; [|exact H].
  apply Forall_inv in Hf as H1. apply Forall_inv_tail, Forall_inv in Hf. auto.
Qed.

End BrewOutput.

(** X21: the report of [brew outdated] as the program reads it: no name
    is empty, and an output of white space only gives no name at all. *)
Theorem parseOutdated_names (out : string) :
  Forall (fun name => name <> "") (brew.parseOutdated out)
  /\ (GoStrings.TrimSpace out = "" -> brew.parseOutdated out = []).
Proof.
  split.
  - unfold brew.parseOutdated. apply parseOutdated_fold. constructor.
  - intros H. unfold brew.parseOutdated. rewrite H. reflexivity.
Qed.

(** X22: the installed snapshot as the program reads it off [brew list
    --versions]: every entry has a non-empty name and a non-empty
    version (a line with a name only is skipped); when the command
    fails, or brew is not found, the error is returned and no
    snapshot. *)
Theorem listVersions_entries (h : brew.Host) (args : list string) :
  match brew.listVersions h args with
  | inl installed =>
      brew.brewPath h <> None /\ brew.exitErr (brew.command h args) = None
      /\ map_Forall (fun name version => name <> "" /\ version <> "") installed
  | inr e =>
      (brew.brewPath h = None /\ e = "brew not found")
      \/ (exists x, brew.exitErr (brew.command h args) = Some x)
  end.
Proof.
  unfold brew.listVersions, brew.run.
  destruct (brew.brewPath h) as [p|]; [|left; auto].
  destruct (brew.exitErr (brew.command h args)) as [x|] eqn:E.
  - right. eauto.
  - cbn [andb]. split; [discriminate|]. split; [reflexivity|].
    apply listVersions_fold. apply map_Forall_empty.
Qed.

Section Numerals.
Import GoStrings lockfile.

Lemma pretty_N_char_digit (d : N) :
  (d < 10)%N ->
  isDigit (pretty_N_char d) = true /\ Z.of_N (code (pretty_N_char d)) - 48 = Z.of_N d.
Proof.
  intros H.
  assert (Hd : (d = 0 \/ d = 1 \/ d = 2 \/ d = 3 \/ d = 4 \/ d = 5 \/ d = 6 \/ d = 7
                \/ d = 8 \/ d = 9)%N) by lia.
  repeat (destruct Hd as [->|Hd]; [split; reflexivity|]). subst d. split; reflexivity.
Qed.

Lemma digits_pretty_N_go (x : N) :
  forall s, exists k : nat,
    forall acc, digits (pretty_N_go x s) acc = digits s (acc * 10 ^ Z.of_nat k + Z.of_N x).
Proof.
  induction (N.lt_wf_0 x) as [x _ IH]. intros s.
  destruct (decide (x = 0%N)) as [->|Hx].
  - exists 0%nat. intros acc. rewrite pretty_N_go_0. f_equal. cbn. lia.
  - rewrite pretty_N_go_step by lia.
    destruct (IH (x / 10)%N) with (s := String (pretty_N_char (x mod 10)) s) as [k Hk].
    { apply N.div_lt; lia. }
    exists (S k). intros acc. rewrite Hk. cbn [digits].
    destruct (pretty_N_char_digit (x mod 10)) as [Hd Hv]; [apply N.mod_lt; lia|].
    rewrite Hd. f_equal.
    assert (Hx' : Z.of_N x = 10 * Z.of_N (x / 10) + Z.of_N (x mod 10)).
    { rewrite <- N2Z.inj_mul with (n := 10%N), <- N2Z.inj_add. f_equal.
      apply N.div_mod. lia. }
    rewrite Nat2Z.inj_succ, Z.pow_succ_r by lia. lia.
Qed.

Lemma plain_pretty_N_go (x : N) :
  forall s, plainString s = true -> plainString (pretty_N_go x s) = true.
Proof.
  induction (N.lt_wf_0 x) as [x _ IH]. intros s Hs.
  destruct (decide (x = 0%N)) as [->|Hx]; [now rewrite pretty_N_go_0|].
  rewrite pretty_N_go_step by lia. apply IH; [apply N.div_lt; lia|].
  unfold plainString. cbn [list_ascii_of_string forallb]. fold (plainString s). rewrite Hs.
  destruct (pretty_N_char_digit (x mod 10)) as [Hd _]; [apply N.mod_lt; lia|].
  unfold plain. now rewrite Hd.
Qed.

Lemma digits_pretty_pos (p : positive) :
  digits (pretty_N_go (N.pos p) "") 0 = Some (Z.pos p)
  /\ pretty_N_go (N.pos p) "" <> ""
  /\ plainString (pretty_N_go (N.pos p) "") = true
  /\ (forall c r, pretty_N_go (N.pos p) "" = String c r -> isDigit c = true).
Proof.
  destruct (digits_pretty_N_go (N.pos p) "") as [k Hk].
  assert (Hd : digits (pretty_N_go (N.pos p) "") 0 = Some (Z.pos p)).
  { rewrite Hk. cbn [digits]. f_equal. }
  split; [exact Hd|]. split; [|split].
  - intros E. rewrite E in Hd. discriminate.
  - now apply plain_pretty_N_go.
  - intros c r E. rewrite E in Hd. cbn [digits] in Hd. now destruct (isDigit c).
Qed.

Lemma pretty_pos (p : positive) : pretty (Z.pos p) = pretty_N_go (N.pos p) "".
Proof. reflexivity. Qed.

Lemma pretty_neg (p : positive) : pretty (Z.neg p) = String "-" (pretty_N_go (N.pos p) "").
Proof. reflexivity. Qed.

Lemma ParseInt_digit_head (c : ascii) (r : string) :
  isDigit c = true ->
  ParseInt (String c r)
  = match digits (String c r) 0 with
    | Some n => if (- 2 ^ 63 <=? n) && (n <=? 2 ^ 63 - 1) then Some n else None
    | None => None
    end.
Proof.
  destruct c as [[] [] [] [] [] [] [] []]; intros H; try discriminate H; reflexivity.
Qed.

Lemma ParseInt_Itoa (z : Z) : int64 z -> ParseInt (Itoa z) = Some z.
Proof.
  intros [Hlo Hhi]. unfold Itoa. destruct z as [|p|p].
  - reflexivity.
  - rewrite pretty_pos. destruct (digits_pretty_pos p) as (Hd & Hne & _ & Hhead).
    destruct (pretty_N_go (N.pos p) "") as [|c r] eqn:E; [congruence|].
    rewrite ParseInt_digit_head by (now apply (Hhead c r)). rewrite Hd.
    replace (- 2 ^ 63 <=? Z.pos p) with true by (symmetry; apply Z.leb_le; lia).
    replace (Z.pos p <=? 2 ^ 63 - 1) with true by (symmetry; apply Z.leb_le; lia).
    reflexivity.
  - rewrite pretty_neg. destruct (digits_pretty_pos p) as (Hd & Hne & _ & _).
    unfold ParseInt. cbn [unsignedDigits].
    change (match String "-" (pretty_N_go (N.pos p) "") with
            | String "+" r => unsignedDigits r
            | String "-" r => Z.opp <$> unsignedDigits r
            | _ => unsignedDigits (String "-" (pretty_N_go (N.pos p) ""))
            end) with (Z.opp <$> unsignedDigits (pretty_N_go (N.pos p) "")).
    unfold unsignedDigits.
    destruct (pretty_N_go (N.pos p) "") as [|c r] eqn:E; [congruence|].
    rewrite Hd. cbn [fmap option_fmap option_map]. change (- Z.pos p) with (Z.neg p).
    replace (- 2 ^ 63 <=? Z.neg p) with true by (symmetry; apply Z.leb_le; lia).
    replace (Z.neg p <=? 2 ^ 63 - 1) with true by (symmetry; apply Z.leb_le; lia).
    reflexivity.
Qed.

Lemma plain_Itoa (z : Z) : plainString (Itoa z) = true.
Proof.
  unfold Itoa. destruct z as [|p|p]; [reflexivity| |].
  - rewrite pretty_pos. apply digits_pretty_pos.
  - rewrite pretty_neg. unfold plainString. cbn [list_ascii_of_string forallb].
    apply andb_true_iff. split; [reflexivity|]. apply digits_pretty_pos.
Qed.

Lemma plain_code (c : ascii) :
  plain c = true ->
  (code c = 45 \/ code c = 48 \/ code c = 49 \/ code c = 50 \/ code c = 51 \/ code c = 52
   \/ code c = 53 \/ code c = 54 \/ code c = 55 \/ code c = 56 \/ code c = 57)%N.
Proof.
  unfold plain, isDigit. intros H. apply orb_true_iff in H. destruct H as [H|H].
  - apply andb_true_iff in H. destruct H as [H1 H2].
    apply N.leb_le in H1, H2. lia.
  - apply Ascii.eqb_eq in H. subst c. now left.
Qed.

Lemma plain_spaceWidth (c : ascii) (r : string) :
  plain c = true -> spaceWidth (String c r) = 0%nat.
Proof.
  intros H. apply plain_code in H. unfold spaceWidth. cbn [list_ascii_of_string List.map].
  generalize (List.map code (list_ascii_of_string r)) as rest. intros rest.
  repeat (destruct H as [->|H]; [reflexivity|]). rewrite H. reflexivity.
Qed.

Lemma plain_spaceWidthRev (c : ascii) (r : string) :
  plain c = true -> spaceWidthRev (String c r) = 0%nat.
Proof.
  intros H. apply plain_code in H. unfold spaceWidthRev. cbn [list_ascii_of_string List.map].
  generalize (List.map code (list_ascii_of_string r)) as rest. intros rest.
  assert (Hr : forall n : N,
             (n = 45 \/ n = 48 \/ n = 49 \/ n = 50 \/ n = 51 \/ n = 52 \/ n = 53 \/ n = 54
              \/ n = 55 \/ n = 56 \/ n = 57)%N ->
             (if ((9 <=? n) && (n <=? 13) || (n =? 32))%N then 1%nat
              else match rest with
                   | 128%N :: 226%N :: _ =>
                       if ((128 <=? n) && (n <=? 138) || (n =? 168) || (n =? 169)
                           || (n =? 175))%N
                       then 3%nat else 0%nat
                   | _ => 0%nat
                   end) = 0%nat).
  { intros n Hn.
    repeat (destruct Hn as [->|Hn]; [cbn; repeat case_match; reflexivity|]).
    subst n. cbn. repeat case_match; reflexivity. }
  repeat (destruct H as [->|H]; [exact (Hr _ ltac:(tauto))|]).
  rewrite H. exact (Hr _ ltac:(tauto)).
Qed.

Lemma string_rev_involutive (s : string) : string_rev (string_rev s) = s.
Proof.
  unfold string_rev. rewrite list_ascii_of_string_of_list_ascii, rev_involutive.
  apply string_of_list_ascii_of_string.
Qed.

Lemma plain_string_rev (s : string) : plainString s = true -> plainString (string_rev s) = true.
Proof.
  unfold plainString, string_rev. rewrite list_ascii_of_string_of_list_ascii.
  rewrite !forallb_forall. intros H c Hc. apply H. now apply in_rev.
Qed.

Lemma TrimSpace_plain (s : string) : plainString s = true -> TrimSpace s = s.
Proof.
  intros Hs. unfold TrimSpace.
  assert (Hl : forall t, plainString t = true -> forall w,
                 (forall c r, plain c = true -> w (String c r) = 0%nat) ->
                 trimLeftWith w t 0 = t).
  { intros [|c r] Ht w Hw; [reflexivity|]. cbn [trimLeftWith].
    unfold plainString in Ht. cbn [list_ascii_of_string forallb] in Ht.
    apply andb_true_iff in Ht. now rewrite (Hw c r) by apply Ht. }
  rewrite (Hl s Hs) by apply plain_spaceWidth.
  rewrite (Hl (string_rev s)) by (try apply plain_spaceWidthRev; now apply plain_string_rev).
  apply string_rev_involutive.
Qed.

Lemma plain_not_bar (c : ascii) : plain c = true -> Ascii.eqb c "|" = false.
Proof.
  intros H. destruct (Ascii.eqb_spec c "|") as [->|_]; [discriminate H|reflexivity].
Qed.

Lemma splitAux_plain (a : string) :
  forall cur, plainString a = true ->
  splitAux a "|" cur = [string_of_list_ascii (List.rev cur ++ list_ascii_of_string a)].
Proof.
  induction a as [|c a IH]; intros cur Ha; cbn [splitAux list_ascii_of_string].
  - now rewrite app_nil_r.
  - unfold plainString in Ha. cbn [list_ascii_of_string forallb] in Ha.
    apply andb_true_iff in Ha. destruct Ha as [Hc Ha].
    rewrite (plain_not_bar c Hc), IH by exact Ha. cbn [List.rev].
    now rewrite <- app_assoc.
Qed.

Lemma splitAux_bar (a b : string) :
  forall cur, plainString a = true ->
  splitAux (a +:+ String "|" b) "|" cur
  = string_of_list_ascii (List.rev cur ++ list_ascii_of_string a) :: splitAux b "|" [].
Proof.
  induction a as [|c a IH]; intros cur Ha.
  - cbn. now rewrite app_nil_r.
  - unfold plainString in Ha. cbn [list_ascii_of_string forallb] in Ha.
    apply andb_true_iff in Ha. destruct Ha as [Hc Ha].
    change (String c a +:+ String "|" b) with (String c (a +:+ String "|" b)).
    cbn [splitAux list_ascii_of_string].
    rewrite (plain_not_bar c Hc), IH by exact Ha. cbn [List.rev].
    now rewrite <- app_assoc.
Qed.

Lemma parseLock_freshContent (sys : lock.Sys) (t : Z) :
  int64 (lock.pid sys) -> int64 (gotime.toUnix t) ->
  lock.parseLock (lock.freshContent sys t) = Some (lock.pid sys, gotime.toUnix t).
Proof.
  intros Hp Ht. unfold lock.parseLock, lock.freshContent, Split.
  change (Itoa (lock.pid sys) +:+ "|" +:+ Itoa (gotime.toUnix t))
    with (Itoa (lock.pid sys) +:+ String "|" (Itoa (gotime.toUnix t))).
  rewrite splitAux_bar by apply plain_Itoa.
  rewrite splitAux_plain by apply plain_Itoa.
  cbn [List.rev app]. rewrite !string_of_list_ascii_of_string.
  rewrite !TrimSpace_plain by apply plain_Itoa.
  now rewrite !ParseInt_Itoa.
Qed.

End Numerals.

(** X23: the content [Acquire] writes into a new lock file reads back, by
    the parsing of [isStale], as the writer's process id and the Unix
    time of the writing, whenever both fit in 64 bits. *)
Theorem lock_round_trip (sys : lock.Sys) (t : Z) :
  lockfile.int64 (lock.pid sys) -> lockfile.int64 (gotime.toUnix t) ->
  lock.parseLock (lock.freshContent sys t) = Some (lock.pid sys, gotime.toUnix t).
Proof. apply parseLock_freshContent. Qed.

Lemma lock_round_trip_witness :
  lock.parseLock (lock.freshContent lockfile.owner (2000 * gotime.Second))
  = Some (77, gotime.toUnix (2000 * gotime.Second)).
Proof.
  apply (lock_round_trip lockfile.owner (2000 * gotime.Second)); vm_compute; split; discriminate.
Defined.

(** X24: mutual exclusion and release. On a path without lock file
    [Acquire] succeeds in its first pass; a second [Acquire], by a
    process that sees the holder alive and within the timeout, fails
    with "lock already held" and leaves the file as it is; after
    [Release] the file is gone and the second process acquires the lock
    in its first pass. *)
Theorem lock_cycle (sys other : lock.Sys) (p : string) (timeout : Z) (n f1 f2 f3 : nat) :
  lockfile.int64 (lock.pid sys) ->
  lockfile.int64 (gotime.toUnix (lock.clock sys n)) ->
  lock.alive other (lock.pid sys) = true ->
  lock.Since (lock.clock other (S n)) (gotime.toUnix (lock.clock sys n)) <= timeout ->
  let w0 := {| lock.file := lock.Absent; lock.ticks := n |} in
  exists l w1 w2 w3,
    lock.Acquire (S f1) sys p timeout w0 = Some (inl l, w1)
    /\ lock.path l = p
    /\ lock.file w1 = lock.Present (lock.freshContent sys (lock.clock sys n))
    /\ lock.Acquire (S f2) other p timeout w1 = Some (inr "lock already held", w2)
    /\ lock.file w2 = lock.file w1
    /\ lock.Release l w2 = (None, w3)
    /\ lock.file w3 = lock.Absent
    /\ exists w4, lock.Acquire (S f3) other p timeout w3 = Some (inl l, w4)
                  /\ lock.file w4
                     = lock.Present (lock.freshContent other (lock.clock other (lock.ticks w3))).
Proof.
  intros Hp Ht Ha Hs. cbn zeta.
  pose proof (parseLock_freshContent sys (lock.clock sys n) Hp Ht) as Hparse.
  apply Z.ltb_ge in Hs.
  eexists _, _, _, _. split; [reflexivity|]. split; [reflexivity|]. split; [reflexivity|].
  split.
  { cbn [lock.Acquire lock.file lock.isStale lock.ticks]. rewrite Hparse, Ha. cbn [negb].
    rewrite Hs. reflexivity. }
  split; [reflexivity|]. split; [reflexivity|]. split; [reflexivity|].
  eexists. split; reflexivity.
Qed.

Lemma lock_cycle_witness :
  exists l w1 w2 w3,
    lock.Acquire 1 lockfile.owner "lock" (600 * gotime.Second)
      {| lock.file := lock.Absent; lock.ticks := 0 |} = Some (inl l, w1)
    /\ lock.path l = "lock"
    /\ lock.file w1
       = lock.Present (lock.freshContent lockfile.owner (lock.clock lockfile.owner 0))
    /\ lock.Acquire 1 lockfile.rival "lock" (600 * gotime.Second) w1
       = Some (inr "lock already held", w2)
    /\ lock.file w2 = lock.file w1
    /\ lock.Release l w2 = (None, w3)
    /\ lock.file w3 = lock.Absent
    /\ exists w4, lock.Acquire 1 lockfile.rival "lock" (600 * gotime.Second) w3
                  = Some (inl l, w4)
                  /\ lock.file w4
                     = lock.Present (lock.freshContent lockfile.rival
                                       (lock.clock lockfile.rival (lock.ticks w3))).
Proof.
  apply (lock_cycle lockfile.owner lockfile.rival "lock" (600 * gotime.Second) 0 0 0 0).
  - vm_compute. split; discriminate.
  - vm_compute. split; discriminate.
  - reflexivity.
  - vm_compute. discriminate.
Defined.

Section Commands.
Import config check cmd.

Lemma splitTargets_fold (typ : string) (items : list WatchItem) (fs cs : list string) :
  List.fold_left
    (fun (acc : list string * list string) item =>
       let '(formulae, casks) := acc in
       if negb (String.eqb typ "all") && negb (String.eqb (Typ item) typ) then acc
       else if String.eqb (Typ item) "cask"
            then (formulae, (casks ++ [Name item])%list)
            else ((formulae ++ [Name item])%list, casks))
    items (fs, cs)
  = ((fs ++ List.map Name (List.filter (chosen typ false) items))%list,
     (cs ++ List.map Name (List.filter (chosen typ true) items))%list).
Proof.
  unfold chosen.
  revert fs cs. induction items as [|it l IH]; intros fs cs; cbn [List.fold_left].
  - cbn. now rewrite !app_nil_r.
  - cbn [List.filter].
    assert (Hc : String.eqb typ "all" || String.eqb (Typ it) typ
                 = negb (negb (String.eqb typ "all") && negb (String.eqb (Typ it) typ)))
      by (destruct (String.eqb typ "all"); destruct (String.eqb (Typ it) typ); reflexivity).
    rewrite Hc.
    destruct (negb (String.eqb typ "all") && negb (String.eqb (Typ it) typ));
      cbn [negb andb]; [now rewrite IH|].
    destruct (String.eqb (Typ it) "cask"); cbn [Bool.eqb]; rewrite IH;
      cbn [List.map]; rewrite <- ?app_assoc; reflexivity.
Qed.

Lemma splitTargets_eq (typ : string) (items : list WatchItem) :
  splitTargets items typ
  = (List.map Name (List.filter (chosen typ false) items),
     List.map Name (List.filter (chosen typ true) items)).
Proof. unfold splitTargets. now rewrite splitTargets_fold. Qed.

Lemma filter_partition {A : Type} (p q : A -> bool) (l : list A) :
  (forall x, q x = negb (p x)) ->
  Permutation (List.filter p l ++ List.filter q l) l.
Proof.
  intros H. induction l as [|x l IH]; cbn; [reflexivity|].
  rewrite H. destruct (p x); cbn [negb].
  - cbn. now constructor.
  - rewrite <- Permutation_middle. now constructor.
Qed.

Lemma named_In (args : list string) (n : string) : named args n = true <-> In n args.
Proof.
  unfold named. rewrite existsb_exists. split.
  - intros (x & Hx & E). apply String.eqb_eq in E. now subst.
  - intros H. exists n. split; [exact H|apply String.eqb_refl].
Qed.

Lemma setItem_same (args : list string) (policy : string) (interval : Z) (it : WatchItem) :
  Name (setItem args policy interval it) = Name it
  /\ Typ (setItem args policy interval it) = Typ it
  /\ AddedAt (setItem args policy interval it) = AddedAt it
  /\ (if named args (Name it)
      then Policy (setItem args policy interval it)
           = (if String.eqb policy "" then Policy it else policy)
           /\ IntervalMin (setItem args policy interval it)
              = (if 0 <? interval then interval else IntervalMin it)
      else setItem args policy interval it = it).
Proof.
  unfold setItem. destruct (named args (Name it)); cbn [negb]; [|auto].
  destruct (String.eqb policy ""); destruct (0 <? interval); cbn; auto.
Qed.

Lemma setCmd_inv (args : list string) (policy : string) (interval : Z)
    (load : Config + string) (save : Config -> option string) (cfg' : Config)
    (e : option string) :
  setCmd args policy interval load save = (Some cfg', e) ->
  args <> [] /\ validatePolicy policy = None
  /\ (interval = 0 \/ MinIntervalMin <= interval <= MaxIntervalMin)
  /\ exists cfg, load = inl cfg
                 /\ cfg' = withWatchlist cfg
                             (List.map (setItem args policy interval) (Watchlist cfg))
                 /\ e = save cfg'.
Proof.
  unfold setCmd. destruct args as [|a args]; [discriminate|].
  destruct (validatePolicy policy); [discriminate|].
  destruct (negb (interval =? 0) && ((interval <? MinIntervalMin) || (MaxIntervalMin <? interval)))
    eqn:Ei; [discriminate|].
  destruct load as [cfg|x]; [|discriminate]. intros [= <- <-].
  split; [discriminate|]. split; [reflexivity|]. split; [|eauto].
  destruct (interval =? 0) eqn:E0; [left; now apply Z.eqb_eq|]. right.
  cbn [negb andb] in Ei. apply orb_false_iff in Ei. destruct Ei as [H1 H2].
  apply Z.ltb_ge in H1, H2. lia.
Qed.

Lemma validatePolicy_None (policy : string) :
  validatePolicy policy = None <-> policy = "" \/ policy = "auto" \/ policy = "notify".
Proof.
  unfold validatePolicy. destruct (String.eqb_spec policy ""); [tauto|].
  destruct (String.eqb_spec policy "auto"); [tauto|].
  destruct (String.eqb_spec policy "notify"); cbn; [tauto|].
  split; [discriminate|]. tauto.
Qed.

End Commands.

(** X25: [splitTargets] files the names of the selected items by kind,
    in their order: casks in the second list, everything else in the
    first. With the type "all" every item is filed exactly once; with
    "formula" no cask is filed and with "cask" nothing but casks; the
    empty type, which [validateType] lets pass like "all", selects only
    the items without kind. *)
Theorem splitTargets_kinds (items : list config.WatchItem) (typ : string) :
  let '(formulae, casks) := cmd.splitTargets items typ in
  formulae = List.map config.Name (List.filter (cmd.chosen typ false) items)
  /\ casks = List.map config.Name (List.filter (cmd.chosen typ true) items)
  /\ (typ = "all" -> Permutation (formulae ++ casks) (List.map config.Name items))
  /\ (typ = "formula" -> casks = [])
  /\ (typ = "cask" -> formulae = [])
  /\ (typ = "" ->
      cmd.validateType typ = None /\ casks = []
      /\ formulae
         = List.map config.Name
             (List.filter (fun it => String.eqb (config.Typ it) "") items)).
Proof.
  rewrite splitTargets_eq. split; [reflexivity|]. split; [reflexivity|].
  split; [|split; [|split]].
  - intros ->. rewrite <- List.map_app. apply Permutation_map.
    apply filter_partition. intros x. unfold cmd.chosen. cbn.
    now destruct (String.eqb (config.Typ x) "cask").
  - intros ->. induction items as [|it l IH]; [reflexivity|]. cbn [List.filter].
    unfold cmd.chosen at 1. cbn [String.eqb Ascii.eqb Bool.eqb orb].
    destruct (String.eqb_spec (config.Typ it) "formula") as [E|E].
    + rewrite E. cbn. exact IH.
    + cbn. exact IH.
  - intros ->. induction items as [|it l IH]; [reflexivity|]. cbn [List.filter].
    unfold cmd.chosen at 1.
    destruct (String.eqb (config.Typ it) "cask"); cbn; exact IH.
  - intros ->. split; [reflexivity|]. split.
    + induction items as [|it l IH]; [reflexivity|]. cbn [List.filter].
      unfold cmd.chosen at 1.
      destruct (String.eqb_spec (config.Typ it) "") as [E|E]; [rewrite E|]; cbn; exact IH.
    + f_equal. induction items as [|it l IH]; [reflexivity|]. cbn [List.filter].
      unfold cmd.chosen at 1.
      destruct (String.eqb_spec (config.Typ it) "") as [E|E]; [rewrite E|]; cbn;
        now rewrite IH.
Qed.

(** X26: what [setCmd] hands to [SaveConfig]. It saves only when a name
    is given, the policy is empty, "auto" or "notify" and the interval
    is 0 or within 1..1440; the saved watchlist has the items of the
    loaded one in their order, with name, kind and date unchanged; an
    item that is not named is unchanged, a named item takes the policy
    (unless empty) and the interval (if positive); and a normalized
    configuration stays normalized. *)
Theorem setCmd_saves (args : list string) (policy : string) (interval : Z)
    (cfg : config.Config) (save : config.Config -> option string)
    (cfg' : config.Config) (e : option string) :
  cmd.setCmd args policy interval (inl cfg) save = (Some cfg', e) ->
  args <> []
  /\ (policy = "" \/ policy = "auto" \/ policy = "notify")
  /\ (interval = 0 \/ config.MinIntervalMin <= interval <= config.MaxIntervalMin)
  /\ e = save cfg'
  /\ cfg' = check.withWatchlist cfg (config.Watchlist cfg')
  /\ List.map check.keyOf (config.Watchlist cfg') = List.map check.keyOf (config.Watchlist cfg)
  /\ Forall2
       (fun old new =>
          config.Name new = config.Name old /\ config.Typ new = config.Typ old
          /\ config.AddedAt new = config.AddedAt old
          /\ (if cmd.named args (config.Name old)
              then config.Policy new
                   = (if String.eqb policy "" then config.Policy old else policy)
                   /\ config.IntervalMin new
                      = (if 0 <? interval then interval else config.IntervalMin old)
              else new = old))
       (config.Watchlist cfg) (config.Watchlist cfg')
  /\ (configLoad.normalized cfg -> configLoad.normalized cfg').
Proof.
  intros H. apply setCmd_inv in H.
  destruct H as (Ha & Hp & Hi & cfg0 & [= <-] & -> & ->).
  apply validatePolicy_None in Hp.
  cbn [config.Watchlist check.withWatchlist].
  assert (Hkeys : List.map check.keyOf
                    (List.map (cmd.setItem args policy interval) (config.Watchlist cfg))
                  = List.map check.keyOf (config.Watchlist cfg)).
  { rewrite List.map_map. apply map_ext. intros it. unfold check.keyOf.
    destruct (setItem_same args policy interval it) as (-> & -> & _). reflexivity. }
  repeat (split; [solve [auto]|]). split.
  - clear Hkeys. induction (config.Watchlist cfg) as [|it l IH]; cbn [List.map];
      constructor; [|exact IH].
    destruct (setItem_same args policy interval it) as (H1 & H2 & H3 & H4). auto.
  - intros (Ht & Hdp & Hnm & Hnd & Hit). unfold configLoad.normalized.
    cbn [config.TickIntervalSec config.DefaultPolicy config.NotifyMethod config.Watchlist
         check.withWatchlist].
    rewrite Hkeys. repeat (split; [assumption|]).
    intros it' Hin. apply in_map_iff in Hin. destruct Hin as (it & <- & Hin).
    destruct (Hit it Hin) as [Hv Hz].
    destruct (setItem_same args policy interval it) as (_ & _ & Hadd & Hset).
    rewrite Hadd. split; [|exact Hz].
    destruct (cmd.named args (config.Name it)); [|now rewrite Hset].
    destruct Hset as [_ ->]. destruct (0 <? interval) eqn:E0; [|exact Hv].
    apply Z.ltb_lt in E0. apply ValidateInterval_None. lia.
Qed.

Lemma setCmd_saves_witness :
  let cfg' := check.withWatchlist Sample.cfg
                (List.map (cmd.setItem ["b"] "auto" 30) (config.Watchlist Sample.cfg)) in
  ["b"] <> []
  /\ ("auto" = "" \/ "auto" = "auto" \/ "auto" = "notify")
  /\ (30 = 0 \/ config.MinIntervalMin <= 30 <= config.MaxIntervalMin)
  /\ None = (fun _ : config.Config => @None string) cfg'
  /\ cfg' = check.withWatchlist Sample.cfg (config.Watchlist cfg')
  /\ List.map check.keyOf (config.Watchlist cfg')
     = List.map check.keyOf (config.Watchlist Sample.cfg)
  /\ Forall2
       (fun old new =>
          config.Name new = config.Name old /\ config.Typ new = config.Typ old
          /\ config.AddedAt new = config.AddedAt old
          /\ (if cmd.named ["b"] (config.Name old)
              then config.Policy new
                   = (if String.eqb "auto" "" then config.Policy old else "auto")
                   /\ config.IntervalMin new
                      = (if 0 <? 30 then 30 else config.IntervalMin old)
              else new = old))
       (config.Watchlist Sample.cfg) (config.Watchlist cfg')
  /\ (configLoad.normalized Sample.cfg -> configLoad.normalized cfg').
Proof.
  apply (setCmd_saves ["b"] "auto" 30 Sample.cfg (fun _ => None)).
  reflexivity.
Defined.

Section Upgrade.
Import config check cmd.

Lemma selectTargets_In (all : bool) (args : list string) (cfg : Config) (w : WatchItem) :
  In w (selectTargets all args cfg)
  <-> In w (Watchlist cfg) /\ (all = true \/ args = [] \/ In (Name w) args).
Proof.
  unfold selectTargets. destruct all; cbn [orb]; [tauto|].
  destruct args as [|a args]; cbn [length Nat.eqb]; [tauto|].
  rewrite filter_In, named_In. split; [tauto|].
  intros [H [H'|[H'|H']]]; try discriminate; auto.
Qed.

Lemma In_splitTargets (items : list WatchItem) (typ n : string) :
  (In n (splitTargets items typ).1
   -> exists w, In w items /\ Name w = n /\ Typ w <> "cask")
  /\ (In n (splitTargets items typ).2
      -> exists w, In w items /\ Name w = n /\ Typ w = "cask").
Proof.
  rewrite splitTargets_eq. cbn [fst snd]. rewrite !in_map_iff. split.
  - intros (w & <- & Hw). apply filter_In in Hw. destruct Hw as [Hw Hc].
    exists w. repeat split; auto. unfold chosen in Hc. apply andb_true_iff in Hc.
    destruct Hc as [_ Hc]. intros E. rewrite E in Hc. discriminate.
  - intros (w & <- & Hw). apply filter_In in Hw. destruct Hw as [Hw Hc].
    exists w. repeat split; auto. unfold chosen in Hc. apply andb_true_iff in Hc.
    destruct Hc as [_ Hc]. apply String.eqb_eq.
    now destruct (String.eqb (Typ w) "cask").
Qed.

End Upgrade.

Section UpgradeCalls.
Import config check cmd.

Lemma upgradeSteps_calls (h : brew.Host) (verbose greedy : bool) (F C : list string) :
  let out := upgradeSteps h verbose greedy F C in
  (forall ev, In ev out.2 -> isNotify ev = false)
  /\ (forall F' e, In (EvUpgradeFormula F' e) out.2 ->
        F' = [] \/ exists asked, In (EvOutdatedFormula asked (inl F')) out.2)
  /\ (forall C' g e, In (EvUpgradeCask C' g e) out.2 ->
        C' = [] \/ exists asked, In (EvOutdatedCask asked g (inl C')) out.2)
  /\ (forall e,
        In (EvUpdate (Some e)) out.2
        \/ (exists asked, In (EvOutdatedFormula asked (inr e)) out.2)
        \/ (exists asked g, In (EvOutdatedCask asked g (inr e)) out.2) ->
        out.1 = Some e /\ forall ev, In ev out.2 -> isUpgrade ev = false)
  /\ (forall F' e, In (EvUpgradeFormula F' (Some e)) out.2 ->
        out.1 = Some e /\ forall C' g e', ~ In (EvUpgradeCask C' g e') out.2)
  /\ (forall asked r, In (EvOutdatedFormula asked r) out.2 -> asked = F)
  /\ (forall asked g r, In (EvOutdatedCask asked g r) out.2 -> asked = C /\ g = greedy).
Proof.
  cbn zeta. unfold upgradeSteps. leaves; cbn [fst snd app].
  all: split; [intros ev Hev; split_in Hev; subst; reflexivity|].
  all: split; [intros F' e' Hin; split_in Hin; try discriminate Hin;
               injection Hin as <- <-; first [left; reflexivity | right; eexists; cbn; eauto 10]|].
  all: split; [intros C' g' e' Hin; split_in Hin; try discriminate Hin;
               injection Hin as <- <- <-;
               first [left; reflexivity | right; eexists; cbn; eauto 10]|].
  all: split; [intros e' [Hin|[(asked & Hin)|(asked & g' & Hin)]]; split_in Hin;
               try discriminate Hin; injection Hin as <-; subst;
               (split; [reflexivity|intros ev Hev; split_in Hev; subst; reflexivity])|].
  all: split; [intros F' e' Hin; split_in Hin; try discriminate Hin;
               injection Hin as <- <-;
               (split; [reflexivity|intros C' g' e'' Hc; split_in Hc; discriminate Hc])|].
  all: split; [intros asked r Hin; split_in Hin; try discriminate Hin;
               injection Hin as <- <-; reflexivity|].
  all: intros asked g' r Hin; split_in Hin; try discriminate Hin;
       injection Hin as <- <- <-; split; reflexivity.
Qed.

End UpgradeCalls.

(** X27: the calls of [upgradeCmd]. It sends no notification; a list of
    names it hands to an upgrade call is empty or the very list that
    [brew outdated] has just reported; and the first failure ends the
    command with that error: after a failed index refresh or a failed
    outdated query no upgrade call is made, and after a failed formula
    upgrade no cask upgrade. *)
Theorem upgradeCmd_calls (h : brew.Host) (typ : string) (all verbose : bool)
    (args : list string) (load : config.Config + string) :
  let out := cmd.upgradeCmd h typ all verbose args load in
  (forall ev, In ev out.2 -> check.isNotify ev = false)
  /\ (forall F e, In (check.EvUpgradeFormula F e) out.2 ->
        F = [] \/ exists asked, In (check.EvOutdatedFormula asked (inl F)) out.2)
  /\ (forall C g e, In (check.EvUpgradeCask C g e) out.2 ->
        C = [] \/ exists asked, In (check.EvOutdatedCask asked g (inl C)) out.2)
  /\ (forall e,
        In (check.EvUpdate (Some e)) out.2
        \/ (exists asked, In (check.EvOutdatedFormula asked (inr e)) out.2)
        \/ (exists asked g, In (check.EvOutdatedCask asked g (inr e)) out.2) ->
        out.1 = Some e /\ forall ev, In ev out.2 -> check.isUpgrade ev = false)
  /\ (forall F e, In (check.EvUpgradeFormula F (Some e)) out.2 ->
        out.1 = Some e
        /\ forall C g e', ~ In (check.EvUpgradeCask C g e') out.2).
Proof.
  cbn zeta.
  assert (Hnone : forall err : option string,
            let out := (err, @nil check.Event) in
            (forall ev, In ev out.2 -> check.isNotify ev = false)
            /\ (forall F e, In (check.EvUpgradeFormula F e) out.2 ->
                  F = [] \/ exists asked, In (check.EvOutdatedFormula asked (inl F)) out.2)
            /\ (forall C g e, In (check.EvUpgradeCask C g e) out.2 ->
                  C = [] \/ exists asked, In (check.EvOutdatedCask asked g (inl C)) out.2)
            /\ (forall e,
                  In (check.EvUpdate (Some e)) out.2
                  \/ (exists asked, In (check.EvOutdatedFormula asked (inr e)) out.2)
                  \/ (exists asked g, In (check.EvOutdatedCask asked g (inr e)) out.2) ->
                  out.1 = Some e /\ forall ev, In ev out.2 -> check.isUpgrade ev = false)
            /\ (forall F e, In (check.EvUpgradeFormula F (Some e)) out.2 ->
                  out.1 = Some e
                  /\ forall C g e', ~ In (check.EvUpgradeCask C g e') out.2)).
  { intros err. cbn [fst snd]. split; [intros ev []|]. split; [intros F e []|].
    split; [intros C g e []|]. split; [|intros F e []].
    intros e [[]|[(? & [])|(? & ? & [])]]. }
  unfold cmd.upgradeCmd.
  destruct load as [cfg|e0]; [|apply Hnone].
  destruct (cmd.validateType typ); [apply Hnone|].
  destruct (cmd.selectTargets all args cfg) as [|t targets]; [apply Hnone|].
  destruct (cmd.splitTargets (t :: targets) typ) as [F0 C0].
  pose proof (upgradeSteps_calls h verbose (config.IncludeAutoUpdateCask cfg)
                (check.sortStrings F0) (check.sortStrings C0)) as Hs.
  cbn zeta in Hs. destruct Hs as (H1 & H2 & H3 & H4 & H5 & _).
  destruct F0 as [|f F0]; [destruct C0 as [|c C0]; [apply Hnone|]|]; auto 10.
Qed.

(** X28: the packages [upgradeCmd] asks brew about. Each name of an
    outdated query is the name of a watched item of that kind (a cask
    for the cask query, anything else for the formula query) that was
    named on the command line, or of any such item when no name or
    --all was given, whatever the item's policy; the names are asked in
    ascending order, and the cask query is greedy exactly when the
    configuration says so. *)
Theorem upgradeCmd_targets (h : brew.Host) (typ : string) (all verbose : bool)
    (args : list string) (cfg : config.Config) :
  let out := cmd.upgradeCmd h typ all verbose args (inl cfg) in
  (forall asked r, In (check.EvOutdatedFormula asked r) out.2 ->
     engine.sorted asked = true
     /\ forall n, In n asked ->
          exists w, In w (config.Watchlist cfg) /\ config.Name w = n
                    /\ config.Typ w <> "cask"
                    /\ (all = true \/ args = [] \/ In n args))
  /\ (forall asked g r, In (check.EvOutdatedCask asked g r) out.2 ->
        g = config.IncludeAutoUpdateCask cfg
        /\ engine.sorted asked = true
        /\ forall n, In n asked ->
             exists w, In w (config.Watchlist cfg) /\ config.Name w = n
                       /\ config.Typ w = "cask"
                       /\ (all = true \/ args = [] \/ In n args)).
Proof.
  cbn zeta. unfold cmd.upgradeCmd.
  destruct (cmd.validateType typ); [cbn; split; intros; contradiction|].
  destruct (cmd.selectTargets all args cfg) as [|t targets] eqn:Et;
    [cbn; split; intros; contradiction|].
  rewrite <- Et.
  pose proof (In_splitTargets (cmd.selectTargets all args cfg) typ) as Hin.
  destruct (cmd.splitTargets (cmd.selectTargets all args cfg) typ) as [F0 C0].
  cbn [fst snd] in Hin.
  pose proof (upgradeSteps_calls h verbose (config.IncludeAutoUpdateCask cfg)
                (check.sortStrings F0) (check.sortStrings C0)) as Hs.
  cbn zeta in Hs. destruct Hs as (_ & _ & _ & _ & _ & H6 & H7).
  assert (Hgoal :
    (forall asked r,
       In (check.EvOutdatedFormula asked r)
         (cmd.upgradeSteps h verbose (config.IncludeAutoUpdateCask cfg)
            (check.sortStrings F0) (check.sortStrings C0)).2 ->
       engine.sorted asked = true
       /\ forall n, In n asked ->
            exists w, In w (config.Watchlist cfg) /\ config.Name w = n
                      /\ config.Typ w <> "cask"
                      /\ (all = true \/ args = [] \/ In n args))
    /\ (forall asked g r,
          In (check.EvOutdatedCask asked g r)
            (cmd.upgradeSteps h verbose (config.IncludeAutoUpdateCask cfg)
               (check.sortStrings F0) (check.sortStrings C0)).2 ->
          g = config.IncludeAutoUpdateCask cfg
          /\ engine.sorted asked = true
          /\ forall n, In n asked ->
               exists w, In w (config.Watchlist cfg) /\ config.Name w = n
                         /\ config.Typ w = "cask"
                         /\ (all = true \/ args = [] \/ In n args))).
  { split.
    - intros asked r Ha. rewrite (H6 asked r Ha). split; [apply sortStrings_sorted|].
      intros n Hn. apply (proj1 (In_sortStrings _ _)) in Hn.
      destruct (proj1 (Hin n) Hn) as (w & Hw & Hname & Htyp).
      apply selectTargets_In in Hw. destruct Hw as [Hw Hsel]. subst n. eauto 10.
    - intros asked g r Ha. destruct (H7 asked g r Ha) as [-> ->].
      split; [reflexivity|]. split; [apply sortStrings_sorted|].
      intros n Hn. apply (proj1 (In_sortStrings _ _)) in Hn.
      destruct (proj2 (Hin n) Hn) as (w & Hw & Hname & Htyp).
      apply selectTargets_In in Hw. destruct Hw as [Hw Hsel]. subst n. eauto 10. }
  destruct F0 as [|f F0]; [destruct C0 as [|c C0]|]; try exact Hgoal.
  cbn. split; intros; contradiction.
Qed.

Section URLs.
Import config.

Lemma append_inv_tail (a b s : string) : a +:+ s = b +:+ s -> a = b.
Proof.
  revert b. induction a as [|c a IH]; intros [|d b] H.
  - reflexivity.
  - apply (f_equal String.length) in H. rewrite !append_length in H. cbn in H. lia.
  - apply (f_equal String.length) in H. rewrite !append_length in H. cbn in H. lia.
  - cbn in H. injection H as -> H. f_equal. now apply IH.
Qed.

End URLs.

(** X30: the metadata URL of an item determines the item among formulae
    and casks: two items of these kinds with the same URL have the same
    name and the same kind, so no two watched packages share a cached
    freshness token. *)
Theorem URLFor_injective (it1 it2 : config.WatchItem) :
  config.Typ it1 = "formula" \/ config.Typ it1 = "cask" ->
  config.Typ it2 = "formula" \/ config.Typ it2 = "cask" ->
  api.URLFor it1 = api.URLFor it2 ->
  config.Name it1 = config.Name it2 /\ config.Typ it1 = config.Typ it2.
Proof.
  unfold api.URLFor, api.buildURL, api.baseURL.
  intros [E1|E1] [E2|E2]; rewrite E1, E2; cbn; intros H;
    try discriminate H; injection H as H; split; try reflexivity;
    change (config.Name it1 +:+ ".json" = config.Name it2 +:+ ".json") in H;
    now apply append_inv_tail in H.
Qed.

Lemma URLFor_injective_witness :
  config.Name (Sample.watch "a" "formula" "" 5) = config.Name (Sample.watch "a" "formula" "auto" 9)
  /\ config.Typ (Sample.watch "a" "formula" "" 5)
     = config.Typ (Sample.watch "a" "formula" "auto" 9).
Proof.
  apply (URLFor_injective (Sample.watch "a" "formula" "" 5)
           (Sample.watch "a" "formula" "auto" 9)); [now left|now left|reflexivity].
Defined.

Section CheckCommand.
Import config check cmd.

Lemma Acquire_returns (fuel : nat) (sys : lock.Sys) (p : string) (timeout : Z)
    (w : lock.World) :
  exists r w', lock.Acquire (S (S fuel)) sys p timeout w = Some (r, w')
               /\ match r with
                  | inl l => exists data, lock.file w' = lock.Present data
                  | inr _ => lock.file w' = lock.file w
                  end.
Proof.
  cbn [lock.Acquire]. destruct (lock.file w) as [|data|e|e] eqn:Ef.
  - eexists _, _. split; [reflexivity|]. cbn. eauto.
  - unfold lock.isStale. rewrite Ef. destruct (lock.parseLock data) as [[owner ts]|].
    + destruct (negb (lock.alive sys owner)).
      * cbn. eexists _, _. split; [reflexivity|]. cbn. eauto.
      * destruct (timeout <? _).
        -- cbn. eexists _, _. split; [reflexivity|]. cbn. eauto.
        -- eexists _, _. split; [reflexivity|]. cbn. rewrite ?Ef. reflexivity.
    + cbn. eexists _, _. split; [reflexivity|]. cbn. eauto.
  - unfold lock.isStale. rewrite Ef. eexists _, _. split; [reflexivity|].
    cbn. rewrite ?Ef. reflexivity.
  - eexists _, _. split; [reflexivity|]. cbn. rewrite ?Ef. reflexivity.
Qed.

End CheckCommand.

(** X29: [checkCmd] and the lock. With two or more passes allowed to the
    loop of [lock.Acquire] the command returns. When the lock cannot be
    taken it returns without error, leaves the lock file alone, runs
    nothing and saves nothing. When the lock is taken, the lock file is
    gone on return, whatever happens in between; with another brew
    running nothing is run or saved; the configuration is handed to
    [SaveConfig] only after a run without error, and the state to
    [SaveState] only after the configuration was saved without
    error. *)
Theorem checkCmd_lock (tf : gotime.Layout) (sv : semver.Lib) (fuel : nat) (sys : lock.Sys)
    (lockPath : string) (env : check.Env) (opts : check.Options)
    (cfg : config.Config) (st : config.State) (running : bool + string)
    (saveCfg : config.Config -> option string) (saveSt : config.State -> option string)
    (w : lock.World) :
  exists r,
    cmd.checkCmd tf sv (S (S fuel)) sys lockPath env opts (inl (cfg, st)) running
      saveCfg saveSt w = Some r
    /\ ((lock.file (cmd.cLock r) = lock.file w /\ cmd.cErr r = None
         /\ cmd.cSavedCfg r = None /\ cmd.cSavedSt r = None /\ cmd.cCalls r = [])
        \/ (lock.file (cmd.cLock r) = lock.Absent
            /\ (running = inl true ->
                cmd.cErr r = None /\ cmd.cSavedCfg r = None /\ cmd.cSavedSt r = None
                /\ cmd.cCalls r = [])
            /\ (running <> inl true ->
                let out := check.Run tf sv env cfg st opts in
                cmd.cCalls r = check.oTrace out
                /\ (cmd.cSavedCfg r
                    = match check.oErr out with
                      | Some _ => None
                      | None => Some (check.oCfg out)
                      end)
                /\ (cmd.cSavedSt r
                    = match check.oErr out, saveCfg (check.oCfg out) with
                      | None, None => Some (check.oSt out)
                      | _, _ => None
                      end)
                /\ (cmd.cErr r
                    = match check.oErr out, saveCfg (check.oCfg out) with
                      | Some e, _ => Some e
                      | None, Some e => Some e
                      | None, None => saveSt (check.oSt out)
                      end)))).
Proof.
  unfold cmd.checkCmd.
  destruct (Acquire_returns fuel sys lockPath (10 * gotime.Minute) w) as (a & w' & -> & Hw).
  destruct a as [l|e].
  - destruct Hw as [data Hw].
    assert (Hrel : lock.file (lock.Release l w').2 = lock.Absent)
      by (unfold lock.Release; now rewrite Hw).
    destruct running as [[|]|e].
    + eexists. split; [reflexivity|]. right. cbn. split; [exact Hrel|].
      split; [auto|]. intros H. now destruct H.
    + destruct (check.oErr (check.Run tf sv env cfg st opts)) as [e|] eqn:Ee;
        [|destruct (saveCfg (check.oCfg (check.Run tf sv env cfg st opts))) as [e|] eqn:Es];
        (eexists; split; [reflexivity|]; right; cbn; split; [exact Hrel|];
         split; [discriminate|]; intros _; rewrite ?Ee, ?Es; auto).
    + destruct (check.oErr (check.Run tf sv env cfg st opts)) as [e'|] eqn:Ee;
        [|destruct (saveCfg (check.oCfg (check.Run tf sv env cfg st opts))) as [e'|] eqn:Es];
        (eexists; split; [reflexivity|]; right; cbn; split; [exact Hrel|];
         split; [discriminate|]; intros _; rewrite ?Ee, ?Es; auto).
  - eexists. split; [reflexivity|]. left. cbn. auto.
Qed.
